(** * Summit: the caching pipeline and the summarizer abstraction

    A shallow embedding of [summit/summarizers.py], [summit/core.py] and
    [summit/sched.py], of the markdown and deck renderers of
    [summit/render.py], and of [summit/cli.py] up to the rendering.

    - Python [str] is [string]; [int] is [Z]; [Optional[T]] is [option T];
      the dictionaries the code uses as structs are records, and the
      insertion-ordered output dictionary is an association list updated
      the way a [dict] is.
    - Code that touches the disk, sleeps, or calls a service runs in the
      monad [M]: a function of the [world] (cache files and the trace of
      external interactions so far) that returns a value or a raised
      exception, and the next world.
    - Everything outside the repository (the home directory, environment
      variables, [hashlib], [urllib], the transcript service, the chat
      backends, [yt_dlp], the schedule pages) is a field of [env].  An
      answer of a service may depend on the moment of the call: it takes
      the number of interactions that precede it.
    - The host file system is taken to work: a write stores the record and a
      read returns it.  A JSON record that does not parse is [JCorrupt].
    - An [async def] whose invocations can overlap is a coroutine ([co]);
      [Module EventLoop] runs several of them, resumed in any order.  The
      orchestrators await one computation at a time.
    - What the code prints on the console is left out.
    - The scope of the model: a character of a [string] is one byte, and
      the tests on characters, the letter case and the white space are
      those of ASCII; a text record holds no carriage return (a read in
      text mode turns it into a line feed); [urlparse] returns (urllib
      raises [ValueError] on some malformed URLs); a key of a playlist
      entry is absent or has a value other than [None]. *)

From Stdlib Require Import ZArith List Lia Bool Ascii String.
From Stdlib Require Import DecimalString DecimalPos DecimalZ Sorted.
From stdpp Require Import base option list gmap strings.

Local Open Scope string_scope.
Local Open Scope Z_scope.

(** ** Python strings *)

(** [str(n)] for an [int]. *)
Definition str_of_int (n : Z) : string := NilZero.string_of_int (Z.to_int n).

(** [sep.join(parts)]. *)
Definition str_join (sep : string) (parts : list string) : string :=
  String.concat sep parts.

Definition chars (s : string) : list ascii := list_ascii_of_string s.

Definition code (c : ascii) : N := N_of_ascii c.

Definition in_range (lo hi : N) (c : ascii) : bool :=
  ((lo <=? code c) && (code c <=? hi))%N.

Definition is_digit (c : ascii) : bool := in_range 48 57 c.

(** The character class [[A-Za-z0-9._-]]. *)
Definition is_safe_char (c : ascii) : bool :=
  in_range 65 90 c || in_range 97 122 c || is_digit c
  || (code c =? 46)%N || (code c =? 95)%N || (code c =? 45)%N.

(** [re.sub] replacing every character outside [[A-Za-z0-9._-]] by an
    underscore. *)
Fixpoint sanitize (raw : string) : string :=
  match raw with
  | EmptyString => EmptyString
  | String c rest => String (if is_safe_char c then c else "_"%char) (sanitize rest)
  end.

(** [s.lower()], on the ASCII letters. *)
Definition lower_char (c : ascii) : ascii :=
  if in_range 65 90 c then ascii_of_N (code c + 32) else c.

Fixpoint lower (s : string) : string :=
  match s with
  | EmptyString => EmptyString
  | String c rest => String (lower_char c) (lower rest)
  end.

(** [needle in hay]. *)
Definition contains (needle hay : string) : bool :=
  match String.index 0 needle hay with Some _ => true | None => false end.

(** [s[:n]] for [n >= 0]. *)
Definition str_prefix (n : N) (s : string) : string := String.substring 0 (N.to_nat n) s.

(** [s[1:]]. *)
Definition str_tail (s : string) : string :=
  match s with EmptyString => EmptyString | String _ rest => rest end.

(** Truth value of a [str]: empty is false. *)
Definition str_truthy (s : string) : bool := negb (String.eqb s "").

(** Truth value of an [Optional[str]]. *)
Definition opt_truthy (o : option string) : bool :=
  match o with Some s => str_truthy s | None => false end.

(** [str.isspace] on one ASCII character. *)
Definition is_space (c : ascii) : bool := in_range 9 13 c || in_range 28 32 c.

(** Truth value of [s.strip()]. *)
Definition strip_truthy (s : string) : bool := negb (forallb is_space (chars s)).

(** The longest prefix of digits, and what follows it. *)
Fixpoint span_digits (s : string) : string * string :=
  match s with
  | String c rest =>
      if is_digit c then let '(d, r) := span_digits rest in (String c d, r)
      else (EmptyString, s)
  | EmptyString => (EmptyString, EmptyString)
  end.

(** The number pattern of the retry hint, matched at the start of [s]: one or
    more digits, an optional dot, any digits.  The matched text, if any. *)
Definition match_number (s : string) : option string :=
  let '(whole, r) := span_digits s in
  if str_truthy whole then
    match r with
    | String "."%char r' => Some (whole +:+ "." +:+ fst (span_digits r'))
    | _ => Some whole
    end
  else None.

(** [re.search] for the words [retry in], one blank and the number pattern:
    group 1 of the leftmost match. *)
Fixpoint search_retry_in (s : string) : option string :=
  let here :=
    if String.prefix "retry in " s
    then match_number (String.substring 9 (String.length s - 9) s)
    else None in
  match here with
  | Some g => Some g
  | None =>
      match s with
      | EmptyString => None
      | String _ rest => search_retry_in rest
      end
  end.

(** ** Python lists *)

(** [l[:n]], negative [n] counting from the end. *)
Definition py_take {A} (n : Z) (l : list A) : list A :=
  if 0 <=? n then firstn (Z.to_nat n) l
  else firstn (length l - Z.to_nat (- n)) l.

(** [l[n:]], negative [n] counting from the end. *)
Definition py_drop {A} (n : Z) (l : list A) : list A :=
  if 0 <=? n then skipn (Z.to_nat n) l
  else skipn (length l - Z.to_nat (- n)) l.

(** [len(l)]. *)
Definition len {A} (l : list A) : Z := Z.of_nat (length l).

(** ** Exceptions and results *)

(** The classes the code tells apart; all derive from [Exception]. *)
Inductive exn_class := ValueError | KeyError | IndexError | OtherException.

(** A raised exception with [str(e)]. *)
Record exn := Exn { exn_cls : exn_class; exn_str : string }.

Inductive result (A : Type) :=
| Ok (a : A)
| Raise (e : exn).
Arguments Ok {A} a.
Arguments Raise {A} e.

Definition exn_class_eqb (a b : exn_class) : bool :=
  match a, b with
  | ValueError, ValueError | KeyError, KeyError
  | IndexError, IndexError | OtherException, OtherException => true
  | _, _ => false
  end.

(** ** Data model *)

(** A playlist descriptor, as [process_playlist] builds and caches it:
    the keys [url], [title], [duration]. *)
Record video := Video { v_url : string; v_title : string; v_duration : Z }.

(** A schedule descriptor, as [_fetch_talk_detail] returns it. *)
Record talk := Talk {
  t_title : string;
  t_sched_link : string;
  t_youtube_url : string;
  t_description : string;
  t_event_type : option string;
  t_deck_url : option string
}.

(** A talk record of the output mapping; the optional keys are absent when
    [None]. *)
Record talk_record := TalkRecord {
  r_index : Z;
  r_title : string;
  r_summary : string;
  r_speakers : option string;
  r_sched_link : option string;
  r_event_type : option string;
  r_deck_url : option string
}.

(** The output mapping [Dict[str, Dict]], in insertion order. *)
Definition output := list (string * talk_record).

(** [d[k] = v]: an existing key keeps its place and takes the new value, a
    new key goes last. *)
Fixpoint dict_set (d : output) (k : string) (v : talk_record) : output :=
  match d with
  | [] => [(k, v)]
  | (k', v') :: rest =>
      if String.eqb k' k then (k', v) :: rest else (k', v') :: dict_set rest k v
  end.

Fixpoint dict_get (d : output) (k : string) : option talk_record :=
  match d with
  | [] => None
  | (k', v') :: rest => if String.eqb k' k then Some v' else dict_get rest k
  end.

(** ** Summarizers ([summarizers.py]) *)

Inductive backend := Anthropic | OpenAI | Gemini | Ollama.

(** [summarizer.__class__.__name__]. *)
Definition class_name (b : backend) : string :=
  match b with
  | Anthropic => "AnthropicSummarizer"
  | OpenAI => "OpenAISummarizer"
  | Gemini => "GeminiSummarizer"
  | Ollama => "OllamaSummarizer"
  end.

(** The attribute [model]: the model name, except for [GeminiSummarizer],
    which stores the client object [genai.GenerativeModel(model)]. *)
Inductive model_attr :=
| ModelName (name : string)
| GenerativeModel (name : string).

(** Truth value of the attribute: an object without [__bool__] is true. *)
Definition model_truthy (m : model_attr) : bool :=
  match m with ModelName s => str_truthy s | GenerativeModel _ => true end.

(** A summarizer instance.  [_lock] says whether the instance owns an
    [asyncio.Lock] (only [OllamaSummarizer] ever does). *)
Record Summarizer := {
  cls : backend;
  model : model_attr;
  summary_length : Z;
  _lock : bool
}.

(** The prompt a [summarize] method sends: the template of its class filled
    with the target length, the title and [text[:50000]]. *)
Record prompt := Prompt {
  p_template : backend;
  p_summary_length : Z;
  p_title : string;
  p_transcript : string
}.

Definition build_prompt (s : Summarizer) (text title : string) : prompt :=
  Prompt (cls s) (summary_length s) title (str_prefix 50000 text).

(** What [asyncio.sleep] is given: an [int] number of seconds, or the
    [float] read from a numeral. *)
Inductive delay :=
| Seconds (n : Z)
| FloatOf (numeral : string).

(** ** The world *)

(** The payload of a JSON cache record as [json.load] returns it. *)
Inductive json_doc :=
| JVideos (l : list video)
| JTalks (l : list talk)
| JCorrupt.

(** External interactions, oldest first. *)
Inductive event :=
| EvSleep (d : delay)
| EvTranscript (video_id : string)
| EvChat (s : Summarizer) (p : prompt)
| EvExtractInfo (playlist_url : string)
| EvSchedIndex (sched_url : string)
| EvTalkDetail (sched_link : string).

(** Text records ([.txt]) and JSON records ([.json]) by path, and the trace. *)
Record world := World {
  text_files : gmap string string;
  json_files : gmap string json_doc;
  trace : list event
}.

(** The moment of the next interaction. *)
Definition now (w : world) : nat := length (trace w).

(** ** The environment of a run *)

Record url_parts := UrlParts {
  scheme : string;
  netloc : string;
  hostname : option string;
  path : string;
  query : string
}.

(** An entry of [playlist_info['entries']]: [entry.get('id')], and the keys
    [title] and [duration] when present (with a value other than [None]). *)
Record entry := Entry {
  e_id : option string;
  e_title : option string;
  e_duration : option Z
}.

Record env := Env {
  (** [Path.home()] *)
  home : string;
  (** [os.environ.get] *)
  getenv : string -> option string;
  (** [hashlib.md5(s.encode()).hexdigest()] *)
  md5_hexdigest : string -> string;
  (** [str(genai.GenerativeModel(name))] *)
  genai_str : string -> string;
  urlparse : string -> url_parts;
  parse_qs : string -> gmap string (list string);
  (** [api.fetch(video_id, languages=['en'])] through the given proxy
      credentials, as the list of [entry.text] *)
  transcript_fetch : nat -> option (string * string) -> string -> result (list string);
  (** The chat call of the three remote backends, with the reply text
      taken out of the response *)
  chat_completion : nat -> Summarizer -> prompt -> result string;
  (** [POST /api/chat] of the local server, [raise_for_status], the JSON
      body: the [content] of its [message] when that is a [str] *)
  ollama_chat : nat -> Summarizer -> prompt -> result (option string);
  (** [ydl.extract_info(playlist_url, download=False)]: its [entries], if the
      key is there; a [None] entry is a falsy one *)
  extract_info : nat -> string -> result (option (list (option entry)));
  (** The listing page of a schedule, fetched and reduced to the absolute
      links of its event items *)
  sched_index : nat -> string -> result (list string);
  (** [_fetch_talk_detail(sched_link)] *)
  fetch_talk_detail : nat -> string -> option talk
}.

(** ** The monad of effectful code *)

Definition M (A : Type) : Type := world -> result A * world.

Definition ret {A} (a : A) : M A := fun w => (Ok a, w).

Definition raise {A} (e : exn) : M A := fun w => (Raise e, w).

Definition bind {A B} (m : M A) (k : A -> M B) : M B :=
  fun w =>
    match m w with
    | (Ok a, w') => k a w'
    | (Raise e, w') => (Raise e, w')
    end.

Definition lift {A} (r : result A) : M A := fun w => (r, w).

(** [try: body except Exception as e: handler]. *)
Definition try_except {A} (body : M A) (handler : exn -> M A) : M A :=
  fun w =>
    match body w with
    | (Raise e, w') => handler e w'
    | r => r
    end.

(** [try: body except c as e: handler]: other classes propagate. *)
Definition try_except_class {A} (c : exn_class) (body : M A) (handler : exn -> M A) : M A :=
  fun w =>
    match body w with
    | (Raise e, w') => if exn_class_eqb (exn_cls e) c then handler e w' else (Raise e, w')
    | r => r
    end.

Notation "x <- m ;; k" := (bind m (fun x => k))
  (at level 100, m at next level, right associativity).
Notation "m ;;; k" := (bind m (fun _ => k))
  (at level 100, right associativity).

(** Record an interaction and tell its moment. *)
Definition interact (ev : event) : M nat :=
  fun w => (Ok (now w), World (text_files w) (json_files w) (trace w ++ [ev])).

(** [await asyncio.sleep(d)]. *)
Definition sleep_for (d : delay) : M unit := _ <- interact (EvSleep d) ;; ret tt.

(** [if sleep and sleep > 0: await asyncio.sleep(sleep)]. *)
Definition courtesy_sleep (sleep : Z) : M unit :=
  if 0 <? sleep then sleep_for (Seconds sleep) else ret tt.

(** [p.read_text] of a file that exists and [p.write_text], in UTF-8, for
    a text without carriage return. *)
Definition read_text (p : string) : M (option string) :=
  fun w => (Ok (text_files w !! p), w).

Definition write_text (p data : string) : M unit :=
  fun w => (Ok tt, World (<[p := data]> (text_files w)) (json_files w) (trace w)).

Definition read_json (p : string) : M (option json_doc) :=
  fun w => (Ok (json_files w !! p), w).

Definition write_json (p : string) (doc : json_doc) : M unit :=
  fun w => (Ok tt, World (text_files w) (<[p := doc]> (json_files w)) (trace w)).

(** ** Coroutines

    The code of an [async def] whose invocations can overlap: it runs until
    it returns or raises, or until an [await] suspends it.

    - [CoDone r]: the coroutine returns, or raises.
    - [CoAwait ev k]: an [await] of an external interaction.  The request
      [ev] goes out at a moment [t], the coroutine is suspended until the
      answer is there, and goes on as [k t].
    - [CoAcquire k]: [await lock.acquire()] on the lock of the instance.
      The coroutine takes a free lock and goes on as [k] at once; while the
      lock is held it is suspended.
    - [CoRelease k]: [lock.release()], then [k]. *)
Inductive co (A : Type) :=
| CoDone (r : result A)
| CoAwait (ev : event) (k : nat -> co A)
| CoAcquire (k : co A)
| CoRelease (k : co A).
Arguments CoDone {A} r.
Arguments CoAwait {A} ev k.
Arguments CoAcquire {A} k.
Arguments CoRelease {A} k.

(** [c], then [f] on what [c] returned or raised. *)
Fixpoint co_then {A B} (c : co A) (f : result A -> co B) : co B :=
  match c with
  | CoDone r => f r
  | CoAwait ev k => CoAwait ev (fun t => co_then (k t) f)
  | CoAcquire k => CoAcquire (co_then k f)
  | CoRelease k => CoRelease (co_then k f)
  end.

Definition co_ret {A} (a : A) : co A := CoDone (Ok a).

Definition co_lift {A} (r : result A) : co A := CoDone r.

Definition co_bind {A B} (c : co A) (k : A -> co B) : co B :=
  co_then c (fun r => match r with Ok a => k a | Raise e => CoDone (Raise e) end).

(** [try: body except Exception as e: handler]. *)
Definition co_try {A} (body : co A) (handler : exn -> co A) : co A :=
  co_then body (fun r => match r with Ok a => CoDone (Ok a) | Raise e => handler e end).

(** An awaited interaction: its moment. *)
Definition co_interact (ev : event) : co nat := CoAwait ev (fun t => CoDone (Ok t)).

(** [async with lock: body]: the lock is acquired on entry and released on
    exit, whether [body] returns or raises. *)
Definition async_with_lock {A} (body : co A) : co A :=
  CoAcquire (co_then body (fun r => CoRelease (CoDone r))).

(** A coroutine awaited while no other invocation runs: it finds the lock
    free and leaves it free, and each interaction is answered before the
    next step. *)
Fixpoint run_alone {A} (c : co A) : M A :=
  match c with
  | CoDone r => lift r
  | CoAwait ev k => t <- interact ev ;; run_alone (k t)
  | CoAcquire k => run_alone k
  | CoRelease k => run_alone k
  end.

Section Pipeline.

Context (E : env).

(** *** [summarizers.py] *)

Definition error_sentinel : string := "Summary unavailable due to an error.".
Definition rate_limit_sentinel : string := "Summary unavailable - rate limit exceeded.".
Definition format_sentinel : string := "Summary unavailable: unexpected Ollama response format.".

(** [AnthropicSummarizer.__init__]. *)
Definition AnthropicSummarizer_init (api_key : option string) (model : string)
    (summary_length : Z) : result Summarizer :=
  let api_key := if opt_truthy api_key then api_key else getenv E "ANTHROPIC_API_KEY" in
  if opt_truthy api_key
  then Ok {| cls := Anthropic; model := ModelName model;
             summary_length := summary_length; _lock := false |}
  else Raise (Exn ValueError
                "Anthropic API key required. Set ANTHROPIC_API_KEY environment variable.").

(** [OpenAISummarizer.__init__]. *)
Definition OpenAISummarizer_init (api_key : option string) (model : string)
    (summary_length : Z) : result Summarizer :=
  let api_key := if opt_truthy api_key then api_key else getenv E "OPENAI_API_KEY" in
  if opt_truthy api_key
  then Ok {| cls := OpenAI; model := ModelName model;
             summary_length := summary_length; _lock := false |}
  else Raise (Exn ValueError
                "OpenAI API key required. Set OPENAI_API_KEY environment variable.").

(** [GeminiSummarizer.__init__]. *)
Definition GeminiSummarizer_init (api_key : option string) (model : string)
    (summary_length : Z) : result Summarizer :=
  let api_key := if opt_truthy api_key then api_key else getenv E "GOOGLE_API_KEY" in
  if opt_truthy api_key
  then Ok {| cls := Gemini; model := GenerativeModel model;
             summary_length := summary_length; _lock := false |}
  else Raise (Exn ValueError
                "Google API key required. Set GOOGLE_API_KEY environment variable.").

(** [os.environ.get("OLLAMA_SEQUENTIAL", "").lower() in ("1", "true", "yes")]. *)
Definition env_seq : bool :=
  let v := lower (default "" (getenv E "OLLAMA_SEQUENTIAL")) in
  String.eqb v "1" || String.eqb v "true" || String.eqb v "yes".

(** [OllamaSummarizer.__init__]: the lock exists exactly in sequential mode.
    The server at [base_url] is the [ollama_chat] of the environment. *)
Definition OllamaSummarizer_init (model : string) (sequential : bool)
    (summary_length : Z) : Summarizer :=
  let _sequential := sequential || env_seq in
  {| cls := Ollama; model := ModelName model;
     summary_length := summary_length; _lock := _sequential |}.

(** The keyword arguments the package passes to [get_summarizer]: [model]
    and [summary_length], each given or not.  Calls with other keywords
    ([api_key], [base_url], [sequential], or one that the constructor does
    not take) are outside this model. *)
Record kwargs := { kw_model : option string; kw_summary_length : option Z }.

Definition no_kwargs : kwargs := {| kw_model := None; kw_summary_length := None |}.

(** [get_summarizer(strategy, **kwargs)], for these keyword arguments: the
    constructors get their defaults for the others. *)
Definition get_summarizer (strategy : string) (kw : kwargs) : result Summarizer :=
  let target := default 800 (kw_summary_length kw) in
  if String.eqb strategy "openai"
  then OpenAISummarizer_init None (default "gpt-4o-mini" (kw_model kw)) target
  else if String.eqb strategy "gemini"
  then GeminiSummarizer_init None (default "gemini-2.0-flash-exp" (kw_model kw)) target
  else if String.eqb strategy "anthropic"
  then AnthropicSummarizer_init None (default "claude-3-5-haiku-20241022" (kw_model kw)) target
  else if String.eqb strategy "ollama"
  then Ok (OllamaSummarizer_init (default "granite3.3:2b" (kw_model kw)) true target)
  else Raise (Exn ValueError
                ("Unknown strategy: " +:+ strategy
                 +:+ ". Choose from: ['openai', 'gemini', 'anthropic', 'ollama']")).

(** One call of a remote chat backend. *)
Definition chat (s : Summarizer) (p : prompt) : M string :=
  t <- interact (EvChat s p) ;; lift (chat_completion E t s p).

(** [AnthropicSummarizer.summarize]. *)
Definition anthropic_summarize (s : Summarizer) (text title : string) : M string :=
  let prompt := build_prompt s text title in
  try_except (chat s prompt) (fun _ => ret error_sentinel).

(** [OpenAISummarizer.summarize]. *)
Definition openai_summarize (s : Summarizer) (text title : string) : M string :=
  let prompt := build_prompt s text title in
  try_except (chat s prompt) (fun _ => ret error_sentinel).

Definition max_retries : Z := 3.
Definition base_delay : Z := 2.

(** The test the Gemini variant applies to [str(e)]. *)
Definition is_rate_limit (error_str : string) : bool :=
  contains "429" error_str || contains "quota" (lower error_str)
  || contains "rate" (lower error_str).

(** The delay before the retry that follows attempt [attempt]. *)
Definition retry_delay (attempt : Z) (error_str : string) : delay :=
  let backoff := Seconds (base_delay * 2 ^ attempt) in
  if contains "retry in" (lower error_str) then
    match search_retry_in (lower error_str) with
    | Some numeral => FloatOf numeral
    | None => backoff
    end
  else backoff.

(** The loop [for attempt in range(max_retries)] of
    [GeminiSummarizer.summarize]; [inr tt] is [continue]. *)
Fixpoint gemini_attempts (s : Summarizer) (p : prompt) (attempts : list Z) : M string :=
  match attempts with
  | [] => ret rate_limit_sentinel
  | attempt :: rest =>
      step <- try_except
                (text <- chat s p ;; ret (inl text))
                (fun e =>
                   let error_str := exn_str e in
                   if is_rate_limit error_str && (attempt <? max_retries - 1)
                   then sleep_for (retry_delay attempt error_str) ;;; ret (inr tt)
                   else ret (inl error_sentinel)) ;;
      match step with
      | inl r => ret r
      | inr _ => gemini_attempts s p rest
      end
  end.

(** [range(n)]. *)
Definition range (n : Z) : list Z := map Z.of_nat (seq 0 (Z.to_nat n)).

(** [GeminiSummarizer.summarize]. *)
Definition gemini_summarize (s : Summarizer) (text title : string) : M string :=
  gemini_attempts s (build_prompt s text title) (range max_retries).

(** [OllamaSummarizer._summarize_once]: the request to the server is
    awaited. *)
Definition ollama_summarize_once (s : Summarizer) (text title : string) : co string :=
  let prompt := build_prompt s text title in
  co_try
    (co_bind (co_interact (EvChat s prompt)) (fun t =>
     co_bind (co_lift (ollama_chat E t s prompt)) (fun content =>
     match content with
     | Some c => if strip_truthy c then co_ret c else co_ret format_sentinel
     | None => co_ret format_sentinel
     end)))
    (fun _ => co_ret error_sentinel).

(** [OllamaSummarizer.summarize]: under the lock of the instance, when it
    has one. *)
Definition ollama_summarize (s : Summarizer) (text title : string) : co string :=
  if _lock s then async_with_lock (ollama_summarize_once s text title)
  else ollama_summarize_once s text title.

(** [await summarizer.summarize(text, title)] in the orchestrators, by the
    class of the instance.  The orchestrators of this model await one
    invocation at a time; overlapping invocations of the Ollama variant are
    run by [Module EventLoop]. *)
Definition summarize (s : Summarizer) (text title : string) : M string :=
  match cls s with
  | Anthropic => anthropic_summarize s text title
  | OpenAI => openai_summarize s text title
  | Gemini => gemini_summarize s text title
  | Ollama => run_alone (ollama_summarize s text title)
  end.

(** *** [core.py]: the cache store *)

Definition get_cache_dir : string := home E +:+ "/.cache/summit".

Definition get_playlist_cache_path (playlist_url : string) : string :=
  get_cache_dir +:+ "/playlist_" +:+ md5_hexdigest E playlist_url +:+ ".json".

(** [load_playlist_cache]: a record that does not load is a miss. *)
Definition load_playlist_cache (playlist_url : string) : M (option (list video)) :=
  doc <- read_json (get_playlist_cache_path playlist_url) ;;
  match doc with
  | Some (JVideos data) => ret (Some data)
  | _ => ret None
  end.

Definition save_playlist_cache (playlist_url : string) (videos : list video) : M unit :=
  write_json (get_playlist_cache_path playlist_url) (JVideos videos).

Definition get_subtitle_cache_path (video_id : string) : string :=
  home E +:+ "/.cache/subtitles/subtitles_" +:+ video_id +:+ ".txt".

Definition load_subtitle_cache (video_id : string) : M (option string) :=
  read_text (get_subtitle_cache_path video_id).

Definition save_subtitle_cache (video_id subtitles : string) : M unit :=
  write_text (get_subtitle_cache_path video_id) subtitles.

Definition str_of_model (m : model_attr) : string :=
  match m with ModelName s => s | GenerativeModel n => genai_str E n end.

(** [_summarizer_cache_key_parts]. *)
Definition _summarizer_cache_key_parts (summarizer : Summarizer) : string :=
  let cls_name := class_name (cls summarizer) in
  let parts := [cls_name] in
  let parts := if model_truthy (model summarizer)
               then (parts ++ [str_of_model (model summarizer)])%list else parts in
  let parts := if negb (summary_length summarizer =? 0)
               then (parts ++ [str_of_int (summary_length summarizer)])%list else parts in
  let raw := str_join "_" parts in
  sanitize raw.

Definition get_summary_cache_path (video_id : string) (summarizer : Summarizer) : string :=
  let key := _summarizer_cache_key_parts summarizer in
  get_cache_dir +:+ "/summaries" +:+ "/summary_" +:+ video_id +:+ "_" +:+ key +:+ ".txt".

Definition load_summary_cache (video_id : string) (summarizer : Summarizer)
    : M (option string) :=
  read_text (get_summary_cache_path video_id summarizer).

Definition save_summary_cache (video_id : string) (summarizer : Summarizer)
    (summary : string) : M unit :=
  write_text (get_summary_cache_path video_id summarizer) summary.

(** *** [core.py]: transcripts *)

(** [extract_video_id]; [KeyError] and [IndexError] come from
    [parse_qs(parsed.query)['v'][0]]. *)
Definition extract_video_id (url : string) : result string :=
  let parsed := urlparse E url in
  if bool_decide (hostname parsed = Some "www.youtube.com")
     || bool_decide (hostname parsed = Some "youtube.com")
  then
    if String.eqb (path parsed) "/watch"
    then
      match parse_qs E (query parsed) !! "v" with
      | None => Raise (Exn KeyError "'v'")
      | Some [] => Raise (Exn IndexError "list index out of range")
      | Some (v :: _) => Ok v
      end
    else Raise (Exn ValueError ("Invalid YouTube URL: " +:+ url))
  else if bool_decide (hostname parsed = Some "youtu.be")
  then Ok (str_tail (path parsed))
  else Raise (Exn ValueError ("Invalid YouTube URL: " +:+ url)).

(** The proxy credentials [YouTubeTranscriptApi] is built with: none
    without [proxy], and none (after a warning) when either variable is
    unset or empty. *)
Definition proxy_config (proxy : bool) : option (string * string) :=
  if proxy then
    let username := getenv E "WEBSHARE_USERNAME" in
    let password := getenv E "WEBSHARE_PASSWORD" in
    if negb (opt_truthy username) || negb (opt_truthy password) then None
    else Some (default "" username, default "" password)
  else None.

(** [_download_subtitles_sync]. *)
Definition _download_subtitles_sync (video_id : string) (proxy : bool) : M (option string) :=
  cached <- load_subtitle_cache video_id ;;
  match cached with
  | Some text => ret (Some text)
  | None =>
      try_except
        (let api := proxy_config proxy in
         t <- interact (EvTranscript video_id) ;;
         transcript <- lift (transcript_fetch E t api video_id) ;;
         let subtitles := str_join " " transcript in
         save_subtitle_cache video_id subtitles ;;;
         ret (Some subtitles))
        (fun _ => ret None)
  end.

(** [download_subtitles]: the synchronous helper, run in the executor. *)
Definition download_subtitles (video_id : string) (proxy : bool) : M (option string) :=
  _download_subtitles_sync video_id proxy.

(** The block both [process_video] and phase 2 of [process_playlist]
    contain: the cached summary when the cache is enabled and has one;
    otherwise a fresh summary, which is saved, when there are subtitles;
    otherwise the empty string. *)
Definition obtain_summary (summarizer : Summarizer) (use_summary_cache : bool)
    (video_id title : string) (subtitles : option string) : M string :=
  summary <- (if use_summary_cache then load_summary_cache video_id summarizer
              else ret None) ;;
  match summary with
  | Some text => ret text
  | None =>
      if opt_truthy subtitles then
        summary <- summarize summarizer (default "" subtitles) title ;;
        save_summary_cache video_id summarizer summary ;;;
        ret summary
      else ret ""
  end.

(** [duration > 0 and duration < 120]: less than two minutes. *)
Definition too_short (duration : Z) : bool := (0 <? duration) && (duration <? 120).

Definition keep_truthy (o : option string) : option string :=
  if opt_truthy o then o else None.

(** [process_video]. *)
Definition process_video (video_url : string) (index : Z) (title : string)
    (summarizer : Summarizer) (duration : Z) (speakers sched_link : option string)
    (use_summary_cache proxy : bool) (sleep : Z) : M (option talk_record) :=
  if too_short duration then ret None
  else
    parsed <- try_except_class ValueError
                (video_id <- lift (extract_video_id video_url) ;; ret (Some video_id))
                (fun _ => ret None) ;;
    match parsed with
    | None => ret None
    | Some video_id =>
        courtesy_sleep sleep ;;;
        subtitles <- download_subtitles video_id proxy ;;
        summary <- obtain_summary summarizer use_summary_cache video_id title subtitles ;;
        ret (Some {| r_index := index; r_title := title; r_summary := summary;
                     r_speakers := keep_truthy speakers;
                     r_sched_link := keep_truthy sched_link;
                     r_event_type := None; r_deck_url := None |})
    end.

(** *** [core.py]: the playlist orchestrator *)

(** The descriptors built from [playlist_info['entries']]. *)
Fixpoint videos_of_entries (entries : list (option entry)) : list video :=
  match entries with
  | [] => []
  | Some e :: rest =>
      if opt_truthy (e_id e) then
        {| v_url := "https://www.youtube.com/watch?v=" +:+ default "" (e_id e);
           v_title := default "Unknown Title" (e_title e);
           v_duration := default 0 (e_duration e) |} :: videos_of_entries rest
      else videos_of_entries rest
  | None :: rest => videos_of_entries rest
  end.

(** The discovery step of [process_playlist]: the descriptors from the
    cache or from the playlist service; [None] where the function returns
    the empty mapping at once. *)
Definition discover_playlist (playlist_url : string) (refresh_cache : bool)
    : M (option (list video)) :=
  videos <- (if refresh_cache then ret None else load_playlist_cache playlist_url) ;;
  match videos with
  | Some videos => ret (Some videos)
  | None =>
      try_except
        (t <- interact (EvExtractInfo playlist_url) ;;
         playlist_info <- lift (extract_info E t playlist_url) ;;
         match playlist_info with
         | None => ret None
         | Some entries =>
             let videos := videos_of_entries entries in
             save_playlist_cache playlist_url videos ;;;
             ret (Some videos)
         end)
        (fun _ => ret None)
  end.

(** [if limit is not None and limit > 0: videos = videos[:limit]]. *)
Definition apply_limit {A} (limit : option Z) (videos : list A) : list A :=
  match limit with
  | Some limit => if 0 <? limit then py_take limit videos else videos
  | None => videos
  end.

(** The [list] parameter of the playlist URL. *)
Definition playlist_id_of (playlist_url : string) : result (option string) :=
  let parsed := urlparse E playlist_url in
  if str_truthy (query parsed) then
    match parse_qs E (query parsed) !! "list" with
    | None => Ok None
    | Some [] => Raise (Exn IndexError "list index out of range")
    | Some (v :: _) => Ok (Some v)
    end
  else Ok None.

(** An item of [prepared]. *)
Record prepared_item := {
  i_index : Z;
  i_video_url : string;
  i_indexed_url : string;
  i_title : string;
  i_duration : Z;
  i_video_id : string;
  i_subtitles : string
}.

Definition indexed_url_of (playlist_id : option string) (idx : Z) (video_url : string)
    : string :=
  if opt_truthy playlist_id
  then video_url +:+ "&list=" +:+ default "" playlist_id +:+ "&index=" +:+ str_of_int idx
  else video_url.

(** The body of the phase 1 loop for the descriptor at position [idx];
    [None] is [continue]. *)
Definition prepare_video (playlist_id : option string) (proxy : bool) (sleep : Z)
    (idx : Z) (video_info : video) : M (option prepared_item) :=
  let video_url := v_url video_info in
  let title := v_title video_info in
  let duration := v_duration video_info in
  if too_short duration then ret None
  else
    let indexed_url := indexed_url_of playlist_id idx video_url in
    parsed <- try_except_class ValueError
                (video_id <- lift (extract_video_id video_url) ;; ret (Some video_id))
                (fun _ => ret None) ;;
    match parsed with
    | None => ret None
    | Some video_id =>
        courtesy_sleep sleep ;;;
        subtitles <- download_subtitles video_id proxy ;;
        let subtitles := if opt_truthy subtitles then default "" subtitles else "" in
        ret (Some {| i_index := idx; i_video_url := video_url;
                     i_indexed_url := indexed_url; i_title := title;
                     i_duration := duration; i_video_id := video_id;
                     i_subtitles := subtitles |})
    end.

(** Phase 1: [for idx, video_info in enumerate(videos, start=idx)]. *)
Fixpoint fetch_subtitles (playlist_id : option string) (proxy : bool) (sleep : Z)
    (idx : Z) (videos : list video) : M (list prepared_item) :=
  match videos with
  | [] => ret []
  | video_info :: rest =>
      item <- prepare_video playlist_id proxy sleep idx video_info ;;
      prepared <- fetch_subtitles playlist_id proxy sleep (idx + 1) rest ;;
      ret (match item with Some i => i :: prepared | None => prepared end)
  end.

(** The body of the phase 2 loop. *)
Definition summarize_item (summarizer : Summarizer) (use_summary_cache : bool)
    (out : output) (item : prepared_item) : M output :=
  summary <- obtain_summary summarizer use_summary_cache (i_video_id item)
               (i_title item) (Some (i_subtitles item)) ;;
  ret (dict_set out (i_indexed_url item)
         {| r_index := i_index item; r_title := i_title item; r_summary := summary;
            r_speakers := None; r_sched_link := None;
            r_event_type := None; r_deck_url := None |}).

(** Phase 2: [for item in prepared]. *)
Fixpoint summarize_prepared (summarizer : Summarizer) (use_summary_cache : bool)
    (out : output) (prepared : list prepared_item) : M output :=
  match prepared with
  | [] => ret out
  | item :: rest =>
      out <- summarize_item summarizer use_summary_cache out item ;;
      summarize_prepared summarizer use_summary_cache out rest
  end.

(** The summarizer a run uses: the given one, or [get_summarizer("anthropic")]. *)
Definition summarizer_or_default (summarizer : option Summarizer) : result Summarizer :=
  match summarizer with
  | Some s => Ok s
  | None => get_summarizer "anthropic" no_kwargs
  end.

(** [process_playlist]. *)
Definition process_playlist (playlist_url : string) (summarizer : option Summarizer)
    (limit : option Z) (refresh_cache use_summary_cache proxy : bool) (sleep : Z)
    : M output :=
  summarizer <- lift (summarizer_or_default summarizer) ;;
  videos <- discover_playlist playlist_url refresh_cache ;;
  match videos with
  | None => ret []
  | Some videos =>
      let videos := apply_limit limit videos in
      playlist_id <- lift (playlist_id_of playlist_url) ;;
      prepared <- fetch_subtitles playlist_id proxy sleep 1 videos ;;
      summarize_prepared summarizer use_summary_cache [] prepared
  end.

(** *** [sched.py] *)

(** [_safe_filename_from_url]. *)
Definition _safe_filename_from_url (url : string) : string :=
  let parsed := urlparse E url in
  let base := scheme parsed +:+ "://" +:+ netloc parsed +:+ path parsed in
  let base := if str_truthy (query parsed) then base +:+ "?" +:+ query parsed else base in
  sanitize base.

Definition get_sched_cache_path (sched_url : string) : string :=
  let filename := _safe_filename_from_url sched_url in
  get_cache_dir +:+ "/sched_" +:+ filename +:+ ".json".

(** [load_sched_cache]: a record that does not load is a miss. *)
Definition load_sched_cache (sched_url : string) : M (option (list talk)) :=
  doc <- read_json (get_sched_cache_path sched_url) ;;
  match doc with
  | Some (JTalks data) => ret (Some data)
  | _ => ret None
  end.

Definition save_sched_cache (sched_url : string) (talks : list talk) : M unit :=
  write_json (get_sched_cache_path sched_url) (JTalks talks).

(** Truth value of an [Optional[int]]. *)
Definition int_truthy (o : option Z) : bool :=
  match o with Some n => negb (n =? 0) | None => false end.

(** The detail-page loop of [scrape_sched_talks_async]. *)
Fixpoint scrape_loop (limit : option Z) (sleep : Z) (current_offset : Z)
    (sched_links : list string) (talks : list talk) : M (list talk) :=
  match sched_links with
  | [] => ret talks
  | link :: rest =>
      if 0 <? current_offset
      then scrape_loop limit sleep (current_offset - 1) rest talks
      else
        t <- interact (EvTalkDetail link) ;;
        let talks := match fetch_talk_detail E t link with
                     | Some talk => (talks ++ [talk])%list
                     | None => talks
                     end in
        if int_truthy limit && (default 0 limit <=? len talks)
        then ret talks
        else courtesy_sleep sleep ;;; scrape_loop limit sleep current_offset rest talks
  end.

(** [scrape_sched_talks_async].  A [Raise] of [sched_index] is a failed
    request for the listing page. *)
Definition scrape_sched_talks_async (sched_url : string) (limit : option Z) (sleep : Z)
    (offset : Z) : M (list talk) :=
  let sched_url :=
    if negb (contains "/list/descriptions" sched_url) then
      let parsed := urlparse E sched_url in
      scheme parsed +:+ "://" +:+ netloc parsed +:+ "/list/descriptions"
    else sched_url in
  page <- try_except
            (t <- interact (EvSchedIndex sched_url) ;;
             sched_links <- lift (sched_index E t sched_url) ;;
             ret (Some sched_links))
            (fun _ => ret None) ;;
  match page with
  | None => ret []
  | Some sched_links =>
      let current_offset := if 0 <? offset then offset else 0 in
      talks <- scrape_loop limit sleep current_offset sched_links [] ;;
      if int_truthy limit && (default 0 limit <? len talks)
      then ret (py_take (default 0 limit) talks)
      else ret talks
  end.

(** The record of a talk when summarization is disabled. *)
Definition description_record (idx : Z) (talk : talk) : talk_record :=
  {| r_index := idx; r_title := t_title talk; r_summary := t_description talk;
     r_speakers := None; r_sched_link := Some (t_sched_link talk);
     r_event_type := keep_truthy (t_event_type talk);
     r_deck_url := keep_truthy (t_deck_url talk) |}.

(** The loop that builds the output from the descriptions. *)
Fixpoint description_output (out : output) (idx : Z) (talks : list talk) : output :=
  match talks with
  | [] => out
  | talk :: rest =>
      description_output (dict_set out (t_youtube_url talk) (description_record idx talk))
        (idx + 1) rest
  end.

(** The tasks of [process_sched_talks], awaited by [asyncio.gather]; they
    are run one after the other, in the order of the list, and the first
    exception a task raises is the exception of the whole. *)
Fixpoint gather_videos (summarizer : Summarizer) (use_summary_cache proxy : bool)
    (sleep : Z) (idx : Z) (talks : list talk) : M (list (option talk_record)) :=
  match talks with
  | [] => ret []
  | talk :: rest =>
      result <- process_video (t_youtube_url talk) idx (t_title talk) summarizer 0
                  None (Some (t_sched_link talk)) use_summary_cache proxy sleep ;;
      results <- gather_videos summarizer use_summary_cache proxy sleep (idx + 1) rest ;;
      ret (result :: results)
  end.

(** [result] with the event type and the deck link of its talk attached. *)
Definition attach (talk : talk) (result : talk_record) : talk_record :=
  {| r_index := r_index result; r_title := r_title result;
     r_summary := r_summary result; r_speakers := r_speakers result;
     r_sched_link := r_sched_link result;
     r_event_type := if opt_truthy (t_event_type talk) then t_event_type talk
                     else r_event_type result;
     r_deck_url := if opt_truthy (t_deck_url talk) then t_deck_url talk
                   else r_deck_url result |}.

(** The loop that builds the output from the results of the tasks. *)
Fixpoint collect_results (out : output) (talks : list talk)
    (results : list (option talk_record)) : output :=
  match talks, results with
  | talk :: talks', result :: results' =>
      collect_results
        (match result with
         | Some r => dict_set out (t_youtube_url talk) (attach talk r)
         | None => out
         end) talks' results'
  | _, _ => out
  end.

(** [fetch_limit]: the limit handed to the scraper. *)
Definition fetch_limit (limit : option Z) : option Z :=
  match limit with
  | Some limit => if 0 <? limit then Some limit else None
  | None => None
  end.

(** The first step of [process_sched_talks]: the cached talks unless a
    refresh is requested, with [used_cache]; else the scraped talks, saved
    when non-empty, not refreshing and without offset. *)
Definition discover_sched (sched_url : string) (limit : option Z) (refresh_cache : bool)
    (offset sleep : Z) : M (list talk * bool) :=
  cached <- (if negb refresh_cache then load_sched_cache sched_url else ret None) ;;
  match cached with
  | Some talks => ret (talks, true)
  | None =>
      talks <- scrape_sched_talks_async sched_url (fetch_limit limit) sleep offset ;;
      (if negb (bool_decide (talks = [])) && negb refresh_cache && (offset =? 0)
       then save_sched_cache sched_url talks else ret tt) ;;;
      ret (talks, false)
  end.

(** The window of [process_sched_talks]: the offset, when the talks come
    from the cache, then the limit. *)
Definition sched_window (limit : option Z) (offset : Z) (used_cache : bool)
    (talks : list talk) : list talk :=
  let talks := if used_cache && (0 <? offset) then py_drop offset talks else talks in
  match limit with
  | Some limit =>
      if (0 <? limit) && (limit <? len talks) then py_take limit talks else talks
  | None => talks
  end.

(** The summarizer [process_sched_talks] works with: the default one is
    built only when summarization is enabled and none is given. *)
Definition sched_summarizer (summarizer : option Summarizer) (summarize : bool)
    : result (option Summarizer) :=
  if summarize then
    match summarizer_or_default summarizer with
    | Ok s => Ok (Some s)
    | Raise e => Raise e
    end
  else Ok summarizer.

(** The second half of [process_sched_talks]: the output for the talks of
    the window, from their descriptions or from the summarization tasks.
    With summarization enabled the summarizer is never [None]. *)
Definition build_sched_output (summarizer : option Summarizer) (summarize : bool)
    (sleep : Z) (use_summary_cache proxy : bool) (talks : list talk) : M output :=
  if negb summarize then ret (description_output [] 1 talks)
  else
    match summarizer with
    | Some summarizer =>
        results <- gather_videos summarizer use_summary_cache proxy sleep 1 talks ;;
        ret (collect_results [] talks results)
    | None => raise (Exn OtherException "no summarizer")
    end.

(** [process_sched_talks]. *)
Definition process_sched_talks (sched_url : string) (summarizer : option Summarizer)
    (limit : option Z) (refresh_cache summarize : bool) (offset sleep : Z)
    (use_summary_cache proxy : bool) : M output :=
  summarizer <- lift (sched_summarizer summarizer summarize) ;;
  found <- discover_sched sched_url limit refresh_cache offset sleep ;;
  let '(talks, used_cache) := found in
  if bool_decide (talks = []) then ret []
  else
    let talks := sched_window limit offset used_cache talks in
    build_sched_output summarizer summarize sleep use_summary_cache proxy talks.

End Pipeline.

(** ** Overlapping invocations of [OllamaSummarizer.summarize]

    Several invocations on one instance, as tasks of one event loop.  The
    loop resumes one task at a time, in any order; a resumed task runs to
    its next suspension.  The tasks share the lock of the instance. *)
Module EventLoop.

(** Where a task stands: created and not yet started; suspended in an
    awaited interaction, to go on as [c] with the answer; suspended in
    [lock.acquire()], to go on as [c] with the lock; returned or raised. *)
Inductive task (A : Type) :=
| Ready (c : co A)
| InFlight (c : co A)
| Blocked (c : co A)
| Finished (r : result A).
Arguments Ready {A} c.
Arguments InFlight {A} c.
Arguments Blocked {A} c.
Arguments Finished {A} r.

Record state := State { locked : bool; world_of : world; tasks : list (task string) }.

(** [c] runs to its next suspension, from a lock that is held or not and a
    world: what the task becomes, the lock and the world. *)
Fixpoint advance {A} (c : co A) (held : bool) (w : world) : task A * bool * world :=
  match c with
  | CoDone r => (Finished r, held, w)
  | CoAwait ev k =>
      (InFlight (k (now w)), held,
       World (text_files w) (json_files w) (trace w ++ [ev]))
  | CoAcquire k => if held then (Blocked k, held, w) else advance k true w
  | CoRelease k => advance k false w
  end.

(** The state with task [i] replaced and the lock and world it left. *)
Definition settle (i : nat) (st : state) (r : task string * bool * world) : state :=
  State (snd (fst r)) (snd r) (<[i := fst (fst r)]> (tasks st)).

(** Task [i] is resumed.  A task suspended in an interaction goes on with
    the answer; a task suspended in [acquire] goes on when the lock is
    free, and takes it; a task that cannot move (the lock is held, or the
    task is over) stays. *)
Definition resume (i : nat) (st : state) : state :=
  match tasks st !! i with
  | Some (Ready c) => settle i st (advance c (locked st) (world_of st))
  | Some (InFlight c) => settle i st (advance c (locked st) (world_of st))
  | Some (Blocked c) =>
      if locked st then st else settle i st (advance c true (world_of st))
  | _ => st
  end.

(** A schedule: the tasks in the order the loop resumes them. *)
Definition run (schedule : list nat) (st : state) : state :=
  fold_left (fun st i => resume i st) schedule st.

(** One [summarize(text, title)] invocation on the instance [s] for each
    call, none started; the lock is free. *)
Definition init (E : env) (s : Summarizer) (calls : list (string * string)) (w : world)
    : state :=
  State false w (map (fun call => Ready (ollama_summarize E s (fst call) (snd call))) calls).

(** What a task counts for among the requests in flight, and among the
    invocations that are over. *)
Definition in_flight_weight {A} (t : task A) : nat :=
  match t with InFlight _ => 1 | _ => 0 end.

Definition finished_weight {A} (t : task A) : nat :=
  match t with Finished _ => 1 | _ => 0 end.

Fixpoint weigh {A} (f : A -> nat) (l : list A) : nat :=
  match l with
  | [] => 0
  | x :: rest => f x + weigh f rest
  end.

(** The number of requests in flight, and of invocations that are over. *)
Definition in_flight (st : state) : nat := weigh in_flight_weight (tasks st).

Definition finished (st : state) : nat := weigh finished_weight (tasks st).

(** A coroutine that, resumed, returns at once and leaves the lock free:
    the rest of an invocation whose request is in flight. *)
Definition finishing (c : co string) : Prop :=
  forall held w, exists r, advance c held w = (Finished (Ok r), false, w).

(** A coroutine that, resumed with the lock, sends the request of the
    instance and is then in flight: the rest of an invocation suspended in
    [acquire]. *)
Definition entering (s : Summarizer) (c : co string) : Prop :=
  forall w, exists c' p,
    advance c true w = (InFlight c', true, World (text_files w) (json_files w)
                                             (trace w ++ [EvChat s p])) /\
    finishing c'.

(** Where an invocation of [summarize] on [s] can stand, in sequential
    mode. *)
Definition task_ok (E : env) (s : Summarizer) (t : task string) : Prop :=
  match t with
  | Ready c => exists text title, c = ollama_summarize E s text title
  | Blocked c => entering s c
  | InFlight c => finishing c
  | Finished _ => True
  end.

(** What holds of every state of the loop, in sequential mode: the lock is
    held exactly while one request is in flight, and the requests sent
    since [w0] are those in flight and those of the invocations that are
    over. *)
Definition loop_invariant (E : env) (s : Summarizer) (w0 : world) (st : state) : Prop :=
  Forall (task_ok E s) (tasks st) /\
  in_flight st = (if locked st then 1%nat else 0%nat) /\
  exists evs, world_of st = World (text_files w0) (json_files w0) (trace w0 ++ evs) /\
              length evs = (finished st + in_flight st)%nat /\
              Forall (fun ev => exists p, ev = EvChat s p) evs.

End EventLoop.

(** ** Concrete environments, to run the pipeline on examples *)
Module Sample.

(** A parser for the three URL shapes of the examples. *)
Definition sample_urlparse (url : string) : url_parts :=
  if String.prefix "https://www.youtube.com/watch?" url then
    UrlParts "https" "www.youtube.com" (Some "www.youtube.com") "/watch"
      (String.substring 30 (String.length url - 30) url)
  else if String.prefix "https://www.youtube.com/playlist?" url then
    UrlParts "https" "www.youtube.com" (Some "www.youtube.com") "/playlist"
      (String.substring 33 (String.length url - 33) url)
  else if String.prefix "https://kccnc.sched.com" url then
    UrlParts "https" "kccnc.sched.com" (Some "kccnc.sched.com")
      (String.substring 23 (String.length url - 23) url) ""
  else UrlParts "" "" None url "".

(** A query parser for a single [v=...] or [list=...] parameter. *)
Definition sample_parse_qs (q : string) : gmap string (list string) :=
  if String.prefix "v=" q then {[ "v" := [String.substring 2 (String.length q - 2) q] ]}
  else if String.prefix "list=" q
  then {[ "list" := [String.substring 5 (String.length q - 5) q] ]}
  else ∅.

(** An environment with the given services; no environment variable is
    set, and the digest of the examples is the sanitized text. *)
Definition sample_env
    (transcripts : nat -> option (string * string) -> string -> result (list string))
    (chats : nat -> Summarizer -> prompt -> result string)
    (info : nat -> string -> result (option (list (option entry))))
    (index : nat -> string -> result (list string))
    (detail : nat -> string -> option talk) : env :=
  {| home := "/home/u";
     getenv := fun _ => None;
     md5_hexdigest := fun s => sanitize s;
     genai_str := fun name => name;
     urlparse := sample_urlparse;
     parse_qs := sample_parse_qs;
     transcript_fetch := transcripts;
     chat_completion := chats;
     ollama_chat := fun t s p => match chats t s p with
                                 | Ok text => Ok (Some text)
                                 | Raise e => Raise e
                                 end;
     extract_info := info;
     sched_index := index;
     fetch_talk_detail := detail |}.

Definition failure (msg : string) : exn := Exn OtherException msg.

(** Services that are down. *)
Definition no_transcripts : nat -> option (string * string) -> string -> result (list string) :=
  fun _ _ _ => Raise (failure "no transcript").
Definition no_chat : nat -> Summarizer -> prompt -> result string :=
  fun _ _ _ => Raise (failure "backend down").
Definition no_info : nat -> string -> result (option (list (option entry))) :=
  fun _ _ => Raise (failure "no playlist").
Definition no_index : nat -> string -> result (list string) :=
  fun _ _ => Raise (failure "no schedule").
Definition no_detail : nat -> string -> option talk := fun _ _ => None.

(** Every service is down. *)
Definition offline : env := sample_env no_transcripts no_chat no_info no_index no_detail.

Definition empty_world : world := World ∅ ∅ [].

Definition ollama (model : string) (target : Z) : Summarizer :=
  {| cls := Ollama; model := ModelName model; summary_length := target; _lock := true |}.

Definition anthropic (model : string) (target : Z) : Summarizer :=
  {| cls := Anthropic; model := ModelName model; summary_length := target; _lock := false |}.


(** A cached schedule of two talks. *)
Definition sched_url : string := "https://kccnc.sched.com/list/descriptions".

Definition talk1 : talk :=
  {| t_title := "Opening Keynote - A. Speaker";
     t_sched_link := "https://kccnc.sched.com/event/1";
     t_youtube_url := "https://www.youtube.com/watch?v=aaa";
     t_description := "Welcome.";
     t_event_type := Some "Keynote";
     t_deck_url := None |}.

Definition talk2 : talk :=
  {| t_title := "eBPF Deep Dive - B. Speaker";
     t_sched_link := "https://kccnc.sched.com/event/2";
     t_youtube_url := "https://www.youtube.com/watch?v=bbb";
     t_description := "All about eBPF.";
     t_event_type := None;
     t_deck_url := Some "https://static.sched.com/deck.pdf" |}.

Definition sched_cached (talks : list talk) : world :=
  World ∅ {[ get_sched_cache_path offline sched_url := JTalks talks ]} [].

(** A schedule whose listing page links one event, the second talk. *)
Definition one_event : env :=
  sample_env no_transcripts no_chat no_info
    (fun _ _ => Ok ["https://kccnc.sched.com/event/2"]) (fun _ _ => Some talk2).

(** A cached playlist of three videos, the second one a minute long. *)
Definition playlist_url : string := "https://www.youtube.com/playlist?list=PL1".

Definition video_a : video := Video "https://www.youtube.com/watch?v=aaa" "Talk A" 0.
Definition video_s : video := Video "https://www.youtube.com/watch?v=sss" "Teaser" 60.
Definition video_b : video := Video "https://www.youtube.com/watch?v=bbb" "Talk B" 600.

Definition playlist_cached : world :=
  World ∅ {[ get_playlist_cache_path offline playlist_url
             := JVideos [video_a; video_s; video_b] ]} [].

Definition blank_record (index : Z) (title : string) : talk_record :=
  {| r_index := index; r_title := title; r_summary := "";
     r_speakers := None; r_sched_link := None; r_event_type := None;
     r_deck_url := None |}.

(** A playlist service that lists two videos and an empty entry. *)
Definition two_entries : list (option entry) :=
  [Some (Entry (Some "aaa") (Some "Talk A") (Some 600)); None;
   Some (Entry (Some "bbb") None None)].

Definition listing : env :=
  sample_env no_transcripts no_chat (fun _ _ => Ok (Some two_entries)) no_index no_detail.

(** A transcript service that answers with two segments. *)
Definition captioned : env :=
  sample_env (fun _ _ _ => Ok ["hello"; "world"]) no_chat no_info no_index no_detail.


End Sample.

(** ** Vocabulary of the statements *)

(** [l[k:j]] for [0 <= k <= j]. *)
Definition slice {A} (k j : Z) (l : list A) : list A :=
  firstn (Z.to_nat (j - k)) (skipn (Z.to_nat k) l).

(** The order index of the descriptor at position [i] (from 0) of a
    discovered list: its rank in discovery order, from 1. *)
Definition order_index (i : nat) : Z := Z.of_nat i + 1.

(** The world after the interactions [evs], the files untouched. *)
Definition after (w : world) (evs : list event) : world :=
  World (text_files w) (json_files w) (trace w ++ evs).

(** The number of backend calls among [evs]. *)
Fixpoint chat_count (evs : list event) : nat :=
  match evs with
  | [] => 0
  | EvChat _ _ :: rest => S (chat_count rest)
  | _ :: rest => chat_count rest
  end.

(** The delays slept among [evs], in order. *)
Fixpoint sleeps (evs : list event) : list delay :=
  match evs with
  | [] => []
  | EvSleep d :: rest => d :: sleeps rest
  | _ :: rest => sleeps rest
  end.

(** A computation that returns on every world. *)
Definition never_raises {A} (m : M A) : Prop :=
  forall w, exists a w', m w = (Ok a, w').

(** A computation whose only effect is a sequence of interactions. *)
Definition only_interacts {A} (m : M A) : Prop :=
  forall w, exists evs, snd (m w) = after w evs.





(** A computation that leaves the JSON records as they are. *)
Definition keeps_json {A} (m : M A) : Prop :=
  forall w, json_files (snd (m w)) = json_files w.

(** A text without carriage return: read back from a file in text mode, it
    is the text that was written. *)
Definition no_carriage_return (s : string) : Prop :=
  forallb (fun c => negb (code c =? 13)%N) (chars s) = true.

(** A text of ASCII characters: its length in characters is its length in
    bytes, and its white space is the ASCII one. *)
Definition is_ascii (s : string) : Prop :=
  forallb (fun c => (code c <? 128)%N) (chars s) = true.


(** What [_summarize_once] returns for the answer of the server. *)
Definition ollama_reply (answer : result (option string)) : string :=
  match answer with
  | Ok (Some c) => if strip_truthy c then c else format_sentinel
  | Ok None => format_sentinel
  | Raise _ => error_sentinel
  end.

(** ** Rendering ([render.py]) *)

(** The line feed. *)
Definition LF : string := String (ascii_of_nat 10) EmptyString.

(** [len(s)], for a text of ASCII characters. *)
Definition str_len (s : string) : Z := Z.of_nat (String.length s).

(** [sorted(data.items(), key=lambda x: x[1]["index"])]: the items in
    increasing order of index; the sort is stable, items of equal index
    keep their order. *)
Fixpoint insert_item (x : string * talk_record) (l : output) : output :=
  match l with
  | [] => [x]
  | y :: rest =>
      if r_index (snd x) <=? r_index (snd y) then x :: y :: rest
      else y :: insert_item x rest
  end.

Fixpoint sorted_items (data : output) : output :=
  match data with
  | [] => []
  | x :: rest => insert_item x (sorted_items rest)
  end.

(** The links appended to the line of a talk that has a schedule link:
    the deck, when there is one, and the event type, when there is one. *)
Definition deck_and_type (info : talk_record) (line : string) : string :=
  let line :=
    if opt_truthy (r_deck_url info)
    then line +:+ " | [Deck](" +:+ default "" (r_deck_url info) +:+ ")" else line in
  if opt_truthy (r_event_type info)
  then line +:+ " | " +:+ default "" (r_event_type info) else line.

(** The section of one talk in [render_markdown]. *)
Definition markdown_section (url : string) (info : talk_record) : string :=
  let lines := ["## " +:+ r_title info] in
  let lines :=
    match r_sched_link info with
    | Some sched_link =>
        let line := LF +:+ LF +:+ "[Event](" +:+ sched_link +:+ ") | [Youtube]("
                    +:+ url +:+ ")" in
        (lines ++ [deck_and_type info line])%list
    | None => lines
    end in
  let lines := (lines ++ [LF +:+ LF +:+ r_summary info])%list in
  let lines := (lines ++ [LF +:+ LF +:+ "---"])%list in
  str_join "" lines.

(** The title block both renderers open with. *)
Definition title_block (title : string) : string :=
  "# " +:+ title +:+ LF +:+ LF +:+ "---" +:+ LF +:+ LF.

(** [render_markdown]. *)
Definition render_markdown (data : output) (title : string) : string :=
  let sorted_items := sorted_items data in
  let markdown_parts := if str_truthy title then [title_block title] else [] in
  let markdown_parts :=
    (markdown_parts ++ map (fun item => markdown_section (fst item) (snd item))
                         sorted_items)%list in
  str_join (LF +:+ LF) markdown_parts.

(** [s.lstrip()], [s.rstrip()] and [s.strip()], for the white space of
    ASCII. *)
Fixpoint lstrip (s : string) : string :=
  match s with
  | EmptyString => EmptyString
  | String c rest => if is_space c then lstrip rest else s
  end.

Fixpoint rstrip (s : string) : string :=
  match s with
  | EmptyString => EmptyString
  | String c rest =>
      let rest := rstrip rest in
      if is_space c && negb (str_truthy rest) then EmptyString else String c rest
  end.

Definition strip (s : string) : string := rstrip (lstrip s).

Definition is_lf (c : ascii) : bool := (code c =? 10)%N.

(** [s.split('\n\n')]: the text between the occurrences of a blank line,
    found from the left, not overlapping. *)
Fixpoint split_paragraphs (s : string) : list string :=
  match s with
  | EmptyString => [EmptyString]
  | String c rest =>
      let grown :=
        match split_paragraphs rest with
        | first :: others => String c first :: others
        | [] => [String c EmptyString]
        end in
      match rest with
      | String c' rest' =>
          if is_lf c && is_lf c' then EmptyString :: split_paragraphs rest' else grown
      | EmptyString => grown
      end
  end.

Definition max_len : Z := 1000.

(** The loop over the paragraphs of a summary in [render_marp_deck]:
    [chunks], [current] and [current_len] as it leaves them. *)
Fixpoint chunk_loop (paragraphs chunks current : list string) (current_len : Z)
    : list string * list string :=
  match paragraphs with
  | [] => (chunks, current)
  | para :: rest =>
      let para := strip para in
      if negb (str_truthy para) then chunk_loop rest chunks current current_len
      else if (max_len <? current_len + str_len para) && negb (bool_decide (current = []))
      then chunk_loop rest (chunks ++ [str_join (LF +:+ LF) current])%list [para]
             (str_len para)
      else chunk_loop rest chunks (current ++ [para])%list (current_len + str_len para)
  end.

(** The chunks of a summary. *)
Definition marp_chunks (summary : string) : list string :=
  let paragraphs := if str_truthy summary then split_paragraphs summary else [""] in
  let '(chunks, current) := chunk_loop paragraphs [] [] 0 in
  if negb (bool_decide (current = []))
  then (chunks ++ [str_join (LF +:+ LF) current])%list else chunks.

Definition marp_header : string :=
  "---" +:+ LF +:+ "marp: true" +:+ LF +:+ "theme: default" +:+ LF +:+
  "class: invert" +:+ LF +:+ "paginate: true" +:+ LF +:+ "---" +:+ LF.

(** The separator a slide ends with. *)
Definition slide_end : string := LF +:+ "---" +:+ LF +:+ LF.

(** The slides of one talk: its title card, then a slide for each chunk
    of its summary. *)
Definition talk_slides (url : string) (info : talk_record) : list string :=
  let header_parts := ["## " +:+ r_title info +:+ LF] in
  let header_parts :=
    match r_sched_link info with
    | Some sched_link =>
        let line := LF +:+ "[Event](" +:+ sched_link +:+ ") | [Youtube](" +:+ url +:+ ")" in
        (header_parts ++ [deck_and_type info line +:+ LF])%list
    | None => header_parts
    end in
  let card := str_join "" header_parts +:+ slide_end in
  card :: map (fun chunk => str_join "" [chunk +:+ LF; slide_end])
              (marp_chunks (r_summary info)).

(** The slides before the trailing separator is removed. *)
Definition marp_slides (data : output) (title : string) : list string :=
  let sorted_items := sorted_items data in
  let slides := [marp_header] in
  let slides := if str_truthy title then (slides ++ [title_block title])%list else slides in
  (slides ++ concat (map (fun item => talk_slides (fst item) (snd item)) sorted_items))%list.

(** What [s.rsplit(marker, 1)[0]] is when [marker] occurs in [s]: the text
    before its last occurrence. *)
Fixpoint before_last (marker s : string) : option string :=
  match s with
  | EmptyString => if String.prefix marker s then Some EmptyString else None
  | String c rest =>
      match before_last marker rest with
      | Some p => Some (String c p)
      | None => if String.prefix marker s then Some EmptyString else None
      end
  end.

(** [s.rsplit(marker, 1)[0]]. *)
Definition rsplit_head (marker s : string) : string := default s (before_last marker s).

(** The last step of [render_marp_deck]: the trailing separator of the
    very last slide is removed. *)
Definition strip_trailing_separator (slides : list string) : list string :=
  if 1 <? len slides then
    let last := default "" (last slides) in
    let marker := LF +:+ "---" in
    if contains marker last then
      let prefix := rsplit_head marker last in
      (removelast slides ++ [prefix +:+ LF])%list
    else slides
  else slides.

(** [render_marp_deck]. *)
Definition render_marp_deck (data : output) (title : string) : string :=
  str_join "" (strip_trailing_separator (marp_slides data title)).

(** The index an item is sorted by. *)
Definition item_index (item : string * talk_record) : Z := r_index (snd item).

(** The paragraphs of a summary that the deck shows: stripped, the blank
    ones left out. *)
Definition shown_paragraphs (summary : string) : list string :=
  List.filter str_truthy
    (map strip (if str_truthy summary then split_paragraphs summary else [""])).

(** The total length of a group of paragraphs, as [current_len] counts it. *)
Fixpoint total_len (group : list string) : Z :=
  match group with
  | [] => 0
  | para :: rest => str_len para + total_len rest
  end.

(** A group of paragraphs that makes a chunk: it is not empty, and it holds
    more than one paragraph only if they fit [max_len] together. *)
Definition group_ok (g : list string) : Prop :=
  g <> [] /\ (length g = 1%nat \/ total_len g <= max_len).

(** Every group is full: the first paragraph of the next group did not fit
    with it. *)
Fixpoint greedy (groups : list (list string)) : Prop :=
  match groups with
  | [] => True
  | g :: rest =>
      match rest with
      | (para :: _) :: _ => max_len < total_len g + str_len para
      | _ => True
      end /\ greedy rest
  end.

(** A slide that ends with the separator. *)
Definition ends_slide (slide : string) : Prop := exists x, slide = x +:+ slide_end.

(** ** The command line ([cli.py]) *)

(** The parsed arguments of a run. *)
Record args := Args {
  a_playlist_url : string;
  a_output_folder : string;
  a_title : string;
  a_limit : option Z;
  a_cache_bust_youtube : bool;
  a_cache_bust_sched : bool;
  a_cache_bust_summary : bool;
  a_offset : Z;
  a_summarizer : string;
  a_model : option string;
  a_summary_length : Z;
  a_sleep : Z;
  a_proxy : bool
}.

(** How [main] goes on once the pipeline has run: [sys.exit(code)], or the
    rendering of the mapping it holds. *)
Inductive outcome :=
| SysExit (code : Z)
| Render (data : output).

Section Cli.

Context (E : env).

(** The summarizer [main] builds, with the flag [summarize]. *)
Definition main_summarizer (a : args) : result (option Summarizer * bool) :=
  let strategy := lower (a_summarizer a) in
  let model := a_model a in
  let summary_length := a_summary_length a in
  if String.eqb strategy "disabled" then Ok (None, false)
  else
    let model :=
      if String.eqb strategy "ollama" && negb (opt_truthy model)
      then Some "granite3.3:2b" else model in
    let summarizer_kwargs :=
      {| kw_model := keep_truthy model; kw_summary_length := Some summary_length |} in
    match get_summarizer E strategy summarizer_kwargs with
    | Ok summarizer => Ok (Some summarizer, true)
    | Raise e => Raise e
    end.

(** [if not data: sys.exit(1)]. *)
Definition exit_if_empty (data : output) : outcome :=
  if bool_decide (data = []) then SysExit 1 else Render data.

(** [main], from the parsed arguments to the mapping it hands to the
    renderers; the files it then writes are not part of the model. *)
Definition main (a : args) : M outcome :=
  let strategy := lower (a_summarizer a) in
  let youtube_refresh := a_cache_bust_youtube a in
  let sched_refresh := a_cache_bust_sched a in
  let use_summary_cache := negb (a_cache_bust_summary a) in
  built <- lift (main_summarizer a) ;;
  let '(summarizer, summarize) := built in
  if contains "sched.com" (a_playlist_url a) then
    data <- process_sched_talks E (a_playlist_url a) summarizer (a_limit a) sched_refresh
              summarize (a_offset a) (a_sleep a) use_summary_cache (a_proxy a) ;;
    ret (exit_if_empty data)
  else if String.eqb strategy "disabled" then ret (SysExit 1)
  else
    data <- process_playlist E (a_playlist_url a) summarizer (a_limit a) youtube_refresh
              use_summary_cache (a_proxy a) (a_sleep a) ;;
    ret (exit_if_empty data).

End Cli.

(** ** The detail page of a talk ([sched.py], [_fetch_talk_detail])

    The orchestrator above takes the outcome of [_fetch_talk_detail] from
    the environment.  Here the function itself runs against the pages the
    site serves; an [EvTalkDetail] is one request for a page. *)

(** What the queries of [_fetch_talk_detail] find in a detail page. *)
Record detail_page := DetailPage {
  (** the text of the element of class [name], stripped *)
  dp_name : option string;
  (** the text of the element of class [tip-description], stripped *)
  dp_tip_description : option string;
  (** the stripped text of the first direct child [a] of the element of
      class [sched-event-type], when both exist *)
  dp_event_type : option string;
  (** the [href] of the anchors that link a video *)
  dp_youtube_links : list string;
  (** the [src] of the frames that embed a video *)
  dp_youtube_iframes : list string;
  (** the [href] of the first anchor inside [div.sched-file] *)
  dp_deck_href : option string
}.

(** [s.startswith(p)]. *)
Definition startswith (p s : string) : bool := String.prefix p s.

(** [s.split(sep)] for a separator of one character. *)
Fixpoint split_char (sep : ascii) (s : string) : list string :=
  match s with
  | EmptyString => [EmptyString]
  | String c rest =>
      if Ascii.eqb c sep then EmptyString :: split_char sep rest
      else match split_char sep rest with
           | first :: others => String c first :: others
           | [] => [String c EmptyString]
           end
  end.

(** ['/'.join(link.split('/')[:3])]: the scheme and host of a link. *)
Definition base_url (link : string) : string :=
  str_join "/" (py_take 3 (split_char "/"%char link)).

(** The character class [[^?&/]]. *)
Definition is_id_char (c : ascii) : bool :=
  negb ((code c =? 63)%N || (code c =? 38)%N || (code c =? 47)%N).

(** The longest prefix of characters of the class. *)
Fixpoint span_id (s : string) : string :=
  match s with
  | String c rest => if is_id_char c then String c (span_id rest) else EmptyString
  | EmptyString => EmptyString
  end.

(** [re.search] for [youtube.com/embed/] followed by one or more
    characters of the class: group 1 of the leftmost match. *)
Fixpoint search_embed_id (s : string) : option string :=
  let here :=
    if String.prefix "youtube.com/embed/" s
    then let id := span_id (String.substring 18 (String.length s - 18) s) in
         if str_truthy id then Some id else None
    else None in
  match here with
  | Some id => Some id
  | None =>
      match s with
      | EmptyString => None
      | String _ rest => search_embed_id rest
      end
  end.

Section Detail.

(** The page a request for a link returns at a moment, or the exception
    of the request. *)
Context (get_page : nat -> string -> result detail_page).

Definition max_attempts : Z := 3.

(** The loop [for attempt in range(1, max_attempts + 1)]: the page in which
    the title was found, if any. *)
Fixpoint title_attempts (sched_link : string) (attempts : list Z)
    : M (option detail_page) :=
  match attempts with
  | [] => ret None
  | attempt :: rest =>
      t <- interact (EvTalkDetail sched_link) ;;
      page <- lift (get_page t sched_link) ;;
      if bool_decide (dp_name page <> None) then ret (Some page)
      else
        (if attempt <? max_attempts then sleep_for (FloatOf "1.0") else ret tt) ;;;
        title_attempts sched_link rest
  end.

(** The video link of a page: that of the first anchor, else the watch
    link of the first embedded frame. *)
Definition page_youtube_url (page : detail_page) : option string :=
  let youtube_url :=
    match dp_youtube_links page with
    | href :: _ => Some href
    | [] => None
    end in
  if negb (opt_truthy youtube_url) then
    match dp_youtube_iframes page with
    | iframe_src :: _ =>
        match search_embed_id iframe_src with
        | Some video_id => Some ("https://www.youtube.com/watch?v=" +:+ video_id)
        | None => youtube_url
        end
    | [] => youtube_url
    end
  else youtube_url.

(** The deck link of a page, made absolute. *)
Definition page_deck_url (sched_link : string) (page : detail_page) : option string :=
  match dp_deck_href page with
  | Some href =>
      Some (if str_truthy href && negb (startswith "http" href)
            then base_url sched_link +:+ href else href)
  | None => None
  end.

(** [_fetch_talk_detail]. *)
Definition _fetch_talk_detail (sched_link : string) : M (option talk) :=
  try_except
    (found <- title_attempts sched_link [1; 2; 3] ;;
     match found with
     | None => ret None
     | Some page =>
         let title := default "" (dp_name page) in
         let description := default "" (dp_tip_description page) in
         let event_type := keep_truthy (dp_event_type page) in
         let youtube_url := page_youtube_url page in
         let deck_url := page_deck_url sched_link page in
         if opt_truthy youtube_url then
           ret (Some {| t_title := title; t_sched_link := sched_link;
                        t_youtube_url := default "" youtube_url;
                        t_description := description;
                        t_event_type := event_type; t_deck_url := deck_url |})
         else ret None
     end)
    (fun _ => ret None).

End Detail.

(** ** More vocabulary *)

(** The links whose detail page is asked for among [evs], in order. *)
Fixpoint detail_requests (evs : list event) : list string :=
  match evs with
  | [] => []
  | EvTalkDetail sched_link :: rest => sched_link :: detail_requests rest
  | _ :: rest => detail_requests rest
  end.

(** A request to the schedule site, or a pause. *)
Definition schedule_event (ev : event) : bool :=
  match ev with
  | EvSleep _ | EvSchedIndex _ | EvTalkDetail _ => true
  | _ => false
  end.

(** The last character of a string. *)
Fixpoint last_char (s : string) : option ascii :=
  match s with
  | EmptyString => None
  | String c EmptyString => Some c
  | String _ rest => last_char rest
  end.

(** A character of [str(n)]: a digit or the minus sign. *)
Definition is_numeral_char (c : ascii) : bool := is_digit c || (code c =? 45)%N.

(** The number of slashes in a string. *)
Fixpoint slashes (s : string) : nat :=
  match s with
  | EmptyString => 0%nat
  | String c rest => ((if Ascii.eqb c "/"%char then 1 else 0) + slashes rest)%nat
  end.

(** ** More examples *)
Module Cases.

Import Sample.

(** A detail page without a direct video link: the video is embedded, and
    the deck link is relative. *)
Definition embedded_page : detail_page :=
  {| dp_name := Some "Opening Keynote - A. Speaker";
     dp_tip_description := Some "Welcome.";
     dp_event_type := Some "Keynote";
     dp_youtube_links := [];
     dp_youtube_iframes := ["https://www.youtube.com/embed/aaa?rel=0"];
     dp_deck_href := Some "/hosted_files/deck.pdf" |}.

(** A site that serves one page for every link. *)
Definition serve (page : detail_page) : nat -> string -> result detail_page :=
  fun _ _ => Ok page.

(** A run on the schedule of the examples with the summarizer disabled. *)
Definition disabled_run : args :=
  {| a_playlist_url := sched_url; a_output_folder := "summit-outputs";
     a_title := "Conference Summary"; a_limit := None;
     a_cache_bust_youtube := false; a_cache_bust_sched := false;
     a_cache_bust_summary := false; a_offset := 0; a_summarizer := "Disabled";
     a_model := None; a_summary_length := 800; a_sleep := 0; a_proxy := false |}.

(** Two records of a playlist run. *)
Definition record_a : string * talk_record :=
  ("https://www.youtube.com/watch?v=aaa", blank_record 1 "Talk A").

Definition record_b : string * talk_record :=
  ("https://www.youtube.com/watch?v=bbb", blank_record 2 "Talk B").

(** The talk read from [embedded_page], asked for under the link of the
    first talk. *)
Definition fetched_talk : talk :=
  {| t_title := "Opening Keynote - A. Speaker";
     t_sched_link := "https://kccnc.sched.com/event/1";
     t_youtube_url := "https://www.youtube.com/watch?v=aaa";
     t_description := "Welcome.";
     t_event_type := Some "Keynote";
     t_deck_url := Some "https://kccnc.sched.com/hosted_files/deck.pdf" |}.

(** The world after a summary step whose backend call failed. *)
Definition failed_once : world :=
  snd (obtain_summary offline (anthropic "claude" 800) false "aaa" "Talk A"
         (Some "a transcript") empty_world).

(** The world after a playlist was listed afresh. *)
Definition listed_once : world :=
  snd (discover_playlist listing playlist_url true playlist_cached).

(** The world after a schedule was scraped with a limit of one talk. *)
Definition scraped_once : world :=
  snd (discover_sched one_event sched_url (Some 1) false 0 0 empty_world).

End Cases.

(** ** The monad *)

Lemma bind_run {A B} (m : M A) (k : A -> M B) (w : world) :
  bind m k w = match m w with
               | (Ok a, w') => k a w'
               | (Raise e, w') => (Raise e, w')
               end.
Proof. reflexivity. Qed.

Lemma bind_ok {A B} (m : M A) (k : A -> M B) (w w' : world) (b : B) :
  bind m k w = (Ok b, w') ->
  exists a w1, m w = (Ok a, w1) /\ k a w1 = (Ok b, w').
Proof.
  rewrite bind_run. destruct (m w) as [[a|e] w1]; intros H.
  - exists a, w1. split; [reflexivity | exact H].
  - discriminate H.
Qed.

Lemma never_raises_ret {A} (a : A) : never_raises (ret a).
Proof. intros w. exists a, w. reflexivity. Qed.

Lemma never_raises_bind {A B} (m : M A) (k : A -> M B) :
  never_raises m -> (forall a, never_raises (k a)) -> never_raises (bind m k).
Proof.
  intros Hm Hk w. destruct (Hm w) as (a & w1 & H1).
  destruct (Hk a w1) as (b & w2 & H2).
  exists b, w2. rewrite bind_run, H1. exact H2.
Qed.

Lemma never_raises_try {A} (body : M A) (handler : exn -> M A) :
  (forall e, never_raises (handler e)) -> never_raises (try_except body handler).
Proof.
  intros Hh w. unfold try_except.
  destruct (body w) as [[a|e] w1].
  - exists a, w1. reflexivity.
  - apply Hh.
Qed.

Lemma keeps_json_ret {A} (a : A) : keeps_json (ret a).
Proof. intros w. reflexivity. Qed.

Lemma keeps_json_lift {A} (r : result A) : keeps_json (lift r).
Proof. intros w. reflexivity. Qed.

Lemma keeps_json_raise {A} (e : exn) : keeps_json (@raise A e).
Proof. intros w. reflexivity. Qed.

Lemma keeps_json_bind {A B} (m : M A) (k : A -> M B) :
  keeps_json m -> (forall a, keeps_json (k a)) -> keeps_json (bind m k).
Proof.
  intros Hm Hk w. rewrite bind_run. specialize (Hm w).
  destruct (m w) as [[a|e] w1]; simpl in *.
  - rewrite Hk. exact Hm.
  - exact Hm.
Qed.

Lemma keeps_json_try {A} (body : M A) (handler : exn -> M A) :
  keeps_json body -> (forall e, keeps_json (handler e)) ->
  keeps_json (try_except body handler).
Proof.
  intros Hb Hh w. unfold try_except. specialize (Hb w).
  destruct (body w) as [[a|e] w1]; simpl in *.
  - exact Hb.
  - rewrite Hh. exact Hb.
Qed.

Lemma keeps_json_try_class {A} (c : exn_class) (body : M A) (handler : exn -> M A) :
  keeps_json body -> (forall e, keeps_json (handler e)) ->
  keeps_json (try_except_class c body handler).
Proof.
  intros Hb Hh w. unfold try_except_class. specialize (Hb w).
  destruct (body w) as [[a|e] w1]; simpl in *.
  - exact Hb.
  - destruct (exn_class_eqb (exn_cls e) c); simpl.
    + rewrite Hh. exact Hb.
    + exact Hb.
Qed.

Lemma keeps_json_interact (ev : event) : keeps_json (interact ev).
Proof. intros w. reflexivity. Qed.

Lemma keeps_json_read_text (p : string) : keeps_json (read_text p).
Proof. intros w. reflexivity. Qed.

Lemma keeps_json_write_text (p data : string) : keeps_json (write_text p data).
Proof. intros w. reflexivity. Qed.

Lemma keeps_json_read_json (p : string) : keeps_json (read_json p).
Proof. intros w. reflexivity. Qed.

Lemma after_nil (w : world) : after w [] = w.
Proof. destruct w. unfold after. cbn. rewrite app_nil_r. reflexivity. Qed.

Lemma after_app (w : world) (a b : list event) :
  after (after w a) b = after w (a ++ b).
Proof. unfold after. cbn. rewrite <- app_assoc. reflexivity. Qed.

Lemma only_interacts_ret {A} (a : A) : only_interacts (ret a).
Proof. intros w. exists []. symmetry. apply after_nil. Qed.

Lemma only_interacts_lift {A} (r : result A) : only_interacts (lift r).
Proof. intros w. exists []. symmetry. apply after_nil. Qed.

Lemma only_interacts_interact (ev : event) : only_interacts (interact ev).
Proof. intros w. exists [ev]. reflexivity. Qed.

Lemma only_interacts_bind {A B} (m : M A) (k : A -> M B) :
  only_interacts m -> (forall a, only_interacts (k a)) -> only_interacts (bind m k).
Proof.
  intros Hm Hk w. rewrite bind_run. destruct (Hm w) as [evs1 H1].
  destruct (m w) as [[a|e] w1]; cbn [snd] in *; subst w1.
  - destruct (Hk a (after w evs1)) as [evs2 H2]. rewrite H2, after_app. eauto.
  - eauto.
Qed.

Lemma only_interacts_try {A} (body : M A) (handler : exn -> M A) :
  only_interacts body -> (forall e, only_interacts (handler e)) ->
  only_interacts (try_except body handler).
Proof.
  intros Hb Hh w. unfold try_except. destruct (Hb w) as [evs1 H1].
  destruct (body w) as [[a|e] w1]; cbn [snd] in *; subst w1.
  - eauto.
  - destruct (Hh e (after w evs1)) as [evs2 H2]. rewrite H2, after_app. eauto.
Qed.

Lemma only_interacts_keeps_json {A} (m : M A) : only_interacts m -> keeps_json m.
Proof. intros Hm w. destruct (Hm w) as [evs ->]. reflexivity. Qed.

Lemma only_interacts_text {A} (m : M A) (w : world) :
  only_interacts m -> text_files (snd (m w)) = text_files w.
Proof. intros Hm. destruct (Hm w) as [evs ->]. reflexivity. Qed.

Create HintDb interacts discriminated.
#[export] Hint Resolve only_interacts_ret only_interacts_lift only_interacts_interact
  : interacts.
#[export] Hint Extern 2 (only_interacts (bind _ _)) =>
  apply only_interacts_bind; [ | intros ? ] : interacts.
#[export] Hint Extern 2 (only_interacts (try_except _ _)) =>
  apply only_interacts_try; [ | intros ? ] : interacts.
#[export] Hint Extern 3 (only_interacts (match ?x with _ => _ end)) => destruct x : interacts.
#[export] Hint Extern 3 (only_interacts (if ?x then _ else _)) => destruct x : interacts.

Create HintDb json discriminated.
#[export] Hint Resolve keeps_json_ret keeps_json_lift keeps_json_raise keeps_json_interact
  keeps_json_read_text keeps_json_write_text keeps_json_read_json : json.
#[export] Hint Extern 2 (keeps_json (bind _ _)) =>
  apply keeps_json_bind; [ | intros ? ] : json.
#[export] Hint Extern 2 (keeps_json (try_except _ _)) =>
  apply keeps_json_try; [ | intros ? ] : json.
#[export] Hint Extern 2 (keeps_json (try_except_class _ _ _)) =>
  apply keeps_json_try_class; [ | intros ? ] : json.
#[export] Hint Extern 3 (keeps_json (match ?x with _ => _ end)) => destruct x : json.
#[export] Hint Extern 3 (keeps_json (if ?x then _ else _)) => destruct x : json.

(** ** The summary cache (C1) *)

Section Properties.

Context (E : env).

(** A summary that was saved is the one loaded for the same talk and
    summarizer. *)
Lemma summary_cache_round_trip (video_id : string) (s : Summarizer)
    (summary : string) (w : world) :
  fst (load_summary_cache E video_id s (snd (save_summary_cache E video_id s summary w)))
  = Ok (Some summary).
Proof.
  unfold load_summary_cache, save_summary_cache, read_text, write_text. simpl.
  f_equal. apply lookup_insert_eq.
Qed.

(** Saving a summary leaves every other path as it was. *)
Lemma save_summary_cache_other (video_id : string) (s : Summarizer)
    (summary p : string) (w : world) :
  p <> get_summary_cache_path E video_id s ->
  text_files (snd (save_summary_cache E video_id s summary w)) !! p = text_files w !! p.
Proof.
  intros Hp. unfold save_summary_cache, write_text. simpl.
  apply lookup_insert_ne. congruence.
Qed.

(** The key keeps target lengths apart: the digits of [str(n)] are safe
    characters, and [str] is injective. *)
Lemma sanitize_app (a b : string) : sanitize (a +:+ b) = sanitize a +:+ sanitize b.
Proof.
  induction a as [|c a IH]; simpl; [reflexivity|].
  rewrite IH. reflexivity.
Qed.

Lemma sanitize_length (a : string) : String.length (sanitize a) = String.length a.
Proof.
  induction a as [|c a IH]; simpl; [reflexivity|].
  rewrite IH. reflexivity.
Qed.

Lemma append_length (a b : string) :
  String.length (a +:+ b) = (String.length a + String.length b)%nat.
Proof.
  induction a as [|c a IH]; simpl; [reflexivity|].
  rewrite IH. reflexivity.
Qed.

Lemma append_inj_r (c : string) :
  forall a b : string, a +:+ c = b +:+ c -> a = b.
Proof.
  induction a as [|x a IH]; intros [|y b] H; simpl in H.
  - reflexivity.
  - apply (f_equal String.length) in H. rewrite !append_length in H. simpl in H. lia.
  - apply (f_equal String.length) in H. rewrite !append_length in H. simpl in H. lia.
  - injection H as -> H. f_equal. apply IH, H.
Qed.

Lemma sanitize_uint (d : Decimal.uint) :
  sanitize (NilEmpty.string_of_uint d) = NilEmpty.string_of_uint d.
Proof. induction d; cbn [NilEmpty.string_of_uint sanitize]; rewrite ?IHd; reflexivity. Qed.

Lemma sanitize_str_of_int (n : Z) : sanitize (str_of_int n) = str_of_int n.
Proof.
  unfold str_of_int, NilZero.string_of_int, NilZero.string_of_uint.
  destruct (Z.to_int n) as [d|d]; destruct d; cbn [sanitize];
    rewrite ?sanitize_uint; reflexivity.
Qed.

Lemma str_of_int_inj (a b : Z) : str_of_int a = str_of_int b -> a = b.
Proof.
  unfold str_of_int. intros H.
  assert (Hnn : forall z, Z.to_int z <> Decimal.Pos Decimal.Nil /\
                          Z.to_int z <> Decimal.Neg Decimal.Nil).
  { intros [|q|q]; cbn; split; try discriminate;
      intros [= Hq]; exact (DecimalPos.Unsigned.to_uint_nonnil q Hq). }
  apply (f_equal NilZero.int_of_string) in H.
  rewrite !NilZero.isi in H by apply Hnn.
  injection H as H. rewrite <- (DecimalZ.of_to a), <- (DecimalZ.of_to b), H.
  reflexivity.
Qed.

Lemma append_assoc (a b c : string) : (a +:+ b) +:+ c = a +:+ b +:+ c.
Proof.
  induction a as [|x a IH]; [reflexivity|].
  change (String x ((a +:+ b) +:+ c) = String x (a +:+ b +:+ c)).
  f_equal. exact IH.
Qed.

Lemma str_join_snoc (sep x : string) (parts : list string) :
  parts <> [] ->
  str_join sep (parts ++ [x]) = str_join sep parts +:+ sep +:+ x.
Proof.
  unfold str_join. induction parts as [|p [|q rest] IH]; intros Hne.
  - contradiction.
  - reflexivity.
  - change (String.concat sep ((p :: q :: rest) ++ [x]))
      with (p +:+ sep +:+ String.concat sep ((q :: rest) ++ [x])).
    rewrite IH by discriminate.
    change (String.concat sep (p :: q :: rest))
      with (p +:+ sep +:+ String.concat sep (q :: rest)).
    rewrite !append_assoc. reflexivity.
Qed.

(** Two summarizers of one class and one model whose target lengths differ
    never share a summary cache record: a summary saved under one is a miss
    under the other. *)
Lemma summary_length_separates (video_id summary : string) (a b : Summarizer)
    (w : world) :
  cls a = cls b -> model a = model b -> summary_length a <> summary_length b ->
  text_files w !! get_summary_cache_path E video_id b = None ->
  get_summary_cache_path E video_id a <> get_summary_cache_path E video_id b /\
  fst (load_summary_cache E video_id b (snd (save_summary_cache E video_id a summary w)))
  = Ok None.
Proof.
  intros Hcls Hmodel Hlen Hmiss.
  assert (Hpath : get_summary_cache_path E video_id a
                  <> get_summary_cache_path E video_id b).
  { unfold get_summary_cache_path. intros H.
    repeat apply String.app_inj in H. apply append_inj_r in H.
    revert H. unfold _summarizer_cache_key_parts. rewrite Hcls, Hmodel.
    set (base := if model_truthy (model b)
                 then ([class_name (cls b)] ++ [str_of_model E (model b)])%list
                 else [class_name (cls b)]).
    assert (Hbase : base <> []) by (subst base; destruct (model_truthy (model b));
                                    discriminate).
    destruct (summary_length a =? 0) eqn:Ha, (summary_length b =? 0) eqn:Hb;
      cbn [negb].
    - apply Z.eqb_eq in Ha, Hb. congruence.
    - rewrite (str_join_snoc _ _ _ Hbase). intros H.
      apply (f_equal String.length) in H.
      rewrite !sanitize_length, !append_length in H. cbn in H. lia.
    - rewrite (str_join_snoc _ _ _ Hbase). intros H.
      apply (f_equal String.length) in H.
      rewrite !sanitize_length, !append_length in H. cbn in H. lia.
    - rewrite !(str_join_snoc _ _ _ Hbase), !sanitize_app, !sanitize_str_of_int.
      intros H. repeat apply String.app_inj in H.
      apply str_of_int_inj in H. contradiction. }
  split; [exact Hpath|].
  unfold load_summary_cache, save_summary_cache, read_text, write_text. cbn.
  rewrite lookup_insert_ne by exact Hpath. rewrite Hmiss. reflexivity.
Qed.

(** C1 (the code falls short of it): two Ollama summarizers whose models
    differ, [llama3:8b] and [llama3_8b], have the same cache key, so for
    every talk id the summary saved under the first is what a load under the
    second returns: a hit, where the claim promises a miss. *)
Theorem summary_cache_key_collision :
  forall (video_id summary : string) (w : world),
    let a := Sample.ollama "llama3:8b" 800 in
    let b := Sample.ollama "llama3_8b" 800 in
    model a <> model b /\
    _summarizer_cache_key_parts E a = "OllamaSummarizer_llama3_8b_800" /\
    _summarizer_cache_key_parts E b = "OllamaSummarizer_llama3_8b_800" /\
    fst (load_summary_cache E video_id b
           (snd (save_summary_cache E video_id a summary w))) = Ok (Some summary).
Proof.
  intros video_id summary w a b.
  assert (Hkey : get_summary_cache_path E video_id b = get_summary_cache_path E video_id a)
    by reflexivity.
  repeat split.
  - discriminate.
  - unfold load_summary_cache. rewrite Hkey.
    apply (summary_cache_round_trip video_id a summary w).
Qed.

(** ** The transcript fetcher (C6) *)

(** [str_join] puts exactly one separator between neighbours. *)
Lemma str_join_cons (sep a b : string) (rest : list string) :
  str_join sep (a :: b :: rest) = a +:+ sep +:+ str_join sep (b :: rest).
Proof. reflexivity. Qed.

(** C6: on a cache miss, a transcript source that raises makes
    [_download_subtitles_sync] return [None], with nothing raised and no
    file written; a source that returns segments makes it return them joined
    by single spaces and write that text to the transcript cache record. *)
Theorem download_subtitles_outcomes (video_id : string) (proxy : bool) (w : world) :
  text_files w !! get_subtitle_cache_path E video_id = None ->
  match transcript_fetch E (now w) (proxy_config E proxy) video_id with
  | Raise _ =>
      _download_subtitles_sync E video_id proxy w
      = (Ok None, after w [EvTranscript video_id])
  | Ok transcript =>
      _download_subtitles_sync E video_id proxy w
      = (Ok (Some (str_join " " transcript)),
         World (<[get_subtitle_cache_path E video_id := str_join " " transcript]>
                  (text_files w))
               (json_files w) (trace w ++ [EvTranscript video_id]))
  end.
Proof.
  intros Hmiss.
  unfold _download_subtitles_sync, load_subtitle_cache, read_text.
  rewrite bind_run. cbn [fst snd]. rewrite Hmiss.
  unfold try_except. rewrite bind_run. cbn [interact].
  rewrite bind_run. unfold lift. cbn [text_files json_files trace].
  destruct (transcript_fetch E (now w) (proxy_config E proxy) video_id) as [transcript|e];
    reflexivity.
Qed.

(** A cached transcript is returned without asking the source. *)
Lemma download_subtitles_cached (video_id text : string) (proxy : bool) (w : world) :
  text_files w !! get_subtitle_cache_path E video_id = Some text ->
  _download_subtitles_sync E video_id proxy w = (Ok (Some text), w).
Proof.
  intros Hhit.
  unfold _download_subtitles_sync, load_subtitle_cache, read_text.
  rewrite bind_run. cbn [fst snd]. rewrite Hhit. reflexivity.
Qed.

(** The transcript fetcher returns on every world. *)
Lemma download_subtitles_never_raises (video_id : string) (proxy : bool) :
  never_raises (download_subtitles E video_id proxy).
Proof.
  unfold download_subtitles, _download_subtitles_sync.
  apply never_raises_bind.
  - intros w. eexists _, w. reflexivity.
  - intros [text|].
    + apply never_raises_ret.
    + apply never_raises_try. intros e. apply never_raises_ret.
Qed.

(** ** Bounded retry of the Gemini variant (C7) *)








(** ** Limits and windows (C10, C2) *)

Lemma apply_limit_nonpositive {A} (limit : Z) (l : list A) :
  limit <= 0 -> apply_limit (Some limit) l = l.
Proof.
  intros Hle. unfold apply_limit.
  destruct (0 <? limit) eqn:Hlt; [|reflexivity].
  apply Z.ltb_lt in Hlt. lia.
Qed.

Lemma sched_window_nonpositive (limit offset : Z) (used_cache : bool) (talks : list talk) :
  limit <= 0 ->
  sched_window (Some limit) offset used_cache talks
  = sched_window None offset used_cache talks.
Proof.
  intros Hle. unfold sched_window.
  destruct (0 <? limit) eqn:Hlt; [|reflexivity].
  apply Z.ltb_lt in Hlt. lia.
Qed.

Lemma discover_sched_nonpositive (sched_url : string) (limit : Z) (refresh_cache : bool)
    (offset sleep : Z) (w : world) :
  limit <= 0 ->
  discover_sched E sched_url (Some limit) refresh_cache offset sleep w
  = discover_sched E sched_url None refresh_cache offset sleep w.
Proof.
  intros Hle. unfold discover_sched, fetch_limit.
  destruct (0 <? limit) eqn:Hlt; [|reflexivity].
  apply Z.ltb_lt in Hlt. lia.
Qed.

(** C10: in both orchestrators a limit of zero or below is the same as no
    limit: the list of descriptors is not truncated, and the whole run (its
    result, the files it leaves and its interactions) is the run without
    limit. *)
Theorem nonpositive_limit_is_no_limit (limit : Z) :
  limit <= 0 ->
  (forall (videos : list video), apply_limit (Some limit) videos = videos) /\
  (forall playlist_url summarizer refresh_cache use_summary_cache proxy sleep w,
     process_playlist E playlist_url summarizer (Some limit) refresh_cache
       use_summary_cache proxy sleep w
     = process_playlist E playlist_url summarizer None refresh_cache
         use_summary_cache proxy sleep w) /\
  (forall sched_url summarizer refresh_cache summarize offset sleep
          use_summary_cache proxy w,
     process_sched_talks E sched_url summarizer (Some limit) refresh_cache summarize
       offset sleep use_summary_cache proxy w
     = process_sched_talks E sched_url summarizer None refresh_cache summarize
         offset sleep use_summary_cache proxy w).
Proof.
  intros Hle. split; [|split].
  - intros videos. apply apply_limit_nonpositive, Hle.
  - intros playlist_url summarizer refresh_cache use_summary_cache proxy sleep w.
    unfold process_playlist. rewrite !bind_run.
    destruct (lift (summarizer_or_default E summarizer) w) as [[s|e] w1]; [|reflexivity].
    rewrite !bind_run.
    destruct (discover_playlist E playlist_url refresh_cache w1) as [[[videos|]|e] w2];
      try reflexivity.
    rewrite (apply_limit_nonpositive limit videos Hle). reflexivity.
  - intros sched_url summarizer refresh_cache enabled offset sleep use_summary_cache
      proxy w.
    unfold process_sched_talks. rewrite !bind_run.
    destruct (lift (sched_summarizer E summarizer enabled) w) as [[s|e] w1];
      [|reflexivity].
    rewrite !bind_run, (discover_sched_nonpositive _ _ _ _ _ _ Hle).
    destruct (discover_sched E sched_url None refresh_cache offset sleep w1)
      as [[[talks used_cache]|e] w2]; [|reflexivity].
    rewrite (sched_window_nonpositive _ _ _ _ Hle). reflexivity.
Qed.

Lemma py_drop_nonneg {A} (k : Z) (l : list A) :
  0 <= k -> py_drop k l = skipn (Z.to_nat k) l.
Proof.
  intros Hk. unfold py_drop. destruct (0 <=? k) eqn:Hb; [reflexivity|].
  apply Z.leb_gt in Hb. lia.
Qed.

Lemma py_take_nonneg {A} (m : Z) (l : list A) :
  0 <= m -> py_take m l = firstn (Z.to_nat m) l.
Proof.
  intros Hm. unfold py_take. destruct (0 <=? m) eqn:Hb; [reflexivity|].
  apply Z.leb_gt in Hb. lia.
Qed.

(** With a positive limit and an offset that is not negative, the window
    over cached talks is the slice. *)
Lemma sched_window_slice (m k : Z) (cached : list talk) :
  0 <= k -> 0 < m ->
  sched_window (Some m) k true cached = slice k (k + m) cached.
Proof.
  intros Hk Hm. unfold sched_window, slice. cbn [andb].
  replace (k + m - k) with m by lia.
  assert (Hdrop : (if 0 <? k then py_drop k cached else cached)
                  = skipn (Z.to_nat k) cached).
  { destruct (0 <? k) eqn:Hb.
    - apply py_drop_nonneg, Hk.
    - apply Z.ltb_ge in Hb. replace k with 0 by lia. reflexivity. }
  rewrite Hdrop. apply Z.ltb_lt in Hm. rewrite Hm. cbn [andb].
  apply Z.ltb_lt in Hm.
  destruct (m <? len (skipn (Z.to_nat k) cached)) eqn:Hb.
  - apply py_take_nonneg. lia.
  - apply Z.ltb_ge in Hb. unfold len in Hb. symmetry. apply firstn_all2. lia.
Qed.

(** With summarization enabled the summarizer is there. *)
Lemma sched_summarizer_some (summarizer s : option Summarizer) :
  sched_summarizer E summarizer true = Ok s -> exists s', s = Some s'.
Proof.
  unfold sched_summarizer.
  destruct (summarizer_or_default E summarizer) as [s'|e]; intros H.
  - exists s'. congruence.
  - discriminate.
Qed.

(** The output for no talks is the empty mapping. *)
Lemma build_sched_output_nil (s : Summarizer) (summarize : bool) (sleep : Z)
    (use_summary_cache proxy : bool) (w : world) :
  build_sched_output E (Some s) summarize sleep use_summary_cache proxy [] w = (Ok [], w).
Proof. unfold build_sched_output. destruct summarize; reflexivity. Qed.

(** C2, amended: served from a cache of talks [cached], with an offset
    [k >= 0] and a limit [m > 0], [process_sched_talks] builds its output
    from exactly the talks [cached[k:k+m]], in their order; with
    summarization disabled this output is [description_output] of the
    slice. *)
Theorem sched_cache_window (sched_url : string) (summarizer : option Summarizer)
    (m k sleep : Z) (summarize use_summary_cache proxy : bool)
    (cached : list talk) (w : world) :
  json_files w !! get_sched_cache_path E sched_url = Some (JTalks cached) ->
  0 <= k -> 0 < m ->
  process_sched_talks E sched_url summarizer (Some m) false summarize k sleep
    use_summary_cache proxy w
  = (s <- lift (sched_summarizer E summarizer summarize) ;;
     build_sched_output E s summarize sleep use_summary_cache proxy
       (slice k (k + m) cached)) w
  /\ (summarize = false ->
      process_sched_talks E sched_url summarizer (Some m) false summarize k sleep
        use_summary_cache proxy w
      = (Ok (description_output [] 1 (slice k (k + m) cached)), w)).
Proof.
  intros Hcache Hk Hm.
  assert (Hmain :
    process_sched_talks E sched_url summarizer (Some m) false summarize k sleep
      use_summary_cache proxy w
    = (s <- lift (sched_summarizer E summarizer summarize) ;;
       build_sched_output E s summarize sleep use_summary_cache proxy
         (slice k (k + m) cached)) w).
  { unfold process_sched_talks. rewrite !bind_run. unfold lift.
    destruct (sched_summarizer E summarizer summarize) as [s|e] eqn:Hs; [|reflexivity].
    unfold discover_sched. cbn [negb]. unfold load_sched_cache, read_json.
    rewrite !bind_run. cbn [fst snd]. rewrite Hcache. cbn [ret].
    rewrite <- (sched_window_slice m k cached Hk Hm).
    case_bool_decide as Hnil; [|reflexivity].
    subst cached. rewrite (sched_window_slice m k [] Hk Hm).
    unfold slice. rewrite skipn_nil, firstn_nil.
    destruct summarize.
    - apply sched_summarizer_some in Hs as [s' ->].
      symmetry. apply build_sched_output_nil.
    - reflexivity. }
  split; [exact Hmain|].
  intros ->. rewrite Hmain. reflexivity.
Qed.

(** ** Summarizers never raise *)

Lemma sleep_for_only_interacts (d : delay) : only_interacts (sleep_for d).
Proof. unfold sleep_for. auto with interacts. Qed.

Lemma courtesy_sleep_only_interacts (sleep : Z) : only_interacts (courtesy_sleep sleep).
Proof.
  unfold courtesy_sleep. destruct (0 <? sleep).
  - apply sleep_for_only_interacts.
  - auto with interacts.
Qed.

Lemma courtesy_sleep_never_raises (sleep : Z) : never_raises (courtesy_sleep sleep).
Proof.
  intros w. unfold courtesy_sleep, sleep_for. destruct (0 <? sleep).
  - eexists tt, _. reflexivity.
  - eexists tt, _. reflexivity.
Qed.

Lemma chat_only_interacts (s : Summarizer) (p : prompt) : only_interacts (chat E s p).
Proof. unfold chat. auto with interacts. Qed.

Lemma gemini_attempts_only_interacts (s : Summarizer) (p : prompt) (attempts : list Z) :
  only_interacts (gemini_attempts E s p attempts).
Proof.
  induction attempts as [|attempt rest IH]; cbn [gemini_attempts].
  - auto with interacts.
  - apply only_interacts_bind.
    + apply only_interacts_try.
      * pose proof (chat_only_interacts s p). auto with interacts.
      * intros e. destruct (is_rate_limit (exn_str e) && (attempt <? max_retries - 1)).
        -- pose proof (sleep_for_only_interacts (retry_delay attempt (exn_str e))).
           auto with interacts.
        -- auto with interacts.
    + intros [r|u]; [auto with interacts | exact IH].
Qed.

Lemma gemini_attempts_never_raises (s : Summarizer) (p : prompt) (attempts : list Z) :
  never_raises (gemini_attempts E s p attempts).
Proof.
  induction attempts as [|attempt rest IH]; cbn [gemini_attempts].
  - apply never_raises_ret.
  - apply never_raises_bind.
    + apply never_raises_try. intros e.
      destruct (is_rate_limit (exn_str e) && (attempt <? max_retries - 1)).
      * apply never_raises_bind; [|intros; apply never_raises_ret].
        intros w. eexists tt, _. reflexivity.
      * apply never_raises_ret.
    + intros [r|u]; [apply never_raises_ret | exact IH].
Qed.

(** An invocation of the Ollama variant that runs alone: one request, and
    the reply made of its answer. *)
Lemma ollama_summarize_alone (s : Summarizer) (text title : string) (w : world) :
  run_alone (ollama_summarize E s text title) w
  = (Ok (ollama_reply (ollama_chat E (now w) s (build_prompt s text title))),
     after w [EvChat s (build_prompt s text title)]).
Proof.
  unfold ollama_summarize, async_with_lock, ollama_summarize_once, co_try, co_bind,
    co_interact, co_lift, co_ret.
  destruct (_lock s); cbn [co_then run_alone]; rewrite bind_run; cbn [interact];
    destruct (ollama_chat E (now w) s (build_prompt s text title)) as [[c|]|e];
    cbn [co_then run_alone ollama_reply]; try destruct (strip_truthy c);
    cbn [co_then run_alone]; reflexivity.
Qed.

(** [summarize] only talks to the backend and sleeps: it touches no file. *)
Lemma summarize_only_interacts (s : Summarizer) (text title : string) :
  only_interacts (summarize E s text title).
Proof.
  unfold summarize. destruct (cls s).
  - unfold anthropic_summarize. pose proof chat_only_interacts. auto with interacts.
  - unfold openai_summarize. pose proof chat_only_interacts. auto with interacts.
  - apply gemini_attempts_only_interacts.
  - intros w. rewrite ollama_summarize_alone. eexists. reflexivity.
Qed.

(** [summarize] returns on every world, whatever the backend does. *)
Lemma summarize_never_raises (s : Summarizer) (text title : string) :
  never_raises (summarize E s text title).
Proof.
  unfold summarize. destruct (cls s).
  - apply never_raises_try. intros e. apply never_raises_ret.
  - apply never_raises_try. intros e. apply never_raises_ret.
  - apply gemini_attempts_never_raises.
  - intros w. rewrite ollama_summarize_alone. eexists _, _. reflexivity.
Qed.

(** ** The output dictionary *)

Lemma dict_set_in (d : output) (k u : string) (v r : talk_record) :
  In (u, r) (dict_set d k v) -> In (u, r) d \/ (u = k /\ r = v).
Proof.
  induction d as [|[k' v'] rest IH]; cbn [dict_set].
  - intros [H|[]]. right. split; congruence.
  - destruct (String.eqb k' k) eqn:Hk.
    + apply String.eqb_eq in Hk. subst k'. intros [H|H].
      * right. split; congruence.
      * left. right. exact H.
    + intros [H|H].
      * left. left. exact H.
      * destruct (IH H) as [H'|H']; [left; right; exact H' | right; exact H'].
Qed.

Lemma dict_get_set_eq (d : output) (k : string) (v : talk_record) :
  dict_get (dict_set d k v) k = Some v.
Proof.
  induction d as [|[k' v'] rest IH]; cbn [dict_set dict_get].
  - rewrite String.eqb_refl. reflexivity.
  - destruct (String.eqb k' k) eqn:Hk; cbn [dict_get]; rewrite Hk.
    + reflexivity.
    + exact IH.
Qed.

Lemma dict_get_set_some (d : output) (k k' : string) (v r : talk_record) :
  dict_get d k' = Some r -> exists r', dict_get (dict_set d k v) k' = Some r'.
Proof.
  induction d as [|[k0 v0] rest IH]; cbn [dict_set dict_get].
  - discriminate.
  - destruct (String.eqb k0 k) eqn:Hk; cbn [dict_get];
      destruct (String.eqb k0 k') eqn:Hk'; eauto.
Qed.

(** ** Phase 2 of the playlist orchestrator *)

Lemma obtain_summary_never_raises (s : Summarizer) (use_summary_cache : bool)
    (video_id title : string) (subtitles : option string) :
  never_raises (obtain_summary E s use_summary_cache video_id title subtitles).
Proof.
  unfold obtain_summary. apply never_raises_bind.
  - destruct use_summary_cache; intros w; eexists _, w; reflexivity.
  - intros [text|]; [apply never_raises_ret|].
    destruct (opt_truthy subtitles); [|apply never_raises_ret].
    apply never_raises_bind; [apply summarize_never_raises|].
    intros summary. apply never_raises_bind; [|intros; apply never_raises_ret].
    intros w. eexists tt, _. reflexivity.
Qed.

Lemma summarize_item_run (s : Summarizer) (use_summary_cache : bool) (out : output)
    (item : prepared_item) (w : world) :
  exists summary w',
    obtain_summary E s use_summary_cache (i_video_id item) (i_title item)
      (Some (i_subtitles item)) w = (Ok summary, w') /\
    summarize_item E s use_summary_cache out item w
    = (Ok (dict_set out (i_indexed_url item)
             {| r_index := i_index item; r_title := i_title item;
                r_summary := summary; r_speakers := None; r_sched_link := None;
                r_event_type := None; r_deck_url := None |}), w').
Proof.
  destruct (obtain_summary_never_raises s use_summary_cache (i_video_id item)
              (i_title item) (Some (i_subtitles item)) w) as (summary & w' & H).
  exists summary, w'. split; [exact H|].
  unfold summarize_item. rewrite bind_run, H. reflexivity.
Qed.

(** Phase 2 returns on every world, with a record under the key of every
    prepared item; keys that were there stay. *)
Lemma summarize_prepared_completes (s : Summarizer) (use_summary_cache : bool)
    (prepared : list prepared_item) :
  forall (out : output) (w : world),
  exists out' w',
    summarize_prepared E s use_summary_cache out prepared w = (Ok out', w') /\
    (forall k r, dict_get out k = Some r -> exists r', dict_get out' k = Some r') /\
    (forall item, In item prepared ->
                  exists r, dict_get out' (i_indexed_url item) = Some r).
Proof.
  induction prepared as [|item rest IH]; intros out w; cbn [summarize_prepared].
  - exists out, w. split; [reflexivity|]. split; [eauto|]. intros item [].
  - rewrite bind_run.
    destruct (summarize_item_run s use_summary_cache out item w)
      as (summary & w1 & _ & ->).
    set (out1 := dict_set out (i_indexed_url item) _).
    destruct (IH out1 w1) as (out' & w' & Hrun & Hkeep & Hnew).
    exists out', w'. split; [exact Hrun|]. split.
    + intros k r Hk.
      destruct (dict_get_set_some out (i_indexed_url item) k
                  {| r_index := i_index item; r_title := i_title item;
                     r_summary := summary; r_speakers := None; r_sched_link := None;
                     r_event_type := None; r_deck_url := None |} r Hk) as [r1 Hr1].
      apply (Hkeep k r1 Hr1).
    + intros item' [<-|Hin]; [|apply Hnew, Hin].
      apply (Hkeep (i_indexed_url item) _ (dict_get_set_eq out _ _)).
Qed.

(** Every record of the output of phase 2 was there before or is the record
    of a prepared item. *)
Lemma summarize_prepared_origin (s : Summarizer) (use_summary_cache : bool)
    (prepared : list prepared_item) :
  forall (out out' : output) (w w' : world),
    summarize_prepared E s use_summary_cache out prepared w = (Ok out', w') ->
    forall u r, In (u, r) out' ->
      In (u, r) out \/
      exists item, In item prepared /\ u = i_indexed_url item /\
                   r_index r = i_index item /\ r_title r = i_title item.
Proof.
  induction prepared as [|item rest IH]; intros out out' w w' Hrun u r Hin;
    cbn [summarize_prepared] in Hrun.
  - left. unfold ret in Hrun. congruence.
  - rewrite bind_run in Hrun.
    destruct (summarize_item_run s use_summary_cache out item w)
      as (summary & w1 & _ & Hitem).
    rewrite Hitem in Hrun.
    destruct (IH _ _ _ _ Hrun u r Hin) as [Hold|(item' & Hi & Hu & Hidx & Ht)].
    + apply dict_set_in in Hold as [Hold|[-> ->]].
      * left. exact Hold.
      * right. exists item. cbn. auto.
    + right. exists item'. cbn. auto.
Qed.

(** ** Backend failures stay inside the summarizer (C5) *)










(** ** Phase 1 of the playlist orchestrator *)

(** A prepared item carries the position, title and URLs of its descriptor,
    which is not too short and whose URL gave the video id. *)
Lemma prepare_video_some (playlist_id : option string) (proxy : bool) (sleep idx : Z)
    (v : video) (item : prepared_item) (w w' : world) :
  prepare_video E playlist_id proxy sleep idx v w = (Ok (Some item), w') ->
  i_index item = idx /\ i_title item = v_title v /\
  i_indexed_url item = indexed_url_of playlist_id idx (v_url v) /\
  too_short (v_duration v) = false /\
  extract_video_id E (v_url v) = Ok (i_video_id item).
Proof.
  unfold prepare_video. destruct (too_short (v_duration v)); [discriminate|].
  rewrite bind_run. unfold try_except_class. rewrite bind_run. unfold lift.
  destruct (extract_video_id E (v_url v)) as [video_id|e].
  - cbn [ret]. rewrite bind_run.
    destruct (courtesy_sleep sleep w) as [[[]|e1] w1]; [|discriminate].
    rewrite bind_run.
    destruct (download_subtitles E video_id proxy w1) as [[subs|e2] w2]; [|discriminate].
    unfold ret. intros [= <- <-]. cbn. auto.
  - destruct (exn_class_eqb (exn_cls e) ValueError); discriminate.
Qed.

(** A descriptor that is too short is passed over with no effect at all:
    no sleep, no transcript request, no prepared item. *)
Lemma prepare_video_short (playlist_id : option string) (proxy : bool) (sleep idx : Z)
    (v : video) (w : world) :
  too_short (v_duration v) = true ->
  prepare_video E playlist_id proxy sleep idx v w = (Ok None, w).
Proof. intros Hshort. unfold prepare_video. rewrite Hshort. reflexivity. Qed.

(** A descriptor that is not too short and whose URL gives a video id is
    prepared: its transcript is asked for. *)
Lemma prepare_video_kept (playlist_id : option string) (proxy : bool) (sleep idx : Z)
    (v : video) (video_id : string) (w : world) :
  too_short (v_duration v) = false ->
  extract_video_id E (v_url v) = Ok video_id ->
  exists item w1 w2 subs,
    prepare_video E playlist_id proxy sleep idx v w = (Ok (Some item), w2) /\
    courtesy_sleep sleep w = (Ok tt, w1) /\
    download_subtitles E video_id proxy w1 = (Ok subs, w2) /\
    i_index item = idx /\
    i_indexed_url item = indexed_url_of playlist_id idx (v_url v).
Proof.
  intros Hshort Hid. unfold prepare_video. rewrite Hshort.
  destruct (courtesy_sleep_never_raises sleep w) as ([] & w1 & Hsleep).
  destruct (download_subtitles_never_raises video_id proxy w1) as (subs & w2 & Hsubs).
  eexists _, w1, w2, subs.
  rewrite bind_run. unfold try_except_class. rewrite bind_run. unfold lift.
  rewrite Hid. cbn [ret]. rewrite bind_run, Hsleep, bind_run, Hsubs.
  repeat split; reflexivity || assumption.
Qed.

(** Every prepared item stems from the descriptor at its position. *)
Lemma fetch_subtitles_origin (playlist_id : option string) (proxy : bool) (sleep : Z)
    (videos : list video) :
  forall (idx : Z) (prepared : list prepared_item) (w w' : world),
    fetch_subtitles E playlist_id proxy sleep idx videos w = (Ok prepared, w') ->
    forall item, In item prepared ->
      exists (i : nat) (v : video),
        videos !! i = Some v /\ i_index item = idx + Z.of_nat i /\
        i_title item = v_title v /\
        i_indexed_url item = indexed_url_of playlist_id (idx + Z.of_nat i) (v_url v) /\
        too_short (v_duration v) = false.
Proof.
  induction videos as [|v rest IH]; intros idx prepared w w' Hrun item Hin;
    cbn [fetch_subtitles] in Hrun.
  - unfold ret in Hrun. injection Hrun as <- <-. destruct Hin.
  - apply bind_ok in Hrun as (first & w1 & Hfirst & Hrun).
    apply bind_ok in Hrun as (others & w2 & Hothers & Hrun).
    unfold ret in Hrun. injection Hrun as <- <-.
    assert (Hrest : In item others ->
              exists (i : nat) (v0 : video),
                (v :: rest) !! i = Some v0 /\ i_index item = idx + Z.of_nat i /\
                i_title item = v_title v0 /\
                i_indexed_url item
                = indexed_url_of playlist_id (idx + Z.of_nat i) (v_url v0) /\
                too_short (v_duration v0) = false).
    { intros Hi. destruct (IH _ _ _ _ Hothers item Hi) as (i & v0 & Hl & Hx & Ht & Hu & Hs).
      exists (S i), v0. replace (idx + Z.of_nat (S i)) with (idx + 1 + Z.of_nat i) by lia.
      auto. }
    destruct first as [item0|]; [|apply Hrest, Hin].
    destruct Hin as [<-|Hin]; [|apply Hrest, Hin].
    apply prepare_video_some in Hfirst as (Hx & Ht & Hu & Hs & _).
    exists 0%nat, v. rewrite Z.add_0_r. auto.
Qed.

(** When phase 1 returns, every descriptor that is not too short and whose
    URL gives a video id has its item. *)
Lemma fetch_subtitles_includes (playlist_id : option string) (proxy : bool) (sleep : Z)
    (videos : list video) :
  forall (idx : Z) (prepared : list prepared_item) (w w' : world),
    fetch_subtitles E playlist_id proxy sleep idx videos w = (Ok prepared, w') ->
    forall (i : nat) (v : video) (video_id : string),
      videos !! i = Some v ->
      too_short (v_duration v) = false ->
      extract_video_id E (v_url v) = Ok video_id ->
      exists item, In item prepared /\ i_index item = idx + Z.of_nat i /\
                   i_indexed_url item
                   = indexed_url_of playlist_id (idx + Z.of_nat i) (v_url v).
Proof.
  induction videos as [|v0 rest IH]; intros idx prepared w w' Hrun i v video_id Hl Hs Hid;
    cbn [fetch_subtitles] in Hrun.
  - rewrite lookup_nil in Hl. discriminate.
  - apply bind_ok in Hrun as (first & w1 & Hfirst & Hrun).
    apply bind_ok in Hrun as (others & w2 & Hothers & Hrun).
    unfold ret in Hrun. injection Hrun as <- <-.
    destruct i as [|i]; cbn in Hl.
    + injection Hl as ->.
      destruct (prepare_video_kept playlist_id proxy sleep idx v video_id w Hs Hid)
        as (item & w1' & w2' & subs & Hprep & _ & _ & Hx & Hu).
      rewrite Hprep in Hfirst. injection Hfirst as <- <-.
      exists item. rewrite Z.add_0_r. split; [left; reflexivity|]. auto.
    + destruct (IH _ _ _ _ Hothers i v video_id Hl Hs Hid) as (item & Hi & Hx & Hu).
      exists item. replace (idx + Z.of_nat (S i)) with (idx + 1 + Z.of_nat i) by lia.
      split; [|auto]. destruct first; [right|]; exact Hi.
Qed.

(** The limited list is a prefix of the discovered one. *)
Lemma apply_limit_lookup {A} (limit : option Z) (l : list A) (i : nat) (x : A) :
  apply_limit limit l !! i = Some x -> l !! i = Some x.
Proof.
  unfold apply_limit. destruct limit as [limit|]; [|auto].
  destruct (0 <? limit) eqn:Hlt; [|auto].
  apply Z.ltb_lt in Hlt. rewrite py_take_nonneg by lia.
  intros H. apply lookup_take_Some in H. tauto.
Qed.

(** What a run of [process_playlist] that returns went through. *)
Lemma process_playlist_ok (playlist_url : string) (summarizer : option Summarizer)
    (limit : option Z) (refresh_cache use_summary_cache proxy : bool) (sleep : Z)
    (videos : list video) (out : output) (w w1 w' : world) :
  discover_playlist E playlist_url refresh_cache w = (Ok (Some videos), w1) ->
  process_playlist E playlist_url summarizer limit refresh_cache use_summary_cache
    proxy sleep w = (Ok out, w') ->
  exists s playlist_id prepared w2,
    playlist_id_of E playlist_url = Ok playlist_id /\
    fetch_subtitles E playlist_id proxy sleep 1 (apply_limit limit videos) w1
    = (Ok prepared, w2) /\
    summarize_prepared E s use_summary_cache [] prepared w2 = (Ok out, w').
Proof.
  intros Hdisc Hrun. unfold process_playlist in Hrun.
  apply bind_ok in Hrun as (s & w0 & Hs & Hrun).
  unfold lift in Hs. injection Hs as Hs <-.
  apply bind_ok in Hrun as (found & w1' & Hfound & Hrun).
  rewrite Hdisc in Hfound. injection Hfound as <- <-.
  apply bind_ok in Hrun as (playlist_id & w1' & Hpid & Hrun).
  unfold lift in Hpid. injection Hpid as Hpid <-.
  apply bind_ok in Hrun as (prepared & w2 & Hprep & Hrun).
  exists s, playlist_id, prepared, w2. auto.
Qed.

(** ** The duration filter (C4) *)

Lemma too_short_true (d : Z) : too_short d = true <-> 0 < d < 120.
Proof.
  unfold too_short. rewrite andb_true_iff, !Z.ltb_lt. tauto.
Qed.

Lemma too_short_false (d : Z) : too_short d = false <-> d <= 0 \/ 120 <= d.
Proof.
  unfold too_short. rewrite andb_false_iff, !Z.ltb_ge. tauto.
Qed.

(** Every record of the mapping [process_playlist] returns is the record of
    the descriptor at position [r_index], which is not too short. *)
Lemma playlist_record_origin (playlist_url : string) (summarizer : option Summarizer)
    (limit : option Z) (refresh_cache use_summary_cache proxy : bool) (sleep : Z)
    (videos : list video) (out : output) (w w1 w' : world) :
  discover_playlist E playlist_url refresh_cache w = (Ok (Some videos), w1) ->
  process_playlist E playlist_url summarizer limit refresh_cache use_summary_cache
    proxy sleep w = (Ok out, w') ->
  forall u r, In (u, r) out ->
    exists (i : nat) (v : video) (playlist_id : option string),
      playlist_id_of E playlist_url = Ok playlist_id /\
      apply_limit limit videos !! i = Some v /\
      r_index r = Z.of_nat i + 1 /\ r_title r = v_title v /\
      u = indexed_url_of playlist_id (Z.of_nat i + 1) (v_url v) /\
      too_short (v_duration v) = false.
Proof.
  intros Hdisc Hrun u r Hin.
  destruct (process_playlist_ok _ _ _ _ _ _ _ _ _ _ _ _ Hdisc Hrun)
    as (s & playlist_id & prepared & w2 & Hpid & Hprep & Hsum).
  destruct (summarize_prepared_origin _ _ _ _ _ _ _ Hsum u r Hin)
    as [[]|(item & Hitem & Hu & Hidx & Ht)].
  destruct (fetch_subtitles_origin _ _ _ _ _ _ _ _ Hprep item Hitem)
    as (i & v & Hl & Hx & Ht' & Hu' & Hs).
  exists i, v, playlist_id.
  replace (Z.of_nat i + 1) with (1 + Z.of_nat i) by lia.
  repeat split; congruence.
Qed.

(** When [process_playlist] returns, the URL of every descriptor of the
    window that is not too short and has a video id is a key of the
    mapping. *)
Lemma playlist_record_included (playlist_url : string) (summarizer : option Summarizer)
    (limit : option Z) (refresh_cache use_summary_cache proxy : bool) (sleep : Z)
    (videos : list video) (out : output) (w w1 w' : world) :
  discover_playlist E playlist_url refresh_cache w = (Ok (Some videos), w1) ->
  process_playlist E playlist_url summarizer limit refresh_cache use_summary_cache
    proxy sleep w = (Ok out, w') ->
  forall (i : nat) (v : video) (video_id : string),
    apply_limit limit videos !! i = Some v ->
    too_short (v_duration v) = false ->
    extract_video_id E (v_url v) = Ok video_id ->
    exists playlist_id r,
      playlist_id_of E playlist_url = Ok playlist_id /\
      dict_get out (indexed_url_of playlist_id (Z.of_nat i + 1) (v_url v)) = Some r.
Proof.
  intros Hdisc Hrun i v video_id Hl Hs Hid.
  destruct (process_playlist_ok _ _ _ _ _ _ _ _ _ _ _ _ Hdisc Hrun)
    as (s & playlist_id & prepared & w2 & Hpid & Hprep & Hsum).
  destruct (fetch_subtitles_includes _ _ _ _ _ _ _ _ Hprep i v video_id Hl Hs Hid)
    as (item & Hitem & _ & Hu).
  destruct (summarize_prepared_completes s use_summary_cache prepared [] w2)
    as (out0 & w0 & Hsum0 & _ & Hkeys).
  rewrite Hsum in Hsum0. injection Hsum0 as <- <-.
  destruct (Hkeys item Hitem) as [r Hr].
  exists playlist_id, r. split; [exact Hpid|].
  replace (Z.of_nat i + 1) with (1 + Z.of_nat i) by lia.
  rewrite <- Hu. exact Hr.
Qed.

(** C4: take a run of [process_playlist] that returns the mapping [out], and
    the descriptor [v] at position [i] (from 0) of its window.  If
    [0 < duration < 120], the phase 1 step for [v] does nothing (no sleep, no
    transcript request, no prepared item), [process_video] on it returns
    [None] with no effect, and no record of [out] has the index of [v].  If [duration = 0] or [duration >= 120], and the URL of [v]
    gives a video id, the phase 1 step for [v] acquires its transcript and
    prepares an item, and the indexed URL of [v] is a key of [out]. *)
Theorem duration_filter (playlist_url : string) (summarizer : option Summarizer)
    (limit : option Z) (refresh_cache use_summary_cache proxy : bool) (sleep : Z)
    (videos : list video) (out : output) (w w1 w' : world) :
  discover_playlist E playlist_url refresh_cache w = (Ok (Some videos), w1) ->
  process_playlist E playlist_url summarizer limit refresh_cache use_summary_cache
    proxy sleep w = (Ok out, w') ->
  forall (i : nat) (v : video),
    apply_limit limit videos !! i = Some v ->
    (0 < v_duration v < 120 ->
     (forall playlist_id w0,
        prepare_video E playlist_id proxy sleep (Z.of_nat i + 1) v w0 = (Ok None, w0)) /\
     (forall index s speakers sched_link w0,
        process_video E (v_url v) index (v_title v) s (v_duration v) speakers sched_link
          use_summary_cache proxy sleep w0 = (Ok None, w0)) /\
     (forall u r, In (u, r) out -> r_index r <> Z.of_nat i + 1)) /\
    (v_duration v = 0 \/ 120 <= v_duration v ->
     forall video_id, extract_video_id E (v_url v) = Ok video_id ->
       (forall playlist_id w0, exists item w2 w3 subs,
          prepare_video E playlist_id proxy sleep (Z.of_nat i + 1) v w0
          = (Ok (Some item), w3) /\
          courtesy_sleep sleep w0 = (Ok tt, w2) /\
          download_subtitles E video_id proxy w2 = (Ok subs, w3) /\
          i_index item = Z.of_nat i + 1) /\
       (exists playlist_id r,
          playlist_id_of E playlist_url = Ok playlist_id /\
          dict_get out (indexed_url_of playlist_id (Z.of_nat i + 1) (v_url v))
          = Some r)).
Proof.
  intros Hdisc Hrun i v Hl. split.
  - intros Hd. apply too_short_true in Hd. split; [|split].
    + intros playlist_id w0. apply prepare_video_short, Hd.
    + intros index s speakers sched_link w0. unfold process_video. rewrite Hd.
      reflexivity.
    + intros u r Hin Hidx.
      destruct (playlist_record_origin _ _ _ _ _ _ _ _ _ _ _ _ Hdisc Hrun u r Hin)
        as (j & v' & pid & _ & Hl' & Hx & _ & _ & Hs).
      assert (j = i) as -> by lia.
      rewrite Hl in Hl'. injection Hl' as <-. congruence.
  - intros Hd video_id Hid.
    assert (Hs : too_short (v_duration v) = false) by (apply too_short_false; lia).
    split.
    + intros playlist_id w0.
      destruct (prepare_video_kept playlist_id proxy sleep (Z.of_nat i + 1) v video_id
                  w0 Hs Hid) as (item & w2 & w3 & subs & H1 & H2 & H3 & H4 & _).
      exists item, w2, w3, subs. auto.
    + eapply playlist_record_included; eassumption.
Qed.

(** ** The index of a record (C8) *)

Lemma description_output_origin (talks : list talk) :
  forall (out : output) (idx : Z) (u : string) (r : talk_record),
    In (u, r) (description_output out idx talks) ->
    In (u, r) out \/
    exists (i : nat) (d : talk),
      talks !! i = Some d /\ r_index r = idx + Z.of_nat i /\
      u = t_youtube_url d /\ r_title r = t_title d.
Proof.
  induction talks as [|d rest IH]; intros out idx u r Hin; cbn [description_output] in Hin.
  - left. exact Hin.
  - destruct (IH _ _ _ _ Hin) as [Hold|(i & d' & Hl & Hx & Hu & Ht)].
    + apply dict_set_in in Hold as [Hold|[-> ->]]; [left; exact Hold|].
      right. exists 0%nat, d. cbn. rewrite Z.add_0_r. auto.
    + right. exists (S i), d'.
      replace (idx + Z.of_nat (S i)) with (idx + 1 + Z.of_nat i) by lia. auto.
Qed.

Lemma process_video_some (video_url : string) (index : Z) (title : string)
    (s : Summarizer) (duration : Z) (speakers sched_link : option string)
    (use_summary_cache proxy : bool) (sleep : Z) (w w' : world) (r : talk_record) :
  process_video E video_url index title s duration speakers sched_link
    use_summary_cache proxy sleep w = (Ok (Some r), w') ->
  r_index r = index /\ r_title r = title.
Proof.
  unfold process_video. destruct (too_short duration); [discriminate|].
  rewrite bind_run. unfold try_except_class. rewrite bind_run. unfold lift.
  destruct (extract_video_id E video_url) as [video_id|e].
  - cbn [ret]. rewrite bind_run.
    destruct (courtesy_sleep sleep w) as [[[]|e1] w1]; [|discriminate].
    rewrite bind_run.
    destruct (download_subtitles E video_id proxy w1) as [[subs|e2] w2]; [|discriminate].
    rewrite bind_run.
    destruct (obtain_summary E s use_summary_cache video_id title subs w2)
      as [[summary|e3] w3]; [|discriminate].
    unfold ret. intros [= <- <-]. cbn. auto.
  - destruct (exn_class_eqb (exn_cls e) ValueError); discriminate.
Qed.

Lemma gather_videos_results (s : Summarizer) (use_summary_cache proxy : bool) (sleep : Z)
    (talks : list talk) :
  forall (idx : Z) (results : list (option talk_record)) (w w' : world),
    gather_videos E s use_summary_cache proxy sleep idx talks w = (Ok results, w') ->
    forall (i : nat) (d : talk) (r : talk_record),
      talks !! i = Some d -> results !! i = Some (Some r) ->
      r_index r = idx + Z.of_nat i /\ r_title r = t_title d.
Proof.
  induction talks as [|d0 rest IH]; intros idx results w w' Hrun i d r Hl Hr;
    cbn [gather_videos] in Hrun.
  - rewrite lookup_nil in Hl. discriminate.
  - apply bind_ok in Hrun as (first & w1 & Hfirst & Hrun).
    apply bind_ok in Hrun as (others & w2 & Hothers & Hrun).
    unfold ret in Hrun. injection Hrun as <- <-.
    destruct i as [|i]; cbn in Hl, Hr.
    + injection Hl as ->. injection Hr as ->.
      apply process_video_some in Hfirst. rewrite Z.add_0_r. exact Hfirst.
    + replace (idx + Z.of_nat (S i)) with (idx + 1 + Z.of_nat i) by lia.
      eapply IH; eassumption.
Qed.

Lemma collect_results_origin (talks : list talk) :
  forall (results : list (option talk_record)) (out : output) (u : string)
         (r : talk_record),
    In (u, r) (collect_results out talks results) ->
    In (u, r) out \/
    exists (i : nat) (d : talk) (res : talk_record),
      talks !! i = Some d /\ results !! i = Some (Some res) /\
      u = t_youtube_url d /\ r = attach d res.
Proof.
  induction talks as [|d rest IH]; intros results out u r Hin;
    cbn [collect_results] in Hin.
  - left. exact Hin.
  - destruct results as [|res results]; [left; exact Hin|].
    destruct (IH _ _ _ _ Hin) as [Hold|(i & d' & res' & Hl & Hr & Hu & Ha)].
    + destruct res as [res|]; [|left; exact Hold].
      apply dict_set_in in Hold as [Hold|[-> ->]]; [left; exact Hold|].
      right. exists 0%nat, d, res. auto.
    + right. exists (S i), d', res'. auto.
Qed.

(** The talks skipped in front of the window. *)
Lemma sched_window_lookup (limit : option Z) (offset : Z) (used_cache : bool)
    (talks : list talk) (j : nat) (d : talk) :
  sched_window limit offset used_cache talks !! j = Some d ->
  exists i : nat,
    talks !! i = Some d /\
    Z.of_nat i = Z.of_nat j + (if used_cache && (0 <? offset) then offset else 0).
Proof.
  unfold sched_window.
  set (dropped := if used_cache && (0 <? offset) then py_drop offset talks else talks).
  assert (Hdropped : forall j, dropped !! j = Some d ->
            exists i : nat, talks !! i = Some d /\
              Z.of_nat i = Z.of_nat j + (if used_cache && (0 <? offset) then offset else 0)).
  { subst dropped. intros j0. destruct (used_cache && (0 <? offset)) eqn:Hb.
    - apply andb_true_iff in Hb as [_ Hb]. apply Z.ltb_lt in Hb.
      rewrite py_drop_nonneg by lia. rewrite lookup_drop. intros Hl.
      exists (Z.to_nat offset + j0)%nat. split; [exact Hl|lia].
    - intros Hl. exists j0. split; [exact Hl|lia]. }
  intros Hl. apply Hdropped.
  destruct limit as [limit|]; [|exact Hl].
  destruct ((0 <? limit) && (limit <? len dropped)) eqn:Hb; [|exact Hl].
  apply andb_true_iff in Hb as [Hb _]. apply Z.ltb_lt in Hb.
  rewrite py_take_nonneg in Hl by lia.
  apply lookup_take_Some in Hl. tauto.
Qed.

(** Every record of the mapping [process_sched_talks] returns is the record
    of the talk at position [r_index] of the window. *)
Lemma sched_record_origin (summarizer : option Summarizer) (summarize : bool)
    (sleep : Z) (use_summary_cache proxy : bool) (talks : list talk)
    (out : output) (w w' : world) :
  build_sched_output E summarizer summarize sleep use_summary_cache proxy talks w
  = (Ok out, w') ->
  forall u r, In (u, r) out ->
    exists (j : nat) (d : talk),
      talks !! j = Some d /\ r_index r = Z.of_nat j + 1 /\
      u = t_youtube_url d /\ r_title r = t_title d.
Proof.
  unfold build_sched_output. destruct summarize; cbn [negb].
  - destruct summarizer as [s|]; [|discriminate].
    intros Hrun u r Hin.
    apply bind_ok in Hrun as (results & w1 & Hgather & Hrun).
    unfold ret in Hrun. injection Hrun as <- <-.
    apply collect_results_origin in Hin as [[]|(j & d & res & Hl & Hr & -> & ->)].
    destruct (gather_videos_results _ _ _ _ _ _ _ _ _ Hgather j d res Hl Hr) as [Hx Ht].
    exists j, d. cbn. repeat split; try assumption. lia.
  - unfold ret. intros [= <- <-] u r Hin.
    apply description_output_origin in Hin as [[]|(j & d & Hl & Hx & Hu & Ht)].
    exists j, d. repeat split; try assumption. lia.
Qed.

(** C8, amended: the index of a record is the rank of its descriptor in the
    window the run processes.  In [process_playlist] that is the order
    index of the descriptor in the discovered list.  In
    [process_sched_talks] the order index is the index plus the offset when
    the talks are served from the cache with a positive offset, and the
    index itself otherwise. *)
Theorem record_index_is_window_rank :
  (forall playlist_url summarizer limit refresh_cache use_summary_cache proxy sleep
          videos out w w1 w',
     discover_playlist E playlist_url refresh_cache w = (Ok (Some videos), w1) ->
     process_playlist E playlist_url summarizer limit refresh_cache use_summary_cache
       proxy sleep w = (Ok out, w') ->
     forall u r, In (u, r) out ->
       exists (i : nat) (v : video),
         videos !! i = Some v /\ r_title r = v_title v /\
         r_index r = order_index i) /\
  (forall sched_url summarizer limit refresh_cache summarize offset sleep
          use_summary_cache proxy talks used_cache out w w1 w',
     discover_sched E sched_url limit refresh_cache offset sleep w
     = (Ok (talks, used_cache), w1) ->
     process_sched_talks E sched_url summarizer limit refresh_cache summarize offset
       sleep use_summary_cache proxy w = (Ok out, w') ->
     forall u r, In (u, r) out ->
       exists (i : nat) (d : talk),
         talks !! i = Some d /\ u = t_youtube_url d /\ r_title r = t_title d /\
         order_index i
         = r_index r + (if used_cache && (0 <? offset) then offset else 0)).
Proof.
  split.
  - intros playlist_url summarizer limit refresh_cache use_summary_cache proxy sleep
      videos out w w1 w' Hdisc Hrun u r Hin.
    destruct (playlist_record_origin _ _ _ _ _ _ _ _ _ _ _ _ Hdisc Hrun u r Hin)
      as (i & v & pid & _ & Hl & Hx & Ht & _ & _).
    exists i, v. apply apply_limit_lookup in Hl. unfold order_index. auto.
  - intros sched_url summarizer limit refresh_cache enabled offset sleep
      use_summary_cache proxy talks used_cache out w w1 w' Hdisc Hrun u r Hin.
    unfold process_sched_talks in Hrun.
    apply bind_ok in Hrun as (s & w0 & Hs & Hrun).
    unfold lift in Hs. injection Hs as Hs <-.
    apply bind_ok in Hrun as (found & w1' & Hfound & Hrun).
    rewrite Hdisc in Hfound. injection Hfound as <- <-.
    cbn iota in Hrun. case_bool_decide as Hnil.
    + unfold ret in Hrun. injection Hrun as <- <-. destruct Hin.
    + destruct (sched_record_origin _ _ _ _ _ _ _ _ _ Hrun u r Hin)
        as (j & d & Hl & Hx & Hu & Ht).
      apply sched_window_lookup in Hl as (i & Hl & Hi).
      exists i, d. unfold order_index. repeat split; try assumption. lia.
Qed.

(** ** Refresh and the source-list caches (C3) *)

Lemma summarize_keeps_json (s : Summarizer) (text title : string) :
  keeps_json (summarize E s text title).
Proof. apply only_interacts_keeps_json, summarize_only_interacts. Qed.

Lemma courtesy_sleep_keeps_json (sleep : Z) : keeps_json (courtesy_sleep sleep).
Proof. apply only_interacts_keeps_json, courtesy_sleep_only_interacts. Qed.

Lemma download_subtitles_keeps_json (video_id : string) (proxy : bool) :
  keeps_json (download_subtitles E video_id proxy).
Proof.
  unfold download_subtitles, _download_subtitles_sync, load_subtitle_cache,
    save_subtitle_cache.
  auto 10 with json.
Qed.

Lemma obtain_summary_keeps_json (s : Summarizer) (use_summary_cache : bool)
    (video_id title : string) (subtitles : option string) :
  keeps_json (obtain_summary E s use_summary_cache video_id title subtitles).
Proof.
  unfold obtain_summary, load_summary_cache, save_summary_cache.
  pose proof summarize_keeps_json. auto 10 with json.
Qed.

Lemma prepare_video_keeps_json (playlist_id : option string) (proxy : bool)
    (sleep idx : Z) (v : video) :
  keeps_json (prepare_video E playlist_id proxy sleep idx v).
Proof.
  unfold prepare_video.
  pose proof courtesy_sleep_keeps_json. pose proof download_subtitles_keeps_json.
  auto 10 with json.
Qed.

Lemma fetch_subtitles_keeps_json (playlist_id : option string) (proxy : bool)
    (sleep : Z) (videos : list video) :
  forall idx, keeps_json (fetch_subtitles E playlist_id proxy sleep idx videos).
Proof.
  induction videos as [|v rest IH]; intros idx; cbn [fetch_subtitles].
  - auto with json.
  - pose proof prepare_video_keeps_json. auto 10 with json.
Qed.

Lemma summarize_prepared_keeps_json (s : Summarizer) (use_summary_cache : bool)
    (prepared : list prepared_item) :
  forall out, keeps_json (summarize_prepared E s use_summary_cache out prepared).
Proof.
  induction prepared as [|item rest IH]; intros out; cbn [summarize_prepared].
  - auto with json.
  - unfold summarize_item. pose proof obtain_summary_keeps_json. auto 10 with json.
Qed.

Lemma process_video_keeps_json (video_url : string) (index : Z) (title : string)
    (s : Summarizer) (duration : Z) (speakers sched_link : option string)
    (use_summary_cache proxy : bool) (sleep : Z) :
  keeps_json (process_video E video_url index title s duration speakers sched_link
                use_summary_cache proxy sleep).
Proof.
  unfold process_video.
  pose proof courtesy_sleep_keeps_json. pose proof download_subtitles_keeps_json.
  pose proof obtain_summary_keeps_json.
  auto 10 with json.
Qed.

Lemma gather_videos_keeps_json (s : Summarizer) (use_summary_cache proxy : bool)
    (sleep : Z) (talks : list talk) :
  forall idx, keeps_json (gather_videos E s use_summary_cache proxy sleep idx talks).
Proof.
  induction talks as [|d rest IH]; intros idx; cbn [gather_videos].
  - auto with json.
  - pose proof process_video_keeps_json. auto 10 with json.
Qed.

Lemma build_sched_output_keeps_json (summarizer : option Summarizer) (summarize : bool)
    (sleep : Z) (use_summary_cache proxy : bool) (talks : list talk) :
  keeps_json (build_sched_output E summarizer summarize sleep use_summary_cache proxy
                talks).
Proof.
  unfold build_sched_output. pose proof gather_videos_keeps_json.
  destruct summarize; cbn [negb]; [destruct summarizer|]; auto 10 with json.
Qed.

Lemma scrape_loop_keeps_json (limit : option Z) (sleep : Z) (sched_links : list string) :
  forall current_offset talks,
    keeps_json (scrape_loop E limit sleep current_offset sched_links talks).
Proof.
  induction sched_links as [|link rest IH]; intros current_offset talks;
    cbn [scrape_loop].
  - auto with json.
  - pose proof courtesy_sleep_keeps_json. destruct (0 <? current_offset); [apply IH|].
    auto 10 with json.
Qed.

Lemma scrape_keeps_json (sched_url : string) (limit : option Z) (sleep offset : Z) :
  keeps_json (scrape_sched_talks_async E sched_url limit sleep offset).
Proof.
  unfold scrape_sched_talks_async. pose proof scrape_loop_keeps_json.
  auto 10 with json.
Qed.

(** With a refresh requested, the discovery step is the scraper: the
    record is not read, and not written. *)
Lemma discover_sched_bypasses (sched_url : string) (limit : option Z) (offset sleep : Z)
    (w : world) :
  discover_sched E sched_url limit true offset sleep w
  = (match fst (scrape_sched_talks_async E sched_url (fetch_limit limit) sleep offset w) with
     | Ok talks => Ok (talks, false)
     | Raise e => Raise e
     end,
     snd (scrape_sched_talks_async E sched_url (fetch_limit limit) sleep offset w)).
Proof.
  unfold discover_sched. cbn [negb]. rewrite bind_run. cbn [ret]. rewrite bind_run.
  destruct (scrape_sched_talks_async E sched_url (fetch_limit limit) sleep offset w)
    as [[talks|e] w1]; [|reflexivity].
  rewrite andb_false_r. reflexivity.
Qed.

(** The discovery step changes a JSON record only without refresh, on a
    miss, with offset 0, when the scraper finds talks: the record of the
    schedule then holds them. *)
Lemma discover_sched_writes_only (sched_url : string) (limit : option Z)
    (refresh_cache : bool) (offset sleep : Z) (w : world) :
  json_files (snd (discover_sched E sched_url limit refresh_cache offset sleep w))
  <> json_files w ->
  refresh_cache = false /\ offset = 0 /\
  (forall cached, json_files w !! get_sched_cache_path E sched_url <> Some (JTalks cached)) /\
  exists talks w1,
    scrape_sched_talks_async E sched_url (fetch_limit limit) sleep 0 w = (Ok talks, w1) /\
    talks <> [] /\
    json_files (snd (discover_sched E sched_url limit refresh_cache offset sleep w))
    = <[get_sched_cache_path E sched_url := JTalks talks]> (json_files w).
Proof.
  pose proof (scrape_keeps_json sched_url (fetch_limit limit) sleep offset w) as Hkeep.
  assert (Hsame : forall {A} (x y : A), x = y -> x <> y -> False) by auto.
  unfold discover_sched.
  destruct refresh_cache; cbn [negb].
  { rewrite bind_run. cbn [ret]. rewrite bind_run.
    destruct (scrape_sched_talks_async E sched_url (fetch_limit limit) sleep offset w)
      as [[talks|e] w1]; cbn [snd] in *.
    - rewrite andb_false_r, bind_run. cbn [ret snd].
      intros Hne. exfalso. exact (Hsame _ _ _ Hkeep Hne).
    - intros Hne. exfalso. exact (Hsame _ _ _ Hkeep Hne). }
  rewrite bind_run. unfold load_sched_cache, read_json. rewrite bind_run. cbn [fst snd].
  assert (Hscraped :
    json_files
      (snd ((talks <- scrape_sched_talks_async E sched_url (fetch_limit limit) sleep offset ;;
             (if negb (bool_decide (talks = [])) && true && (offset =? 0)
              then save_sched_cache E sched_url talks else ret tt) ;;;
             ret (talks, false)) w)) <> json_files w ->
    offset = 0 /\
    exists talks w1,
      scrape_sched_talks_async E sched_url (fetch_limit limit) sleep 0 w = (Ok talks, w1) /\
      talks <> [] /\
      json_files
        (snd ((talks <- scrape_sched_talks_async E sched_url (fetch_limit limit) sleep offset ;;
               (if negb (bool_decide (talks = [])) && true && (offset =? 0)
                then save_sched_cache E sched_url talks else ret tt) ;;;
               ret (talks, false)) w))
      = <[get_sched_cache_path E sched_url := JTalks talks]> (json_files w)).
  { rewrite bind_run.
    destruct (scrape_sched_talks_async E sched_url (fetch_limit limit) sleep offset w)
      as [[talks|e] w1] eqn:Hscrape; cbn [snd] in Hkeep |- *;
      [|intros Hne; exfalso; exact (Hsame _ _ _ Hkeep Hne)].
    rewrite andb_true_r.
    destruct (bool_decide (talks = [])) eqn:Hnil; cbn [negb andb].
    { rewrite bind_run. cbn [ret snd]. intros Hne. exfalso. exact (Hsame _ _ _ Hkeep Hne). }
    destruct (offset =? 0) eqn:Hoff.
    2:{ rewrite bind_run. cbn [ret snd]. intros Hne. exfalso.
        exact (Hsame _ _ _ Hkeep Hne). }
    apply Z.eqb_eq in Hoff. subst offset. apply bool_decide_eq_false in Hnil.
    intros _. split; [reflexivity|]. exists talks, w1.
    split; [exact Hscrape|]. split; [exact Hnil|].
    rewrite bind_run. unfold save_sched_cache, write_json. cbn [ret snd json_files].
    rewrite Hkeep. reflexivity. }
  destruct (json_files w !! get_sched_cache_path E sched_url) as [[l|cached|]|] eqn:Hrec;
    cbn [ret].
  2: intros Hne; exfalso; apply Hne; reflexivity.
  all: intros Hne; destruct (Hscraped Hne) as (Hoff & talks & w1 & Hs & Hnil & Hjson);
    (split; [reflexivity|]); (split; [exact Hoff|]);
    (split; [intros cached'; congruence|]);
    exists talks, w1; (split; [exact Hs|]); (split; [exact Hnil | exact Hjson]).
Qed.

(** C3, amended: with a refresh requested, [process_playlist] does not read
    the cached playlist record and, when the extraction succeeds, overwrites
    it with the fresh descriptors, which is the record the run leaves.
    With a refresh requested, [process_sched_talks] does not read the cached
    schedule record either (its discovery step is the scraper, whatever the
    record holds), but it never writes it: the run leaves every JSON record
    as it was.  A run of [process_sched_talks] changes a JSON record only
    without refresh, on a cache miss, with offset 0, when the scraper finds
    talks; the record of the schedule then holds these talks, and it is
    written in each such run. *)
Theorem refresh_and_source_list_cache :
  (forall playlist_url summarizer s limit use_summary_cache proxy sleep entries w,
     summarizer_or_default E summarizer = Ok s ->
     extract_info E (now w) playlist_url = Ok (Some entries) ->
     discover_playlist E playlist_url true w
     = (Ok (Some (videos_of_entries entries)),
        World (text_files w)
          (<[get_playlist_cache_path E playlist_url := JVideos (videos_of_entries entries)]>
             (json_files w))
          (trace w ++ [EvExtractInfo playlist_url])) /\
     json_files
       (snd (process_playlist E playlist_url summarizer limit true use_summary_cache
               proxy sleep w))
     !! get_playlist_cache_path E playlist_url
     = Some (JVideos (videos_of_entries entries))) /\
  (forall sched_url summarizer limit summarize offset sleep use_summary_cache proxy w,
     discover_sched E sched_url limit true offset sleep w
     = (match fst (scrape_sched_talks_async E sched_url (fetch_limit limit) sleep offset w)
        with
        | Ok talks => Ok (talks, false)
        | Raise e => Raise e
        end,
        snd (scrape_sched_talks_async E sched_url (fetch_limit limit) sleep offset w)) /\
     json_files
       (snd (process_sched_talks E sched_url summarizer limit true summarize offset
               sleep use_summary_cache proxy w))
     = json_files w) /\
  (forall sched_url summarizer limit refresh_cache summarize offset sleep
          use_summary_cache proxy w,
     json_files
       (snd (process_sched_talks E sched_url summarizer limit refresh_cache summarize
               offset sleep use_summary_cache proxy w))
     <> json_files w ->
     refresh_cache = false /\ offset = 0 /\
     (forall cached,
        json_files w !! get_sched_cache_path E sched_url <> Some (JTalks cached)) /\
     exists talks w1,
       scrape_sched_talks_async E sched_url (fetch_limit limit) sleep 0 w = (Ok talks, w1) /\
       talks <> [] /\
       json_files
         (snd (process_sched_talks E sched_url summarizer limit refresh_cache summarize
                 offset sleep use_summary_cache proxy w))
       = <[get_sched_cache_path E sched_url := JTalks talks]> (json_files w)) /\
  (forall sched_url summarizer s limit summarize sleep use_summary_cache proxy talks w w1,
     sched_summarizer E summarizer summarize = Ok s ->
     (forall cached,
        json_files w !! get_sched_cache_path E sched_url <> Some (JTalks cached)) ->
     scrape_sched_talks_async E sched_url (fetch_limit limit) sleep 0 w = (Ok talks, w1) ->
     talks <> [] ->
     discover_sched E sched_url limit false 0 sleep w
     = (Ok (talks, false),
        World (text_files w1)
          (<[get_sched_cache_path E sched_url := JTalks talks]> (json_files w1))
          (trace w1)) /\
     json_files
       (snd (process_sched_talks E sched_url summarizer limit false summarize 0 sleep
               use_summary_cache proxy w))
     = <[get_sched_cache_path E sched_url := JTalks talks]> (json_files w)).
Proof.
  assert (Hrest : forall sched_url summarizer limit refresh_cache summarize offset sleep
                         use_summary_cache proxy w,
            json_files
              (snd (process_sched_talks E sched_url summarizer limit refresh_cache
                      summarize offset sleep use_summary_cache proxy w))
            = json_files w \/
            json_files
              (snd (process_sched_talks E sched_url summarizer limit refresh_cache
                      summarize offset sleep use_summary_cache proxy w))
            = json_files
                (snd (discover_sched E sched_url limit refresh_cache offset sleep w))).
  { intros sched_url summarizer limit refresh_cache enabled offset sleep
      use_summary_cache proxy w.
    unfold process_sched_talks. rewrite bind_run. unfold lift.
    destruct (sched_summarizer E summarizer enabled) as [s|e]; [|left; reflexivity].
    rewrite bind_run.
    destruct (discover_sched E sched_url limit refresh_cache offset sleep w)
      as [[[talks used]|e] w1]; [|right; reflexivity].
    cbn [snd]. case_bool_decide; [right; reflexivity|].
    rewrite build_sched_output_keeps_json. right. reflexivity. }
  split; [|split; [|split]].
  - intros playlist_url summarizer s limit use_summary_cache proxy sleep entries w
      Hs Hinfo.
    assert (Hdisc : discover_playlist E playlist_url true w
      = (Ok (Some (videos_of_entries entries)),
         World (text_files w)
           (<[get_playlist_cache_path E playlist_url
              := JVideos (videos_of_entries entries)]> (json_files w))
           (trace w ++ [EvExtractInfo playlist_url]))).
    { unfold discover_playlist. rewrite bind_run. cbn [ret].
      unfold try_except. rewrite !bind_run. cbn [interact]. unfold lift.
      rewrite Hinfo. reflexivity. }
    split; [exact Hdisc|].
    unfold process_playlist. rewrite bind_run. unfold lift. rewrite Hs.
    rewrite bind_run, Hdisc.
    match goal with |- json_files (snd (?m ?w1)) !! _ = _ =>
      assert (Hkeep : keeps_json m) end.
    { pose proof fetch_subtitles_keeps_json.
      pose proof summarize_prepared_keeps_json.
      apply keeps_json_bind; [intros w0; reflexivity|]. intros playlist_id.
      auto 10 with json. }
    rewrite Hkeep. cbn [json_files]. apply lookup_insert_eq.
  - intros sched_url summarizer limit enabled offset sleep use_summary_cache proxy w.
    split; [apply discover_sched_bypasses|].
    destruct (Hrest sched_url summarizer limit true enabled offset sleep
                use_summary_cache proxy w) as [H|H]; [exact H|].
    rewrite H, discover_sched_bypasses. cbn [snd]. apply scrape_keeps_json.
  - intros sched_url summarizer limit refresh_cache enabled offset sleep
      use_summary_cache proxy w Hne.
    destruct (Hrest sched_url summarizer limit refresh_cache enabled offset sleep
                use_summary_cache proxy w) as [H|H]; [contradiction|].
    rewrite H in Hne |- *. apply discover_sched_writes_only. exact Hne.
  - intros sched_url summarizer s limit enabled sleep use_summary_cache proxy talks w w1
      Hs Hmiss Hscrape Hne.
    assert (Hdisc : discover_sched E sched_url limit false 0 sleep w
      = (Ok (talks, false),
         World (text_files w1)
           (<[get_sched_cache_path E sched_url := JTalks talks]> (json_files w1))
           (trace w1))).
    { unfold discover_sched. cbn [negb]. rewrite bind_run.
      unfold load_sched_cache, read_json. rewrite bind_run. cbn [fst snd].
      destruct (json_files w !! get_sched_cache_path E sched_url) as [[l|cached|]|] eqn:Hrec;
        try (exfalso; apply (Hmiss cached); reflexivity);
        cbn [ret]; rewrite bind_run, Hscrape;
        rewrite bool_decide_eq_false_2 by exact Hne; reflexivity. }
    split; [exact Hdisc|].
    pose proof (scrape_keeps_json sched_url (fetch_limit limit) sleep 0 w) as Hkeep.
    rewrite Hscrape in Hkeep. cbn [snd] in Hkeep.
    unfold process_sched_talks. rewrite bind_run. unfold lift. rewrite Hs.
    rewrite bind_run, Hdisc.
    rewrite bool_decide_eq_false_2 by exact Hne.
    rewrite build_sched_output_keeps_json. cbn [json_files]. rewrite Hkeep. reflexivity.
Qed.

(** ** Serialized calls of the Ollama variant (C9) *)

Import EventLoop.

(** Replacing one task changes a count by what the old and the new task
    weigh. *)
Lemma weigh_insert {A} (f : A -> nat) (l : list A) :
  forall (i : nat) (old new : A),
    l !! i = Some old ->
    (weigh f (<[i := new]> l) + f old = weigh f l + f new)%nat.
Proof.
  induction l as [|x rest IH]; intros i old new Hl.
  - rewrite lookup_nil in Hl. discriminate.
  - destruct i as [|i].
    + change ((x :: rest) !! 0%nat) with (Some x) in Hl. injection Hl as ->.
      change (<[0%nat := new]> (old :: rest)) with (new :: rest).
      cbn [weigh]. lia.
    + change ((x :: rest) !! S i) with (rest !! i) in Hl.
      change (<[S i := new]> (x :: rest)) with (x :: <[i := new]> rest).
      cbn [weigh]. specialize (IH i old new Hl). lia.
Qed.

(** An invocation that starts on a free lock takes it and sends its
    request; what is left of it returns the reply made of the answer and
    frees the lock. *)
Lemma summarize_starts_reply (s : Summarizer) (text title : string) (w : world) :
  _lock s = true ->
  exists c,
    advance (ollama_summarize E s text title) false w
    = (InFlight c, true, after w [EvChat s (build_prompt s text title)]) /\
    forall held w',
      advance c held w'
      = (Finished (Ok (ollama_reply (ollama_chat E (now w) s (build_prompt s text title)))),
         false, w').
Proof.
  intros Hlock. unfold ollama_summarize. rewrite Hlock.
  unfold async_with_lock, ollama_summarize_once, co_try, co_bind, co_interact, co_lift,
    co_ret.
  cbn [advance co_then]. eexists. split; [reflexivity|].
  intros held w'.
  destruct (ollama_chat E (now w) s (build_prompt s text title)) as [[c|]|e];
    cbn [co_then advance ollama_reply]; try destruct (strip_truthy c);
    cbn [co_then advance]; reflexivity.
Qed.

Lemma summarize_starts (s : Summarizer) (text title : string) (w : world) :
  _lock s = true ->
  exists c,
    advance (ollama_summarize E s text title) false w
    = (InFlight c, true,
       World (text_files w) (json_files w)
         (trace w ++ [EvChat s (build_prompt s text title)])) /\
    finishing c.
Proof.
  intros Hlock. destruct (summarize_starts_reply s text title w Hlock) as (c & Hc & Hr).
  exists c. split; [exact Hc|]. intros held w'. eexists. apply Hr.
Qed.

(** What is left of an invocation suspended in [acquire]: with the lock,
    it sends its request, and then returns the reply and frees the lock. *)
Lemma summarize_enters_reply (s : Summarizer) (text title : string) (w : world) :
  exists c,
    advance (co_then (ollama_summarize_once E s text title)
               (fun r => CoRelease (CoDone r))) true w
    = (InFlight c, true, after w [EvChat s (build_prompt s text title)]) /\
    forall held w',
      advance c held w'
      = (Finished (Ok (ollama_reply (ollama_chat E (now w) s (build_prompt s text title)))),
         false, w').
Proof.
  unfold ollama_summarize_once, co_try, co_bind, co_interact, co_lift, co_ret.
  cbn [advance co_then]. eexists. split; [reflexivity|].
  intros held w'.
  destruct (ollama_chat E (now w) s (build_prompt s text title)) as [[c|]|e];
    cbn [co_then advance ollama_reply]; try destruct (strip_truthy c);
    cbn [co_then advance]; reflexivity.
Qed.

(** Without lock an invocation sends its request whatever the others do,
    and what is left of it returns the reply. *)
Lemma summarize_unlocked (s : Summarizer) (text title : string) (held : bool)
    (w : world) :
  _lock s = false ->
  exists c,
    advance (ollama_summarize E s text title) held w
    = (InFlight c, held, after w [EvChat s (build_prompt s text title)]) /\
    forall held' w',
      advance c held' w'
      = (Finished (Ok (ollama_reply (ollama_chat E (now w) s (build_prompt s text title)))),
         held', w').
Proof.
  intros Hlock. unfold ollama_summarize. rewrite Hlock.
  unfold ollama_summarize_once, co_try, co_bind, co_interact, co_lift, co_ret.
  cbn [advance co_then]. eexists. split; [reflexivity|].
  intros held' w'.
  destruct (ollama_chat E (now w) s (build_prompt s text title)) as [[c|]|e];
    cbn [co_then advance ollama_reply]; try destruct (strip_truthy c);
    cbn [co_then advance]; reflexivity.
Qed.

(** An invocation alone in the loop, resumed until it is over, is the
    invocation that the orchestrators await. *)
Lemma alone_in_the_loop (s : Summarizer) (text title : string) (w : world) :
  run [0; 0]%nat (init E s [(text, title)] w)
  = State false (snd (run_alone (ollama_summarize E s text title) w))
      [Finished (fst (run_alone (ollama_summarize E s text title) w))].
Proof.
  rewrite ollama_summarize_alone. cbn [fst snd].
  unfold run, init. cbn [fold_left map fst snd].
  unfold resume at 2. cbn [tasks locked world_of].
  change ((?a :: ?l) !! 0%nat) with (Some a). cbn iota.
  destruct (_lock s) eqn:Hlock.
  - destruct (summarize_starts_reply s text title w Hlock) as (c & -> & Hreply).
    unfold settle. cbn [fst snd tasks locked world_of].
    change (<[0%nat := ?x]> (?a :: ?l)) with (x :: l).
    unfold resume. cbn [tasks locked world_of].
    change ((?a :: ?l) !! 0%nat) with (Some a). cbn iota.
    rewrite Hreply. reflexivity.
  - destruct (summarize_unlocked s text title false w Hlock) as (c & -> & Hreply).
    unfold settle. cbn [fst snd tasks locked world_of].
    change (<[0%nat := ?x]> (?a :: ?l)) with (x :: l).
    unfold resume. cbn [tasks locked world_of].
    change ((?a :: ?l) !! 0%nat) with (Some a). cbn iota.
    rewrite Hreply. reflexivity.
Qed.

(** An invocation that starts on a held lock is suspended in [acquire]. *)
Lemma summarize_blocked (s : Summarizer) (text title : string) (w : world) :
  _lock s = true ->
  advance (ollama_summarize E s text title) true w
  = (Blocked (co_then (ollama_summarize_once E s text title)
                (fun r => CoRelease (CoDone r))), true, w).
Proof. intros Hlock. unfold ollama_summarize. rewrite Hlock. reflexivity. Qed.

(** What is left of it enters once it has the lock. *)
Lemma summarize_waits (s : Summarizer) (text title : string) (w : world) :
  _lock s = true ->
  exists c,
    advance (ollama_summarize E s text title) true w = (Blocked c, true, w) /\
    entering s c.
Proof.
  intros Hlock. unfold ollama_summarize. rewrite Hlock.
  unfold async_with_lock. cbn [advance]. eexists. split; [reflexivity|].
  intros w'.
  unfold ollama_summarize_once, co_try, co_bind, co_interact, co_lift, co_ret.
  cbn [advance co_then]. eexists _, _. split; [reflexivity|].
  intros held w''.
  destruct (ollama_chat E (now w') s (build_prompt s text title)) as [[c|]|e];
    cbn [co_then advance]; try destruct (strip_truthy c); cbn [co_then advance];
    eexists; reflexivity.
Qed.

Lemma init_invariant (s : Summarizer) (calls : list (string * string)) (w : world) :
  loop_invariant E s w (init E s calls w).
Proof.
  unfold loop_invariant, init, in_flight, finished. cbn [tasks locked world_of].
  split; [|split].
  - apply Forall_forall. intros t Ht. apply list_elem_of_In, in_map_iff in Ht.
    destruct Ht as [call [<- _]]. cbn. eauto.
  - induction calls as [|call rest IH]; [reflexivity | exact IH].
  - exists []. rewrite app_nil_r. split; [destruct w; reflexivity|].
    split; [|constructor].
    induction calls as [|call rest IH]; [reflexivity | exact IH].
Qed.

Lemma resume_invariant (s : Summarizer) (w0 : world) (i : nat) (st : state) :
  _lock s = true -> loop_invariant E s w0 st -> loop_invariant E s w0 (resume i st).
Proof.
  intros Hlock (Hok & Hflight & evs & Hw & Hlen & Hevs).
  unfold resume.
  destruct (tasks st !! i) as [t|] eqn:Hi; [|repeat split; eauto].
  pose proof (proj1 (Forall_forall _ _) Hok t) as Ht.
  assert (Hin : t ∈ tasks st) by (eapply list_elem_of_lookup_2; exact Hi).
  specialize (Ht Hin).
  assert (Hset : forall t', task_ok E s t' -> Forall (task_ok E s) (<[i := t']> (tasks st))).
  { intros t' Ht'. apply Forall_insert; assumption. }
  pose proof (fun new => weigh_insert in_flight_weight (tasks st) i t new Hi) as Hf.
  pose proof (fun new => weigh_insert finished_weight (tasks st) i t new Hi) as Hd.
  unfold loop_invariant, in_flight, finished in *.
  destruct t as [c|c|c|r]; cbn [task_ok] in Ht.
  - destruct Ht as (text & title & ->).
    destruct (locked st) eqn:Hl.
    + destruct (summarize_waits s text title (world_of st) Hlock) as (c & -> & Hc).
      unfold settle. cbn [fst snd tasks locked world_of].
      specialize (Hf (Blocked c)). specialize (Hd (Blocked c)).
      cbn [in_flight_weight finished_weight] in Hf, Hd.
      split; [apply Hset; exact Hc|]. split; [lia|].
      exists evs. split; [exact Hw|]. split; [lia | exact Hevs].
    + destruct (summarize_starts s text title (world_of st) Hlock) as (c & -> & Hc).
      unfold settle. cbn [fst snd tasks locked world_of].
      specialize (Hf (InFlight c)). specialize (Hd (InFlight c)).
      cbn [in_flight_weight finished_weight] in Hf, Hd.
      split; [apply Hset; exact Hc|]. split; [lia|].
      exists (evs ++ [EvChat s (build_prompt s text title)])%list.
      rewrite Hw. cbn [text_files json_files trace]. rewrite app_assoc.
      split; [reflexivity|]. split; [rewrite length_app; cbn [length]; lia|].
      apply Forall_app. split; [exact Hevs|]. constructor; [eauto | constructor].
  - destruct (Ht (locked st) (world_of st)) as [r ->].
    unfold settle. cbn [fst snd tasks locked world_of].
    specialize (Hf (Finished (Ok r))). specialize (Hd (Finished (Ok r))).
    cbn [in_flight_weight finished_weight] in Hf, Hd.
    split; [apply Hset; exact I|].
    destruct (locked st); split; try lia; exists evs; (split; [exact Hw|]);
      (split; [lia | exact Hevs]).
  - destruct (locked st) eqn:Hl.
    + split; [exact Hok|]. rewrite Hl. split; [exact Hflight|]. eauto.
    + destruct (Ht (world_of st)) as (c' & p & -> & Hc).
      unfold settle. cbn [fst snd tasks locked world_of].
      specialize (Hf (InFlight c')). specialize (Hd (InFlight c')).
      cbn [in_flight_weight finished_weight] in Hf, Hd.
      split; [apply Hset; exact Hc|]. split; [lia|].
      exists (evs ++ [EvChat s p])%list.
      rewrite Hw. cbn [text_files json_files trace]. rewrite app_assoc.
      split; [reflexivity|]. split; [rewrite length_app; cbn [length]; lia|].
      apply Forall_app. split; [exact Hevs|]. constructor; [eauto | constructor].
  - split; [exact Hok|]. split; [exact Hflight|]. eauto.
Qed.

Lemma run_invariant (s : Summarizer) (w0 : world) (schedule : list nat) :
  _lock s = true ->
  forall st, loop_invariant E s w0 st -> loop_invariant E s w0 (run schedule st).
Proof.
  intros Hlock. unfold run.
  induction schedule as [|i rest IH]; intros st Hinv; cbn [fold_left].
  - exact Hinv.
  - apply IH, resume_invariant; assumption.
Qed.

(** At most one request in flight: two tasks in flight are the same task. *)
Lemma in_flight_unique (l : list (task string)) (i j : nat) (c c' : co string) :
  (weigh in_flight_weight l <= 1)%nat ->
  l !! i = Some (InFlight c) -> l !! j = Some (InFlight c') -> i = j.
Proof.
  intros Hle Hi Hj. destruct (decide (i = j)) as [|Hne]; [assumption|exfalso].
  pose proof (weigh_insert in_flight_weight l i _ (Finished (Ok "")) Hi) as H1.
  assert (Hj' : <[i := Finished (Ok "")]> l !! j = Some (InFlight c'))
    by (rewrite list_lookup_insert_ne; assumption).
  pose proof (weigh_insert in_flight_weight _ j _ (Finished (Ok "")) Hj') as H2.
  cbn [in_flight_weight] in H1, H2. lia.
Qed.

(** The events of a list of requests are its backend calls. *)
Lemma chat_count_requests (s : Summarizer) (evs : list event) :
  Forall (fun ev => exists p, ev = EvChat s p) evs -> chat_count evs = length evs.
Proof.
  induction 1 as [|ev evs [p ->] _ IH]; [reflexivity|]. cbn. rewrite IH. reflexivity.
Qed.

(** C9: an Ollama summarizer built in sequential mode (by the constructor
    flag or by the environment toggle) owns a lock.  Then, for any number
    of [summarize] invocations on the instance, resumed by the event loop
    in any order: two invocations whose request is in flight are the same
    invocation; the only interactions are requests to the server, and the
    requests sent are those of the invocations that are over and the one in
    flight, so a request goes out only when every earlier one has been
    answered.  Of two invocations started together, the second stays
    suspended in [acquire], its request not sent, while the first is in
    flight, and sends its request once the first has returned.  Built with
    sequential mode off, the instance has no lock, and the requests of two
    invocations are in flight together.  In both modes an invocation that
    is alone in the loop does what [summarize] does in the orchestrators. *)
Theorem sequential_calls_exclusive (model : string) (sequential : bool) (target : Z)
    (s : Summarizer) :
  s = OllamaSummarizer_init E model sequential target ->
  (forall (text title : string) (w : world),
     run [0; 0]%nat (init E s [(text, title)] w)
     = State false (snd (summarize E s text title w))
         [Finished (fst (summarize E s text title w))]) /\
  (sequential = true \/ env_seq E = true ->
   _lock s = true /\
   (forall (calls : list (string * string)) (schedule : list nat) (w : world),
      (forall (i j : nat) (c c' : co string),
         tasks (run schedule (init E s calls w)) !! i = Some (InFlight c) ->
         tasks (run schedule (init E s calls w)) !! j = Some (InFlight c') ->
         i = j) /\
      exists evs,
        world_of (run schedule (init E s calls w)) = after w evs /\
        length evs = chat_count evs /\
        chat_count evs = (finished (run schedule (init E s calls w))
                          + in_flight (run schedule (init E s calls w)))%nat /\
        (in_flight (run schedule (init E s calls w)) <= 1)%nat) /\
   (forall (text1 title1 text2 title2 : string) (w : world),
      exists c c',
        run [0; 1; 1]%nat (init E s [(text1, title1); (text2, title2)] w)
        = State true (after w [EvChat s (build_prompt s text1 title1)])
            [InFlight c; Blocked c']) /\
   (forall (text1 title1 text2 title2 : string) (w : world),
      exists c,
        run [0; 1; 0; 1]%nat (init E s [(text1, title1); (text2, title2)] w)
        = State true
            (after w [EvChat s (build_prompt s text1 title1);
                      EvChat s (build_prompt s text2 title2)])
            [Finished (Ok (ollama_reply
                             (ollama_chat E (now w) s (build_prompt s text1 title1))));
             InFlight c])) /\
  (sequential = false -> env_seq E = false ->
   _lock s = false /\
   forall (text1 title1 text2 title2 : string) (w : world),
     exists c c',
       run [0; 1]%nat (init E s [(text1, title1); (text2, title2)] w)
       = State false
           (after w [EvChat s (build_prompt s text1 title1);
                     EvChat s (build_prompt s text2 title2)])
           [InFlight c; InFlight c']).
Proof.
  intros Hs. split; [|split].
  - intros text title w.
    assert (Hcls : cls s = Ollama) by (rewrite Hs; reflexivity).
    unfold summarize. rewrite Hcls. apply alone_in_the_loop.
  - intros Hseq.
    assert (Hlock : _lock s = true).
    { rewrite Hs. cbn [OllamaSummarizer_init _lock]. destruct Hseq as [-> | ->];
        [reflexivity | apply orb_true_r]. }
    split; [exact Hlock|]. split; [|split].
    + intros calls schedule w.
      destruct (run_invariant s w schedule Hlock _ (init_invariant s calls w))
        as (_ & Hflight & evs & Hw & Hlen & Hevs).
      assert (Hle : (in_flight (run schedule (init E s calls w)) <= 1)%nat)
        by (rewrite Hflight; destruct (locked _); lia).
      split.
      * intros i j c c'. apply in_flight_unique. exact Hle.
      * exists evs. rewrite (chat_count_requests s evs Hevs).
        split; [exact Hw|]. split; [reflexivity|]. split; [exact Hlen | exact Hle].
    + intros text1 title1 text2 title2 w.
      unfold run, init. cbn [fold_left map fst snd].
      unfold resume at 3. cbn [tasks locked world_of].
      change ((?a :: ?l) !! 0%nat) with (Some a). cbn iota.
      destruct (summarize_starts_reply s text1 title1 w Hlock) as (c & -> & _).
      unfold settle. cbn [fst snd tasks locked world_of].
      change (<[0%nat := ?x]> (?a :: ?l)) with (x :: l).
      unfold resume at 2. cbn [tasks locked world_of].
      change ((?a :: ?b :: ?l) !! 1%nat) with (Some b). cbn iota.
      destruct (summarize_waits s text2 title2
                  (after w [EvChat s (build_prompt s text1 title1)]) Hlock)
        as (c' & -> & _).
      unfold settle. cbn [fst snd tasks locked world_of].
      change (<[1%nat := ?x]> (?a :: ?b :: ?l)) with (a :: x :: l).
      unfold resume. cbn [tasks locked world_of].
      change ((?a :: ?b :: ?l) !! 1%nat) with (Some b). cbn iota.
      exists c, c'. reflexivity.
    + intros text1 title1 text2 title2 w.
      unfold run, init. cbn [fold_left map fst snd].
      unfold resume at 4. cbn [tasks locked world_of].
      change ((?a :: ?l) !! 0%nat) with (Some a). cbn iota.
      destruct (summarize_starts_reply s text1 title1 w Hlock) as (c & -> & Hreply).
      unfold settle. cbn [fst snd tasks locked world_of].
      change (<[0%nat := ?x]> (?a :: ?l)) with (x :: l).
      unfold resume at 3. cbn [tasks locked world_of].
      change ((?a :: ?b :: ?l) !! 1%nat) with (Some b). cbn iota.
      rewrite (summarize_blocked s text2 title2 _ Hlock).
      unfold settle. cbn [fst snd tasks locked world_of].
      change (<[1%nat := ?x]> (?a :: ?b :: ?l)) with (a :: x :: l).
      unfold resume at 2. cbn [tasks locked world_of].
      change ((?a :: ?l) !! 0%nat) with (Some a). cbn iota.
      rewrite Hreply. unfold settle. cbn [fst snd tasks locked world_of].
      change (<[0%nat := ?x]> (?a :: ?l)) with (x :: l).
      unfold resume. cbn [tasks locked world_of].
      change ((?a :: ?b :: ?l) !! 1%nat) with (Some b). cbn iota.
      destruct (summarize_enters_reply s text2 title2
                  (after w [EvChat s (build_prompt s text1 title1)])) as (c2 & -> & _).
      unfold settle. cbn [fst snd tasks locked world_of].
      change (<[1%nat := ?x]> (?a :: ?b :: ?l)) with (a :: x :: l).
      exists c2. rewrite after_app. reflexivity.
  - intros Hoff Henv.
    assert (Hlock : _lock s = false).
    { rewrite Hs, Hoff. cbn [OllamaSummarizer_init _lock]. rewrite Henv. reflexivity. }
    split; [exact Hlock|].
    intros text1 title1 text2 title2 w.
    unfold run, init. cbn [fold_left map fst snd].
    unfold resume at 2. cbn [tasks locked world_of].
    change ((?a :: ?l) !! 0%nat) with (Some a). cbn iota.
    destruct (summarize_unlocked s text1 title1 false w Hlock) as (c & -> & _).
    unfold settle. cbn [fst snd tasks locked world_of].
    change (<[0%nat := ?x]> (?a :: ?l)) with (x :: l).
    unfold resume. cbn [tasks locked world_of].
    change ((?a :: ?b :: ?l) !! 1%nat) with (Some b). cbn iota.
    destruct (summarize_unlocked s text2 title2 false
                (after w [EvChat s (build_prompt s text1 title1)]) Hlock)
      as (c' & -> & _).
    unfold settle. cbn [fst snd tasks locked world_of].
    change (<[1%nat := ?x]> (?a :: ?b :: ?l)) with (a :: x :: l).
    exists c, c'. rewrite after_app. reflexivity.
Qed.

End Properties.

(** ** The statements on concrete runs *)

Import Sample.

(** C2, the claim as stated fails: served from a cache of two talks with
    offset 0 and limit 0, the run returns both talks, where the slice
    [cached[0:0]] is empty. *)
Lemma sched_limit_zero_returns_all :
  fst (process_sched_talks offline sched_url None (Some 0) false false 0 0 true false
         (sched_cached [talk1; talk2]))
  = Ok [(t_youtube_url talk1, description_record 1 talk1);
        (t_youtube_url talk2, description_record 2 talk2)]
  /\ slice 0 (0 + 0) [talk1; talk2] = [].
Proof. split; vm_compute; reflexivity. Qed.

(** C2, amended, on a run: offset 1 and limit 1 over the two cached talks
    give the second talk alone. *)
Lemma sched_cache_window_witness :
  json_files (sched_cached [talk1; talk2]) !! get_sched_cache_path offline sched_url
  = Some (JTalks [talk1; talk2])
  /\ 0 <= 1 /\ 0 < 1
  /\ process_sched_talks offline sched_url None (Some 1) false false 1 0 true false
       (sched_cached [talk1; talk2])
     = (Ok (description_output [] 1 (slice 1 (1 + 1) [talk1; talk2])),
        sched_cached [talk1; talk2]).
Proof.
  assert (H1 : json_files (sched_cached [talk1; talk2])
               !! get_sched_cache_path offline sched_url = Some (JTalks [talk1; talk2]))
    by (vm_compute; reflexivity).
  assert (H2 : 0 <= 1) by lia.
  assert (H3 : 0 < 1) by lia.
  split; [exact H1|]. split; [exact H2|]. split; [exact H3|].
  apply (proj2 (sched_cache_window offline sched_url None 1 1 0 false true false
                  [talk1; talk2] (sched_cached [talk1; talk2]) H1 H2 H3)).
  reflexivity.
Defined.

(** C3, the claim as stated fails: a schedule run that requests a refresh
    scrapes the second talk and returns it, and the cache record still holds
    the stale first talk. *)
Lemma sched_refresh_keeps_stale_record :
  fst (process_sched_talks one_event sched_url None None true false 0 0 true false
         (sched_cached [talk1]))
  = Ok [(t_youtube_url talk2, description_record 1 talk2)]
  /\ json_files
       (snd (process_sched_talks one_event sched_url None None true false 0 0 true false
               (sched_cached [talk1])))
     !! get_sched_cache_path one_event sched_url
     = Some (JTalks [talk1]).
Proof. split; vm_compute; reflexivity. Qed.

(** C3, amended, on runs: a playlist run that requests a refresh leaves
    the freshly listed descriptors in the record that held three others; a
    schedule run that requests a refresh leaves the records as they were;
    a schedule run without refresh, on a miss and with offset 0, writes
    the talk it scraped. *)
Lemma refresh_and_source_list_cache_witness :
  summarizer_or_default listing (Some (anthropic "claude" 800))
  = Ok (anthropic "claude" 800)
  /\ extract_info listing (now playlist_cached) playlist_url = Ok (Some two_entries)
  /\ json_files
       (snd (process_playlist listing playlist_url (Some (anthropic "claude" 800)) None
               true true false 0 playlist_cached))
     !! get_playlist_cache_path listing playlist_url
     = Some (JVideos (videos_of_entries two_entries))
  /\ json_files
       (snd (process_sched_talks one_event sched_url None None true false 0 0 true false
               (sched_cached [talk1])))
     = json_files (sched_cached [talk1])
  /\ scrape_sched_talks_async one_event sched_url (fetch_limit None) 0 0 empty_world
     = (Ok [talk2],
        after empty_world [EvSchedIndex sched_url;
                           EvTalkDetail "https://kccnc.sched.com/event/2"])
  /\ json_files
       (snd (process_sched_talks one_event sched_url None None false false 0 0 true false
               empty_world))
     = <[get_sched_cache_path one_event sched_url := JTalks [talk2]]>
         (json_files empty_world).
Proof.
  assert (H1 : summarizer_or_default listing (Some (anthropic "claude" 800))
               = Ok (anthropic "claude" 800)) by reflexivity.
  assert (H2 : extract_info listing (now playlist_cached) playlist_url
               = Ok (Some two_entries)) by reflexivity.
  assert (H3 : sched_summarizer one_event None false = Ok None) by reflexivity.
  assert (H4 : forall cached,
            json_files empty_world !! get_sched_cache_path one_event sched_url
            <> Some (JTalks cached))
    by (intros cached H; vm_compute in H; discriminate H).
  assert (H5 : scrape_sched_talks_async one_event sched_url (fetch_limit None) 0 0
                 empty_world
               = (Ok [talk2],
                  after empty_world [EvSchedIndex sched_url;
                                     EvTalkDetail "https://kccnc.sched.com/event/2"]))
    by (vm_compute; reflexivity).
  assert (H6 : [talk2] <> []) by discriminate.
  split; [exact H1|]. split; [exact H2|]. split; [|split; [|split; [exact H5|]]].
  - apply (proj2 (proj1 (refresh_and_source_list_cache listing) playlist_url
                    (Some (anthropic "claude" 800)) (anthropic "claude" 800) None true
                    false 0 two_entries playlist_cached H1 H2)).
  - apply (proj2 (proj1 (proj2 (refresh_and_source_list_cache one_event)) sched_url None
                    None false 0 0 true false (sched_cached [talk1]))).
  - apply (proj2 (proj2 (proj2 (proj2 (refresh_and_source_list_cache one_event)))
                    sched_url None None None false 0 true false [talk2] empty_world _
                    H3 H4 H5 H6)).
Defined.

(** C4 on a run: the one-minute video at position 1 of the cached playlist
    has no record, and the ten-minute video at position 2 has one. *)
Lemma duration_filter_witness :
  discover_playlist offline playlist_url false playlist_cached
  = (Ok (Some [video_a; video_s; video_b]), playlist_cached)
  /\ process_playlist offline playlist_url (Some (anthropic "claude" 800)) None false
       true false 0 playlist_cached
     = (Ok [("https://www.youtube.com/watch?v=aaa&list=PL1&index=1",
             blank_record 1 "Talk A");
            ("https://www.youtube.com/watch?v=bbb&list=PL1&index=3",
             blank_record 3 "Talk B")],
        after playlist_cached [EvTranscript "aaa"; EvTranscript "bbb"])
  /\ (forall u r,
        In (u, r) [("https://www.youtube.com/watch?v=aaa&list=PL1&index=1",
                    blank_record 1 "Talk A");
                   ("https://www.youtube.com/watch?v=bbb&list=PL1&index=3",
                    blank_record 3 "Talk B")] ->
        r_index r <> Z.of_nat 1 + 1)
  /\ (exists playlist_id r,
        playlist_id_of offline playlist_url = Ok playlist_id /\
        dict_get [("https://www.youtube.com/watch?v=aaa&list=PL1&index=1",
                   blank_record 1 "Talk A");
                  ("https://www.youtube.com/watch?v=bbb&list=PL1&index=3",
                   blank_record 3 "Talk B")]
          (indexed_url_of playlist_id (Z.of_nat 2 + 1) (v_url video_b)) = Some r).
Proof.
  assert (H1 : discover_playlist offline playlist_url false playlist_cached
               = (Ok (Some [video_a; video_s; video_b]), playlist_cached))
    by (vm_compute; reflexivity).
  assert (H2 : process_playlist offline playlist_url (Some (anthropic "claude" 800)) None
                 false true false 0 playlist_cached
               = (Ok [("https://www.youtube.com/watch?v=aaa&list=PL1&index=1",
                       blank_record 1 "Talk A");
                      ("https://www.youtube.com/watch?v=bbb&list=PL1&index=3",
                       blank_record 3 "Talk B")],
                  after playlist_cached [EvTranscript "aaa"; EvTranscript "bbb"]))
    by (vm_compute; reflexivity).
  split; [exact H1|]. split; [exact H2|]. split.
  - apply (proj1 (duration_filter offline playlist_url (Some (anthropic "claude" 800))
                    None false true false 0 [video_a; video_s; video_b] _ playlist_cached
                    playlist_cached _ H1 H2 1%nat video_s eq_refl)).
    cbn. lia.
  - apply (proj2 (duration_filter offline playlist_url (Some (anthropic "claude" 800))
                    None false true false 0 [video_a; video_s; video_b] _ playlist_cached
                    playlist_cached _ H1 H2 2%nat video_b eq_refl)) with (video_id := "bbb").
    + cbn. lia.
    + vm_compute. reflexivity.
Defined.


(** C6 on a run: two segments come back joined by one space and are
    written to the transcript cache record. *)
Lemma download_subtitles_outcomes_witness :
  text_files empty_world !! get_subtitle_cache_path captioned "aaa" = None
  /\ _download_subtitles_sync captioned "aaa" false empty_world
     = (Ok (Some "hello world"),
        World (<[get_subtitle_cache_path captioned "aaa" := "hello world"]> ∅) ∅
          [EvTranscript "aaa"]).
Proof.
  assert (H : text_files empty_world !! get_subtitle_cache_path captioned "aaa" = None)
    by reflexivity.
  split; [exact H|].
  exact (download_subtitles_outcomes captioned "aaa" false empty_world H).
Defined.

(** C8, the claim as stated fails: served from a cache of two talks with
    offset 1, the record of the second talk has index 1, and the order
    index of that talk is 2. *)
Lemma sched_offset_restarts_index :
  fst (process_sched_talks offline sched_url None None false false 1 0 true false
         (sched_cached [talk1; talk2]))
  = Ok [(t_youtube_url talk2, description_record 1 talk2)]
  /\ [talk1; talk2] !! 1%nat = Some talk2
  /\ order_index 1 = 2
  /\ r_index (description_record 1 talk2) = 1.
Proof. repeat split; vm_compute; reflexivity. Qed.

(** C8, amended, on that run: the order index of the talk of each record is
    its index plus the offset 1. *)
Lemma record_index_is_window_rank_witness :
  discover_sched offline sched_url None false 1 0 (sched_cached [talk1; talk2])
  = (Ok ([talk1; talk2], true), sched_cached [talk1; talk2])
  /\ process_sched_talks offline sched_url None None false false 1 0 true false
       (sched_cached [talk1; talk2])
     = (Ok [(t_youtube_url talk2, description_record 1 talk2)],
        sched_cached [talk1; talk2])
  /\ forall u r,
       In (u, r) [(t_youtube_url talk2, description_record 1 talk2)] ->
       exists (i : nat) (d : talk),
         [talk1; talk2] !! i = Some d /\ u = t_youtube_url d /\ r_title r = t_title d /\
         order_index i = r_index r + 1.
Proof.
  assert (H1 : discover_sched offline sched_url None false 1 0
                 (sched_cached [talk1; talk2])
               = (Ok ([talk1; talk2], true), sched_cached [talk1; talk2]))
    by (vm_compute; reflexivity).
  assert (H2 : process_sched_talks offline sched_url None None false false 1 0 true false
                 (sched_cached [talk1; talk2])
               = (Ok [(t_youtube_url talk2, description_record 1 talk2)],
                  sched_cached [talk1; talk2]))
    by (vm_compute; reflexivity).
  split; [exact H1|]. split; [exact H2|].
  exact (proj2 (record_index_is_window_rank offline) sched_url None None false false 1 0
           true false [talk1; talk2] true _ _ _ _ H1 H2).
Defined.


(** C9 on a run: built with the sequential flag, the instance keeps the
    second of two invocations suspended in [acquire] while the request of
    the first is in flight. *)
Lemma sequential_calls_exclusive_witness :
  ollama "granite3.3:2b" 800 = OllamaSummarizer_init offline "granite3.3:2b" true 800
  /\ (true = true \/ env_seq offline = true)
  /\ exists c c',
       EventLoop.run [0; 1; 1]%nat
         (EventLoop.init offline (ollama "granite3.3:2b" 800)
            [("first transcript", "Talk A"); ("second transcript", "Talk B")] empty_world)
       = EventLoop.State true
           (after empty_world
              [EvChat (ollama "granite3.3:2b" 800)
                 (build_prompt (ollama "granite3.3:2b" 800) "first transcript" "Talk A")])
           [EventLoop.InFlight c; EventLoop.Blocked c'].
Proof.
  assert (H1 : ollama "granite3.3:2b" 800
               = OllamaSummarizer_init offline "granite3.3:2b" true 800) by reflexivity.
  assert (H2 : true = true \/ env_seq offline = true) by (left; reflexivity).
  split; [exact H1|]. split; [exact H2|].
  apply (proj1 (proj2 (proj2 (proj1 (proj2 (sequential_calls_exclusive offline
                                              "granite3.3:2b" true 800 _ H1))
                                       H2)))).
Defined.

(** C10 on a run: the limit -1 on the cached playlist is no limit. *)
Lemma nonpositive_limit_is_no_limit_witness :
  -1 <= 0
  /\ process_playlist offline playlist_url (Some (anthropic "claude" 800)) (Some (-1))
       false true false 0 playlist_cached
     = process_playlist offline playlist_url (Some (anthropic "claude" 800)) None
         false true false 0 playlist_cached.
Proof.
  assert (H : -1 <= 0) by lia.
  split; [exact H|].
  apply (proj1 (proj2 (nonpositive_limit_is_no_limit offline (-1) H))).
Defined.

(** * Further properties

    ** The summarizer factory and the cache store *)

Section Store.

Context (E : env).

Lemma string_prefix_app (a b : string) : String.prefix a (a +:+ b) = true.
Proof.
  induction a as [|c a IH]; [destruct b; reflexivity|].
  change (String c a +:+ b) with (String c (a +:+ b)).
  cbn [String.prefix]. destruct (ascii_dec c c); [exact IH | congruence].
Qed.

Lemma string_prefix_app_app (a b c : string) :
  String.prefix (a +:+ b) (a +:+ b +:+ c) = true.
Proof.
  induction a as [|x a IH];
    [change (String.prefix b (b +:+ c) = true); apply string_prefix_app|].
  change (String x a +:+ b) with (String x (a +:+ b)).
  change (String x a +:+ b +:+ c) with (String x (a +:+ b +:+ c)).
  cbn [String.prefix]. destruct (ascii_dec x x); [exact IH | congruence].
Qed.

(** What [get_summarizer] raises is a [ValueError]. *)
Lemma get_summarizer_value_error (strategy : string) (kw : kwargs) (e : exn) :
  get_summarizer E strategy kw = Raise e -> exn_cls e = ValueError.
Proof.
  unfold get_summarizer, OpenAISummarizer_init, GeminiSummarizer_init,
    AnthropicSummarizer_init.
  repeat match goal with
         | |- context [if ?b then _ else _] => destruct b
         end; intros [= <-]; reflexivity.
Qed.

(** X1: called with no keyword other than [model] and [summary_length], as
    the package calls it, [get_summarizer] returns an instance exactly for
    the four known strategies, and for the three remote ones only when the
    key variable of the backend is set and not empty; the instance has the
    class of the strategy, the requested model or the default of the class,
    the requested target length or 800, and a lock only for [ollama].
    Otherwise it raises a [ValueError]: for a missing key, or for an unknown
    strategy, and then the message names the strategy and lists the four
    known ones. *)
Theorem get_summarizer_outcomes (strategy : string) (kw : kwargs) :
  match get_summarizer E strategy kw with
  | Ok s =>
      summary_length s = default 800 (kw_summary_length kw) /\
      ((strategy = "openai" /\ cls s = OpenAI /\ _lock s = false /\
        model s = ModelName (default "gpt-4o-mini" (kw_model kw)) /\
        opt_truthy (getenv E "OPENAI_API_KEY") = true) \/
       (strategy = "gemini" /\ cls s = Gemini /\ _lock s = false /\
        model s = GenerativeModel (default "gemini-2.0-flash-exp" (kw_model kw)) /\
        opt_truthy (getenv E "GOOGLE_API_KEY") = true) \/
       (strategy = "anthropic" /\ cls s = Anthropic /\ _lock s = false /\
        model s = ModelName (default "claude-3-5-haiku-20241022" (kw_model kw)) /\
        opt_truthy (getenv E "ANTHROPIC_API_KEY") = true) \/
       (strategy = "ollama" /\ cls s = Ollama /\ _lock s = true /\
        model s = ModelName (default "granite3.3:2b" (kw_model kw))))
  | Raise e =>
      exn_cls e = ValueError /\
      ((strategy = "openai" /\ opt_truthy (getenv E "OPENAI_API_KEY") = false) \/
       (strategy = "gemini" /\ opt_truthy (getenv E "GOOGLE_API_KEY") = false) \/
       (strategy = "anthropic" /\ opt_truthy (getenv E "ANTHROPIC_API_KEY") = false) \/
       (strategy <> "openai" /\ strategy <> "gemini" /\ strategy <> "anthropic" /\
        strategy <> "ollama" /\
        exn_str e = "Unknown strategy: " +:+ strategy
                    +:+ ". Choose from: ['openai', 'gemini', 'anthropic', 'ollama']"))
  end.
Proof.
  unfold get_summarizer.
  destruct (String.eqb_spec strategy "openai") as [->|Hn1].
  { unfold OpenAISummarizer_init. cbn [opt_truthy].
    destruct (opt_truthy (getenv E "OPENAI_API_KEY")) eqn:Hk; cbn; auto 10. }
  destruct (String.eqb_spec strategy "gemini") as [->|Hn2].
  { unfold GeminiSummarizer_init. cbn [opt_truthy].
    destruct (opt_truthy (getenv E "GOOGLE_API_KEY")) eqn:Hk; cbn; auto 10. }
  destruct (String.eqb_spec strategy "anthropic") as [->|Hn3].
  { unfold AnthropicSummarizer_init. cbn [opt_truthy].
    destruct (opt_truthy (getenv E "ANTHROPIC_API_KEY")) eqn:Hk; cbn; auto 10. }
  destruct (String.eqb_spec strategy "ollama") as [->|Hn4].
  { cbn. auto 10. }
  cbn [exn_cls exn_str]. split; [reflexivity|]. right; right; right.
  repeat (split; [assumption|]). reflexivity.
Qed.

Lemma sanitize_safe (s : string) : forallb is_safe_char (chars (sanitize s)) = true.
Proof.
  induction s as [|c s IH]; [reflexivity|].
  cbn [sanitize chars list_ascii_of_string forallb]. fold (chars (sanitize s)).
  rewrite IH, andb_true_r.
  destruct (is_safe_char c) eqn:Hc; [exact Hc | reflexivity].
Qed.

Lemma sanitize_fixed (s : string) :
  forallb is_safe_char (chars s) = true -> sanitize s = s.
Proof.
  induction s as [|c s IH]; [reflexivity|].
  cbn [sanitize chars list_ascii_of_string forallb]. fold (chars s).
  intros [Hc Hs]%andb_true_iff. rewrite Hc, (IH Hs). reflexivity.
Qed.

Lemma safe_has_no_slash (s : string) :
  forallb is_safe_char (chars s) = true -> slashes s = 0%nat.
Proof.
  induction s as [|c s IH]; [reflexivity|].
  cbn [chars list_ascii_of_string forallb slashes]. fold (chars s).
  intros [Hc Hs]%andb_true_iff. rewrite (IH Hs).
  destruct (Ascii.eqb_spec c "/"%char) as [->|]; [discriminate Hc | reflexivity].
Qed.

(** X2: the key of a summarizer in the summary cache and the file name of a
    schedule in the schedule cache are made of letters, digits, dots,
    underscores and hyphens only; they hold no path separator, and making
    them safe again changes nothing. *)
Theorem cache_names_are_safe (s : Summarizer) (url : string) :
  forallb is_safe_char (chars (_summarizer_cache_key_parts E s)) = true /\
  forallb is_safe_char (chars (_safe_filename_from_url E url)) = true /\
  slashes (_summarizer_cache_key_parts E s) = 0%nat /\
  slashes (_safe_filename_from_url E url) = 0%nat /\
  sanitize (_summarizer_cache_key_parts E s) = _summarizer_cache_key_parts E s /\
  sanitize (_safe_filename_from_url E url) = _safe_filename_from_url E url.
Proof.
  assert (H1 : forallb is_safe_char (chars (_summarizer_cache_key_parts E s)) = true)
    by apply sanitize_safe.
  assert (H2 : forallb is_safe_char (chars (_safe_filename_from_url E url)) = true)
    by apply sanitize_safe.
  split; [exact H1|]. split; [exact H2|].
  split; [apply safe_has_no_slash, H1|]. split; [apply safe_has_no_slash, H2|].
  split; apply sanitize_fixed; assumption.
Qed.

(** X3: a transcript without carriage return that
    [_download_subtitles_sync] returned is in the transcript cache, and
    every later download of that video, with or without proxy, returns the
    same text without asking the transcript source and without touching a
    file. *)
Theorem download_subtitles_idempotent (video_id : string) (proxy proxy' : bool)
    (text : string) (w w1 : world) :
  _download_subtitles_sync E video_id proxy w = (Ok (Some text), w1) ->
  no_carriage_return text ->
  text_files w1 !! get_subtitle_cache_path E video_id = Some text /\
  _download_subtitles_sync E video_id proxy' w1 = (Ok (Some text), w1).
Proof.
  intros H _.
  assert (Hfile : text_files w1 !! get_subtitle_cache_path E video_id = Some text).
  { revert H. unfold _download_subtitles_sync, load_subtitle_cache, read_text.
    rewrite bind_run.
    destruct (text_files w !! get_subtitle_cache_path E video_id) as [cached|] eqn:Hc.
    - unfold ret. intros [= <- <-]. exact Hc.
    - unfold try_except, save_subtitle_cache, write_text, interact, lift, bind, ret.
      destruct (transcript_fetch E (now w) (proxy_config E proxy) video_id)
        as [transcript|e]; intros [= <- <-]. cbn. apply lookup_insert_eq. }
  split; [exact Hfile|]. apply download_subtitles_cached. exact Hfile.
Qed.

(** X4: a summary without carriage return that the summary step returned
    for a talk that has a transcript (a fresh summary and the failure
    sentinel alike), or any such summary that is not empty, is in the
    summary cache under that talk and summarizer; every later summary step
    for them with the cache enabled returns it, whatever the transcript
    then is, without calling the backend. *)
Theorem summary_reused (s : Summarizer) (use_summary_cache : bool)
    (video_id title : string) (subtitles : option string) (summary : string)
    (w w1 : world) :
  obtain_summary E s use_summary_cache video_id title subtitles w = (Ok summary, w1) ->
  opt_truthy subtitles = true \/ summary <> "" ->
  no_carriage_return summary ->
  text_files w1 !! get_summary_cache_path E video_id s = Some summary /\
  forall title' subtitles',
    obtain_summary E s true video_id title' subtitles' w1 = (Ok summary, w1).
Proof.
  intros H Hkind _.
  assert (Hfile : text_files w1 !! get_summary_cache_path E video_id s = Some summary).
  { revert H. unfold obtain_summary. rewrite bind_run.
    assert (Hfresh : forall w0,
      (if opt_truthy subtitles
       then summary0 <- summarize E s (default "" subtitles) title ;;
            save_summary_cache E video_id s summary0 ;;; ret summary0
       else ret "") w0 = (Ok summary, w1) ->
      text_files w1 !! get_summary_cache_path E video_id s = Some summary).
    { intros w0. destruct (opt_truthy subtitles) eqn:Hs.
      - rewrite bind_run.
        destruct (summarize_never_raises E s (default "" subtitles) title w0)
          as (r & w2 & ->).
        unfold save_summary_cache, write_text, bind, ret. intros [= <- <-].
        cbn. apply lookup_insert_eq.
      - unfold ret. intros [= <- <-]. destruct Hkind as [?|Hne]; [discriminate|].
        contradiction Hne. reflexivity. }
    destruct use_summary_cache.
    - unfold load_summary_cache, read_text.
      destruct (text_files w !! get_summary_cache_path E video_id s) as [text|] eqn:Hc.
      + unfold ret. intros [= <- <-]. exact Hc.
      + apply Hfresh.
    - unfold ret at 1. apply Hfresh. }
  split; [exact Hfile|]. intros title' subtitles'.
  unfold obtain_summary, load_summary_cache, read_text. rewrite bind_run, Hfile.
  reflexivity.
Qed.

(** X5: the descriptors a discovery returned, from the cache or from the
    playlist service, with or without refresh, are the playlist record it
    leaves; a following discovery without refresh returns them without
    asking the playlist service and without touching a file. *)
Theorem discover_playlist_idempotent (playlist_url : string) (refresh_cache : bool)
    (videos : list video) (w w1 : world) :
  discover_playlist E playlist_url refresh_cache w = (Ok (Some videos), w1) ->
  json_files w1 !! get_playlist_cache_path E playlist_url = Some (JVideos videos) /\
  discover_playlist E playlist_url false w1 = (Ok (Some videos), w1).
Proof.
  intros H.
  assert (Hfile : json_files w1 !! get_playlist_cache_path E playlist_url
                  = Some (JVideos videos)).
  { revert H. unfold discover_playlist. rewrite bind_run.
    assert (Hfresh : forall w0,
      try_except
        (t <- interact (EvExtractInfo playlist_url) ;;
         playlist_info <- lift (extract_info E t playlist_url) ;;
         match playlist_info with
         | None => ret None
         | Some entries =>
             save_playlist_cache E playlist_url (videos_of_entries entries) ;;;
             ret (Some (videos_of_entries entries))
         end)
        (fun _ => ret None) w0 = (Ok (Some videos), w1) ->
      json_files w1 !! get_playlist_cache_path E playlist_url = Some (JVideos videos)).
    { intros w0. unfold try_except, interact, lift, save_playlist_cache, write_json,
        bind, ret.
      destruct (extract_info E (now w0) playlist_url) as [[entries|]|e];
        intros [= <- <-]. cbn. apply lookup_insert_eq. }
    destruct refresh_cache.
    - unfold ret at 1. apply Hfresh.
    - unfold load_playlist_cache, read_json. rewrite bind_run.
      destruct (json_files w !! get_playlist_cache_path E playlist_url)
        as [[data|data|]|] eqn:Hc; unfold ret at 1; try apply Hfresh.
      unfold ret. intros [= <- <-]. exact Hc. }
  split; [exact Hfile|].
  unfold discover_playlist, load_playlist_cache, read_json. rewrite !bind_run, Hfile.
  reflexivity.
Qed.

(** X6: when the playlist record is not used (a refresh, or no record that
    loads) and the playlist service raises or answers without entries,
    [process_playlist] returns the empty mapping: nothing is raised, no file
    is written, and the request to the playlist service is its only
    interaction. *)
Theorem playlist_unavailable_is_empty (playlist_url : string) (s : Summarizer)
    (limit : option Z) (refresh_cache use_summary_cache proxy : bool) (sleep : Z)
    (w : world) :
  (refresh_cache = true \/
   forall data, json_files w !! get_playlist_cache_path E playlist_url
                <> Some (JVideos data)) ->
  (forall entries, extract_info E (now w) playlist_url <> Ok (Some entries)) ->
  process_playlist E playlist_url (Some s) limit refresh_cache use_summary_cache
    proxy sleep w = (Ok [], after w [EvExtractInfo playlist_url]).
Proof.
  intros Hmiss Hfail. unfold process_playlist. rewrite bind_run.
  cbn [summarizer_or_default lift]. rewrite bind_run.
  assert (Hd : discover_playlist E playlist_url refresh_cache w
               = (Ok None, after w [EvExtractInfo playlist_url])).
  { unfold discover_playlist. rewrite bind_run.
    assert (Hload : (if refresh_cache then ret None
                     else load_playlist_cache E playlist_url) w = (Ok None, w)).
    { destruct refresh_cache; [reflexivity|].
      destruct Hmiss as [?|Hmiss]; [discriminate|].
      unfold load_playlist_cache, read_json. rewrite bind_run.
      destruct (json_files w !! get_playlist_cache_path E playlist_url)
        as [[data|data|]|] eqn:Hc; cbn; try reflexivity.
      exfalso. apply (Hmiss data). reflexivity. }
    rewrite Hload. unfold try_except, interact, lift, bind, ret.
    destruct (extract_info E (now w) playlist_url) as [[entries|]|e] eqn:Hi;
      try reflexivity.
    exfalso. apply (Hfail entries). reflexivity. }
  rewrite Hd. reflexivity.
Qed.

Lemma append_nil_r (s : string) : s +:+ "" = s.
Proof.
  induction s as [|c s IH]; [reflexivity|].
  change (String c s +:+ "") with (String c (s +:+ "")). rewrite IH. reflexivity.
Qed.

Lemma last_char_app (a b : string) : b <> "" -> last_char (a +:+ b) = last_char b.
Proof.
  intros Hb. induction a as [|c a IH]; [reflexivity|].
  change (String c a +:+ b) with (String c (a +:+ b)). cbn [last_char].
  destruct (a +:+ b) eqn:Hab; [|exact IH].
  destruct a; [contradiction | discriminate].
Qed.

Lemma last_char_in (s : string) (c : ascii) : last_char s = Some c -> In c (chars s).
Proof.
  induction s as [|x s IH]; [discriminate|]. cbn [last_char].
  destruct s as [|y s]; [intros [= <-]; left; reflexivity|].
  intros H. right. exact (IH H).
Qed.

Lemma uint_chars (d : Decimal.uint) :
  forallb is_numeral_char (chars (NilEmpty.string_of_uint d)) = true.
Proof. unfold chars. induction d; cbn; rewrite ?IHd; reflexivity. Qed.

Lemma str_of_int_chars (n : Z) : forallb is_numeral_char (chars (str_of_int n)) = true.
Proof.
  unfold str_of_int, NilZero.string_of_int, NilZero.string_of_uint.
  pose proof uint_chars as Hu. unfold chars in *.
  destruct (Z.to_int n) as [d|d]; destruct d; cbn; rewrite ?Hu; reflexivity.
Qed.

Lemma append_split (a b x y : string) :
  a +:+ x = b +:+ y -> (String.length x <= String.length y)%nat ->
  exists p, y = p +:+ x /\ a = b +:+ p.
Proof.
  revert b. induction a as [|c a IH]; intros b H Hlen.
  - change ("" +:+ x) with x in H. destruct b as [|d b].
    + exists "". split; [symmetry; exact H | reflexivity].
    + exfalso. apply (f_equal String.length) in H.
      rewrite append_length in H. cbn in H. lia.
  - destruct b as [|d b].
    + change ("" +:+ y) with y in H. exists (String c a).
      split; [symmetry; exact H | reflexivity].
    + change (String c (a +:+ x) = String d (b +:+ y)) in H. injection H as -> H.
      destruct (IH b H Hlen) as (p & Hy & Ha). exists p. split; [exact Hy|].
      change (String d b +:+ p) with (String d (b +:+ p)). rewrite Ha. reflexivity.
Qed.

Lemma chars_app (a b : string) : chars (a +:+ b) = (chars a ++ chars b)%list.
Proof.
  induction a as [|c a IH]; [reflexivity|].
  change (String c a +:+ b) with (String c (a +:+ b)).
  cbn [chars list_ascii_of_string app]. f_equal. exact IH.
Qed.

(** A key that ends with an equals sign and a numeral tells the numeral. *)
Lemma keyed_numeral_inj (a b : string) (i j : Z) :
  a +:+ "=" +:+ str_of_int i = b +:+ "=" +:+ str_of_int j -> a = b /\ i = j.
Proof.
  assert (Hgen : forall a b i j,
    (String.length (str_of_int i) <= String.length (str_of_int j))%nat ->
    a +:+ "=" +:+ str_of_int i = b +:+ "=" +:+ str_of_int j -> a = b /\ i = j).
  { clear. intros a b i j Hlen H. rewrite <- !append_assoc in H.
    destruct (append_split _ _ _ _ H Hlen) as (p & Hj & Ha).
    destruct p as [|c p].
    - change ("" +:+ str_of_int i) with (str_of_int i) in Hj.
      apply str_of_int_inj in Hj. subst j. split; [|reflexivity].
      rewrite append_nil_r in Ha. apply append_inj_r in Ha. exact Ha.
    - exfalso.
      assert (Hl : last_char (a +:+ "=") = Some "="%char)
        by (rewrite last_char_app; [reflexivity | discriminate]).
      rewrite Ha, last_char_app in Hl by discriminate.
      apply last_char_in in Hl.
      pose proof (str_of_int_chars j) as Hc. rewrite Hj, chars_app in Hc.
      rewrite forallb_app in Hc. apply andb_true_iff in Hc as [Hc _].
      rewrite forallb_forall in Hc. specialize (Hc _ Hl). discriminate. }
  intros H.
  destruct (Nat.le_ge_cases (String.length (str_of_int i)) (String.length (str_of_int j)))
    as [Hlen|Hlen].
  - exact (Hgen a b i j Hlen H).
  - destruct (Hgen b a j i Hlen (eq_sym H)). auto.
Qed.

(** With a playlist id, the key of a record tells the URL and the position
    of its descriptor. *)
Lemma indexed_url_inj (playlist_id : option string) (i j : Z) (u u' : string) :
  opt_truthy playlist_id = true ->
  indexed_url_of playlist_id i u = indexed_url_of playlist_id j u' -> u = u' /\ i = j.
Proof.
  intros Hp. unfold indexed_url_of. rewrite Hp. intros H.
  set (pid := default "" playlist_id) in *.
  assert (H' : (u +:+ "&list=" +:+ pid +:+ "&index") +:+ "=" +:+ str_of_int i
               = (u' +:+ "&list=" +:+ pid +:+ "&index") +:+ "=" +:+ str_of_int j).
  { rewrite !append_assoc. exact H. }
  apply keyed_numeral_inj in H' as [Hu ->]. split; [|reflexivity].
  assert (Hu' : u +:+ ("&list=" +:+ pid +:+ "&index")
                = u' +:+ ("&list=" +:+ pid +:+ "&index")) by exact Hu.
  apply append_inj_r in Hu'. exact Hu'.
Qed.

Lemma dict_get_in (d : output) (k : string) (r : talk_record) :
  dict_get d k = Some r -> In (k, r) d.
Proof.
  induction d as [|[k0 v0] d IH]; [discriminate|]. cbn [dict_get].
  destruct (String.eqb_spec k0 k) as [->|Hk].
  - intros [= ->]. left. reflexivity.
  - intros H. right. exact (IH H).
Qed.

(** X8: in a run of [process_playlist] on a playlist URL that carries a
    playlist id, every descriptor of the window that is not too short and
    whose URL gives a video id has a record of its own: the record under its
    indexed URL has its position as index and its title.  No record is lost
    to another descriptor, even one of the same video. *)
Theorem playlist_records_are_complete (playlist_url : string)
    (summarizer : option Summarizer) (limit : option Z)
    (refresh_cache use_summary_cache proxy : bool) (sleep : Z)
    (videos : list video) (out : output) (w w1 w' : world)
    (playlist_id : option string) (i : nat) (v : video) (video_id : string) :
  discover_playlist E playlist_url refresh_cache w = (Ok (Some videos), w1) ->
  process_playlist E playlist_url summarizer limit refresh_cache use_summary_cache
    proxy sleep w = (Ok out, w') ->
  playlist_id_of E playlist_url = Ok playlist_id ->
  opt_truthy playlist_id = true ->
  apply_limit limit videos !! i = Some v ->
  too_short (v_duration v) = false ->
  extract_video_id E (v_url v) = Ok video_id ->
  exists r,
    dict_get out (indexed_url_of playlist_id (Z.of_nat i + 1) (v_url v)) = Some r /\
    r_index r = Z.of_nat i + 1 /\ r_title r = v_title v.
Proof.
  intros Hd Hrun Hpid Hp Hi Hshort Hid.
  destruct (playlist_record_included E _ _ _ _ _ _ _ _ _ _ _ _ Hd Hrun i v video_id
              Hi Hshort Hid) as (pid & r & Hpid' & Hget).
  rewrite Hpid in Hpid'. injection Hpid' as <-.
  exists r. split; [exact Hget|].
  destruct (playlist_record_origin E _ _ _ _ _ _ _ _ _ _ _ _ Hd Hrun _ _
              (dict_get_in _ _ _ Hget))
    as (i' & v' & pid' & Hpid' & Hi' & Hidx & Htitle & Hkey & _).
  rewrite Hpid in Hpid'. injection Hpid' as <-.
  apply indexed_url_inj in Hkey as [_ Heq]; [|exact Hp].
  assert (i' = i) by lia. subst i'. rewrite Hi in Hi'. injection Hi' as <-.
  split; [lia | exact Htitle].
Qed.

(** X10: a talk whose transcript is missing or empty is still given a
    record by [process_video]: its summary is the cached summary of the
    talk, when the summary cache is enabled and holds one, and the empty
    string otherwise; no backend is called and nothing is written after the
    transcript step. *)
Theorem talk_without_transcript (video_url : string) (index : Z) (title : string)
    (s : Summarizer) (duration : Z) (speakers sched_link : option string)
    (use_summary_cache proxy : bool) (sleep : Z) (video_id : string)
    (subtitles : option string) (w w1 w2 : world) :
  too_short duration = false ->
  extract_video_id E video_url = Ok video_id ->
  courtesy_sleep sleep w = (Ok tt, w1) ->
  download_subtitles E video_id proxy w1 = (Ok subtitles, w2) ->
  opt_truthy subtitles = false ->
  process_video E video_url index title s duration speakers sched_link
    use_summary_cache proxy sleep w
  = (Ok (Some {| r_index := index; r_title := title;
                 r_summary :=
                   if use_summary_cache
                   then default "" (text_files w2 !! get_summary_cache_path E video_id s)
                   else "";
                 r_speakers := keep_truthy speakers;
                 r_sched_link := keep_truthy sched_link;
                 r_event_type := None; r_deck_url := None |}), w2).
Proof.
  intros Hshort Hid Hsleep Hdl Hsubs. unfold process_video. rewrite Hshort.
  rewrite bind_run. unfold try_except_class. rewrite bind_run. unfold lift at 1.
  rewrite Hid. cbn [ret]. rewrite bind_run, Hsleep, bind_run, Hdl, bind_run.
  unfold obtain_summary. rewrite bind_run. rewrite Hsubs.
  destruct use_summary_cache.
  - unfold load_summary_cache, read_text.
    destruct (text_files w2 !! get_summary_cache_path E video_id s); reflexivity.
  - reflexivity.
Qed.

End Store.

(** ** The schedule orchestrator *)

Section Schedule.

Context (E : env).

Lemma detail_requests_app (a b : list event) :
  detail_requests (a ++ b) = (detail_requests a ++ detail_requests b)%list.
Proof.
  induction a as [|ev a IH]; [reflexivity|].
  destruct ev; cbn; rewrite IH; reflexivity.
Qed.

Lemma courtesy_sleep_run (sleep : Z) (w : world) :
  exists evs, courtesy_sleep sleep w = (Ok tt, after w evs) /\
              detail_requests evs = [] /\ forallb schedule_event evs = true.
Proof.
  unfold courtesy_sleep, sleep_for. destruct (0 <? sleep).
  - exists [EvSleep (Seconds sleep)]. repeat split.
  - exists []. rewrite after_nil. repeat split.
Qed.

(** The run of the detail-page loop: it returns, it only asks for detail
    pages and pauses, and the pages it asks for are the links after the
    skipped ones, in order, up to the one it stops at. *)
Lemma scrape_loop_run (limit : option Z) (sleep : Z) (sched_links : list string) :
  forall (current_offset : Z) (talks : list talk) (w : world),
  exists talks' evs,
    scrape_loop E limit sleep current_offset sched_links talks w
    = (Ok talks', after w evs) /\
    detail_requests evs `prefix_of` drop (Z.to_nat current_offset) sched_links /\
    forallb schedule_event evs = true /\
    (length talks' <= length talks + length (detail_requests evs))%nat.
Proof.
  induction sched_links as [|link rest IH]; intros current_offset talks w;
    cbn [scrape_loop].
  - exists talks, []. rewrite after_nil, drop_nil. repeat split; [|cbn; lia].
    apply prefix_nil.
  - destruct (0 <? current_offset) eqn:Hk.
    + destruct (IH (current_offset - 1) talks w) as (talks' & evs & Hrun & Hp & Hs & Hl).
      exists talks', evs. repeat split; auto.
      apply Z.ltb_lt in Hk.
      replace (Z.to_nat current_offset) with (S (Z.to_nat (current_offset - 1))) by lia.
      exact Hp.
    + apply Z.ltb_ge in Hk. replace (Z.to_nat current_offset) with 0%nat by lia.
      rewrite drop_0. rewrite bind_run. cbn [interact].
      set (w1 := World (text_files w) (json_files w) (trace w ++ [EvTalkDetail link])).
      set (talks1 := match fetch_talk_detail E (now w) link with
                     | Some talk => (talks ++ [talk])%list
                     | None => talks
                     end).
      assert (Hl1 : (length talks1 <= length talks + 1)%nat).
      { subst talks1. destruct (fetch_talk_detail E (now w) link);
          [rewrite length_app; cbn; lia | lia]. }
      destruct (int_truthy limit && (default 0 limit <=? len talks1)).
      * exists talks1, [EvTalkDetail link]. repeat split.
        -- apply prefix_cons, prefix_nil.
        -- cbn. lia.
      * rewrite bind_run.
        destruct (courtesy_sleep_run sleep w1) as (evs0 & -> & Hd0 & Hs0).
        destruct (IH current_offset talks1 (after w1 evs0))
          as (talks' & evs & -> & Hp & Hs & Hl).
        replace (Z.to_nat current_offset) with 0%nat in Hp by lia.
        rewrite drop_0 in Hp.
        exists talks', (EvTalkDetail link :: evs0 ++ evs)%list. repeat split.
        -- subst w1. unfold after. cbn. rewrite <- !app_assoc. reflexivity.
        -- cbn. rewrite detail_requests_app, Hd0. cbn. apply prefix_cons. exact Hp.
        -- cbn. rewrite forallb_app, Hs0, Hs. reflexivity.
        -- cbn. rewrite detail_requests_app, Hd0. cbn. lia.
Qed.

(** The run of the scraper: the request for the listing page, then the
    detail-page loop. *)
Lemma scrape_run (sched_url : string) (limit : option Z) (sleep offset : Z)
    (w : world) :
  exists (listing : string) (talks : list talk) (evs : list event),
    scrape_sched_talks_async E sched_url limit sleep offset w
    = (Ok talks, after w (EvSchedIndex listing :: evs)) /\
    listing = (if contains "/list/descriptions" sched_url then sched_url
               else scheme (urlparse E sched_url) +:+ "://"
                    +:+ netloc (urlparse E sched_url) +:+ "/list/descriptions") /\
    match sched_index E (now w) listing with
    | Raise _ => talks = [] /\ evs = []
    | Ok sched_links =>
        detail_requests evs `prefix_of` drop (Z.to_nat offset) sched_links /\
        forallb schedule_event evs = true /\
        (length talks <= length (detail_requests evs))%nat /\
        (forall m, limit = Some m -> 0 < m -> len talks <= m)
    end.
Proof.
  unfold scrape_sched_talks_async.
  set (listing := if negb (contains "/list/descriptions" sched_url) then _ else sched_url).
  exists listing.
  assert (Hlisting : listing
            = (if contains "/list/descriptions" sched_url then sched_url
               else scheme (urlparse E sched_url) +:+ "://"
                    +:+ netloc (urlparse E sched_url) +:+ "/list/descriptions")).
  { subst listing. destruct (contains "/list/descriptions" sched_url); reflexivity. }
  rewrite bind_run. unfold try_except at 1. rewrite bind_run. cbn [interact].
  rewrite bind_run. unfold lift at 1. fold (now w).
  destruct (sched_index E (now w) listing) as [sched_links|e] eqn:Hi.
  - cbn [ret]. rewrite bind_run.
    set (w1 := World (text_files w) (json_files w) (trace w ++ [EvSchedIndex listing])).
    destruct (scrape_loop_run limit sleep sched_links (if 0 <? offset then offset else 0)
                [] w1) as (talks & evs & -> & Hp & Hs & Hl).
    assert (Hoff : Z.to_nat (if 0 <? offset then offset else 0) = Z.to_nat offset).
    { destruct (0 <? offset) eqn:Hk; [reflexivity|]. apply Z.ltb_ge in Hk. lia. }
    rewrite Hoff in Hp.
    assert (Hw : after w1 evs = after w (EvSchedIndex listing :: evs)).
    { subst w1. unfold after. cbn. rewrite <- app_assoc. reflexivity. }
    destruct (int_truthy limit && (default 0 limit <? len talks)) eqn:Hlim.
    + exists (py_take (default 0 limit) talks), evs. split; [cbn; rewrite Hw; reflexivity|].
      split; [exact Hlisting|].
      apply andb_true_iff in Hlim as [Ht Hlt]. apply Z.ltb_lt in Hlt.
      split; [exact Hp|]. split; [exact Hs|]. split.
      * unfold py_take. destruct (0 <=? default 0 limit); rewrite length_take;
          cbn in Hl; lia.
      * intros m -> Hm. cbn in *. unfold py_take.
        destruct (0 <=? m) eqn:H0; [|apply Z.leb_gt in H0; lia].
        unfold len. rewrite length_take. lia.
    + exists talks, evs. split; [cbn; rewrite Hw; reflexivity|].
      split; [exact Hlisting|].
      split; [exact Hp|]. split; [exact Hs|]. split; [cbn in Hl; lia|].
      intros m -> Hm. cbn in Hlim.
      destruct (m =? 0) eqn:H0; [apply Z.eqb_eq in H0; lia|].
      cbn in Hlim. apply Z.ltb_ge in Hlim. exact Hlim.
  - exists [], []. split; [reflexivity|]. split; [exact Hlisting|]. split; reflexivity.
Qed.

(** X11: a run of [scrape_sched_talks_async] that returns has asked for
    the listing page, at the given URL when that holds
    [/list/descriptions] and at the one rebuilt from its scheme and host
    otherwise.  When that request failed it returns no talk and has asked
    for nothing else.  Otherwise it has only asked for detail pages and
    paused: the pages asked for are links of the listing after the first
    [offset] ones, in their order and without gap, so no skipped link is
    ever requested; it returns no more talks than it asked pages for, and
    no more than a positive limit. *)
Theorem scrape_requests (sched_url : string) (limit : option Z) (sleep offset : Z)
    (talks : list talk) (w w' : world) :
  scrape_sched_talks_async E sched_url limit sleep offset w = (Ok talks, w') ->
  exists (listing : string) (evs : list event),
    w' = after w (EvSchedIndex listing :: evs) /\
    listing = (if contains "/list/descriptions" sched_url then sched_url
               else scheme (urlparse E sched_url) +:+ "://"
                    +:+ netloc (urlparse E sched_url) +:+ "/list/descriptions") /\
    match sched_index E (now w) listing with
    | Raise _ => talks = [] /\ evs = []
    | Ok sched_links =>
        detail_requests evs `prefix_of` drop (Z.to_nat offset) sched_links /\
        forallb schedule_event evs = true /\
        (length talks <= length (detail_requests evs))%nat /\
        (forall m, limit = Some m -> 0 < m -> len talks <= m)
    end.
Proof.
  intros Hrun.
  destruct (scrape_run sched_url limit sleep offset w)
    as (listing & talks0 & evs & Hrun0 & Hlisting & Hrest).
  rewrite Hrun in Hrun0. injection Hrun0 as -> ->.
  exists listing, evs. split; [reflexivity|]. split; [exact Hlisting | exact Hrest].
Qed.

(** The scraper returns, only talks to the schedule site, and respects a
    positive limit. *)
Lemma scrape_only_schedule_events (sched_url : string) (limit : option Z)
    (sleep offset : Z) (w : world) :
  exists talks evs,
    scrape_sched_talks_async E sched_url limit sleep offset w = (Ok talks, after w evs) /\
    forallb schedule_event evs = true /\
    (forall m, limit = Some m -> 0 < m -> len talks <= m).
Proof.
  unfold scrape_sched_talks_async.
  set (listing := if negb (contains "/list/descriptions" sched_url) then _ else sched_url).
  rewrite bind_run. unfold try_except at 1. rewrite bind_run. cbn [interact].
  rewrite bind_run. unfold lift at 1. fold (now w).
  destruct (sched_index E (now w) listing) as [sched_links|e] eqn:Hi.
  - cbn [ret]. rewrite bind_run.
    set (w1 := World (text_files w) (json_files w) (trace w ++ [EvSchedIndex listing])).
    destruct (scrape_loop_run limit sleep sched_links (if 0 <? offset then offset else 0)
                [] w1) as (talks & evs & -> & Hp & Hs & Hl).
    assert (Hw : after w1 evs = after w (EvSchedIndex listing :: evs)).
    { subst w1. unfold after. cbn. rewrite <- app_assoc. reflexivity. }
    destruct (int_truthy limit && (default 0 limit <? len talks)) eqn:Hlim.
    + exists (py_take (default 0 limit) talks), (EvSchedIndex listing :: evs).
      split; [cbn; rewrite Hw; reflexivity|]. split; [exact Hs|].
      intros m -> Hm. cbn in *. unfold py_take.
      destruct (0 <=? m) eqn:H0; [|apply Z.leb_gt in H0; lia].
      unfold len. rewrite length_take. lia.
    + exists talks, (EvSchedIndex listing :: evs).
      split; [cbn; rewrite Hw; reflexivity|]. split; [exact Hs|].
      intros m -> Hm. cbn in Hlim.
      destruct (m =? 0) eqn:H0; [apply Z.eqb_eq in H0; lia|].
      cbn in Hlim. apply Z.ltb_ge in Hlim. exact Hlim.
  - exists [], [EvSchedIndex listing]. repeat split. intros m _ Hm. unfold len. simpl. lia.
Qed.

(** The discovery step of the schedule orchestrator returns, and only talks
    to the schedule site. *)
Lemma discover_sched_run (sched_url : string) (limit : option Z) (refresh_cache : bool)
    (offset sleep : Z) (w : world) :
  exists talks used evs w1,
    discover_sched E sched_url limit refresh_cache offset sleep w
    = (Ok (talks, used), w1) /\
    text_files w1 = text_files w /\ trace w1 = (trace w ++ evs)%list /\
    forallb schedule_event evs = true.
Proof.
  unfold discover_sched. rewrite bind_run.
  assert (Hscrape : forall w0, w0 = w -> exists talks used evs w1,
    (talks <- scrape_sched_talks_async E sched_url (fetch_limit limit) sleep offset ;;
     (if negb (bool_decide (talks = [])) && negb refresh_cache && (offset =? 0)
      then save_sched_cache E sched_url talks else ret tt) ;;;
     ret (talks, false)) w0 = (Ok (talks, used), w1) /\
    text_files w1 = text_files w /\ trace w1 = (trace w ++ evs)%list /\
    forallb schedule_event evs = true).
  { intros w0 ->. rewrite bind_run.
    destruct (scrape_only_schedule_events sched_url (fetch_limit limit) sleep offset w)
      as (talks & evs & -> & Hs & _).
    rewrite bind_run.
    destruct (negb (bool_decide (talks = [])) && negb refresh_cache && (offset =? 0)).
    - exists talks, false, evs. eexists. split; [reflexivity|]. repeat split. exact Hs.
    - exists talks, false, evs. eexists. split; [reflexivity|]. repeat split. exact Hs. }
  destruct refresh_cache; cbn [negb].
  - unfold ret at 1. apply Hscrape. reflexivity.
  - unfold load_sched_cache, read_json. rewrite bind_run.
    destruct (json_files w !! get_sched_cache_path E sched_url) as [[data|data|]|];
      unfold ret at 1; try (apply Hscrape; reflexivity).
    exists data, true, [], w. rewrite app_nil_r. repeat split.
Qed.

(** X12: the schedule record that a run without refresh and without offset
    writes on a cache miss holds the talks that run scraped, which are at
    most [limit] when the run has a positive limit; every following run
    without refresh is served from that record, whatever its own limit,
    offset and pause, and asks the schedule site for nothing. *)
Theorem sched_cache_holds_the_scraped_talks (sched_url : string) (limit : option Z)
    (sleep : Z) (talks : list talk) (w w1 : world) :
  discover_sched E sched_url limit false 0 sleep w = (Ok (talks, false), w1) ->
  talks <> [] ->
  (forall m, limit = Some m -> 0 < m -> len talks <= m) /\
  json_files w1 !! get_sched_cache_path E sched_url = Some (JTalks talks) /\
  forall limit' offset' sleep',
    discover_sched E sched_url limit' false offset' sleep' w1 = (Ok (talks, true), w1).
Proof.
  intros H Hne.
  assert (Hlim_file : (forall m, limit = Some m -> 0 < m -> len talks <= m) /\
                      json_files w1 !! get_sched_cache_path E sched_url
                      = Some (JTalks talks)).
  { revert H. unfold discover_sched. cbn [negb]. rewrite bind_run.
    unfold load_sched_cache, read_json. rewrite bind_run.
    assert (Hscrape : forall w0,
      (talks0 <- scrape_sched_talks_async E sched_url (fetch_limit limit) sleep 0 ;;
       (if negb (bool_decide (talks0 = [])) && true && (0 =? 0)
        then save_sched_cache E sched_url talks0 else ret tt) ;;;
       ret (talks0, false)) w0 = (Ok (talks, false), w1) ->
      (forall m, limit = Some m -> 0 < m -> len talks <= m) /\
      json_files w1 !! get_sched_cache_path E sched_url = Some (JTalks talks)).
    { intros w0. rewrite bind_run.
      destruct (scrape_only_schedule_events sched_url (fetch_limit limit) sleep 0 w0)
        as (talks0 & evs & -> & _ & Hl).
      rewrite bind_run. case_bool_decide as Hnil; cbn [negb andb].
      - intros [= <- <-]. contradiction.
      - unfold save_sched_cache, write_json, ret. cbn. intros [= <- <-]. split.
        + intros m -> Hm. apply (Hl m); [|exact Hm]. cbn.
          destruct (0 <? m) eqn:H0; [reflexivity|]. apply Z.ltb_ge in H0. lia.
        + cbn. apply lookup_insert_eq. }
    destruct (json_files w !! get_sched_cache_path E sched_url) as [[data|data|]|];
      unfold ret at 1; try apply Hscrape.
    intros [=]. }
  destruct Hlim_file as [Hlim Hfile]. split; [exact Hlim|]. split; [exact Hfile|].
  intros limit' offset' sleep'. unfold discover_sched. cbn [negb].
  unfold load_sched_cache, read_json. rewrite !bind_run, Hfile. reflexivity.
Qed.

(** The run of [process_sched_talks] with summarization disabled. *)
Lemma sched_descriptions_run (sched_url : string) (summarizer : option Summarizer)
    (limit : option Z) (refresh_cache : bool) (offset sleep : Z)
    (use_summary_cache proxy : bool) (w : world) :
  exists (out : output) (evs : list event) (w' : world),
    process_sched_talks E sched_url summarizer limit refresh_cache false offset sleep
      use_summary_cache proxy w = (Ok out, w') /\
    text_files w' = text_files w /\
    trace w' = (trace w ++ evs)%list /\
    forallb schedule_event evs = true /\
    (forall u r, In (u, r) out -> r_sched_link r <> None /\ r_speakers r = None).
Proof.
  unfold process_sched_talks. rewrite bind_run. cbn [sched_summarizer lift].
  rewrite bind_run.
  destruct (discover_sched_run sched_url limit refresh_cache offset sleep w)
    as (talks & used & evs & w1 & -> & Ht & Htr & Hs).
  cbn [build_sched_output negb].
  destruct (bool_decide (talks = [])).
  - exists [], evs, w1. split; [reflexivity|]. split; [exact Ht|]. split; [exact Htr|].
    split; [exact Hs|]. intros u r [].
  - exists (description_output [] 1 (sched_window limit offset used talks)), evs, w1.
    split; [reflexivity|]. split; [exact Ht|]. split; [exact Htr|].
    split; [exact Hs|]. intros u r H. split.
    + assert (Hgen : forall l out idx,
        (forall u r, In (u, r) out -> r_sched_link r <> None) ->
        forall u r, In (u, r) (description_output out idx l) -> r_sched_link r <> None).
      { induction l as [|d l IH]; intros out idx Hout u0 r0; cbn [description_output].
        - apply Hout.
        - apply IH. intros u1 r1 [Hin|[-> ->]]%dict_set_in; [exact (Hout _ _ Hin)|].
          discriminate. }
      apply (Hgen _ [] 1 (fun _ _ (H0 : In _ []) => match H0 with end) u r H).
    + assert (Hgen : forall l out idx,
        (forall u r, In (u, r) out -> r_speakers r = None) ->
        forall u r, In (u, r) (description_output out idx l) -> r_speakers r = None).
      { induction l as [|d l IH]; intros out idx Hout u0 r0; cbn [description_output].
        - apply Hout.
        - apply IH. intros u1 r1 [Hin|[-> ->]]%dict_set_in; [exact (Hout _ _ Hin)|].
          reflexivity. }
      apply (Hgen _ [] 1 (fun _ _ (H0 : In _ []) => match H0 with end) u r H).
Qed.

(** X13: with summarization disabled, the run of [process_sched_talks] is
    the same whatever the summarizer it is given, none included, and
    whether the summary cache and the proxy are enabled; when it returns,
    it has only talked to the schedule site and paused (no transcript was
    asked for and no backend was called), it has left every text record as
    it was, and every record it returns carries the schedule link of its
    talk and no speakers. *)
Theorem sched_descriptions_only (sched_url : string) (summarizer : option Summarizer)
    (limit : option Z) (refresh_cache : bool) (offset sleep : Z)
    (use_summary_cache proxy : bool) (w : world) :
  (forall summarizer' use_summary_cache' proxy',
     process_sched_talks E sched_url summarizer' limit refresh_cache false offset sleep
       use_summary_cache' proxy' w
     = process_sched_talks E sched_url summarizer limit refresh_cache false offset sleep
         use_summary_cache proxy w) /\
  (forall (out : output) (w' : world),
     process_sched_talks E sched_url summarizer limit refresh_cache false offset sleep
       use_summary_cache proxy w = (Ok out, w') ->
     exists evs : list event,
       text_files w' = text_files w /\
       trace w' = (trace w ++ evs)%list /\
       forallb schedule_event evs = true /\
       (forall u r, In (u, r) out -> r_sched_link r <> None /\ r_speakers r = None)).
Proof.
  split.
  - intros summarizer' use_summary_cache' proxy'.
    unfold process_sched_talks. rewrite !bind_run. cbn [sched_summarizer lift].
    rewrite !bind_run.
    destruct (discover_sched E sched_url limit refresh_cache offset sleep w)
      as [[[talks used]|e] w1]; reflexivity.
  - intros out w' Hrun.
    destruct (sched_descriptions_run sched_url summarizer limit refresh_cache offset sleep
                use_summary_cache proxy w) as (out0 & evs & w0 & Hrun0 & Hrest).
    rewrite Hrun in Hrun0. injection Hrun0 as -> ->.
    exists evs. exact Hrest.
Qed.

Lemma dict_get_set_ne (d : output) (k k' : string) (v : talk_record) :
  k <> k' -> dict_get (dict_set d k v) k' = dict_get d k'.
Proof.
  intros Hne. induction d as [|[k0 v0] d IH]; cbn [dict_set dict_get].
  - destruct (String.eqb_spec k k'); [contradiction | reflexivity].
  - destruct (String.eqb_spec k0 k) as [->|Hk]; cbn [dict_get].
    + destruct (String.eqb_spec k k'); [contradiction | reflexivity].
    + destruct (String.eqb_spec k0 k'); [reflexivity | exact IH].
Qed.

Lemma dict_set_length (d : output) (k : string) (v : talk_record) :
  (length (dict_set d k v) <= S (length d))%nat.
Proof.
  induction d as [|[k0 v0] d IH]; cbn [dict_set]; [cbn; lia|].
  destruct (String.eqb k0 k); cbn; lia.
Qed.

Lemma description_output_get (talks : list talk) :
  forall (out : output) (idx : Z) (i : nat) (d : talk),
    talks !! i = Some d ->
    (forall (j : nat) (d' : talk), (i < j)%nat -> talks !! j = Some d' ->
       t_youtube_url d' <> t_youtube_url d) ->
    dict_get (description_output out idx talks) (t_youtube_url d)
    = Some (description_record (idx + Z.of_nat i) d).
Proof.
  induction talks as [|d0 rest IH]; intros out idx i d Hi Hlast; [discriminate|].
  cbn [description_output]. destruct i as [|i].
  - injection Hi as ->. clear IH.
    assert (Hkeep : forall l out0 idx0 r,
      (forall d', In d' l -> t_youtube_url d' <> t_youtube_url d) ->
      dict_get out0 (t_youtube_url d) = Some r ->
      dict_get (description_output out0 idx0 l) (t_youtube_url d) = Some r).
    { induction l as [|d1 l IHl]; intros out0 idx0 r Hl Hg; cbn [description_output];
        [exact Hg|].
      apply IHl; [intros d' Hin; apply Hl; right; exact Hin|].
      rewrite dict_get_set_ne; [exact Hg|]. apply Hl. left. reflexivity. }
    apply Hkeep.
    + intros d' [j Hj]%list_elem_of_In%list_elem_of_lookup.
      apply (Hlast (S j) d'); [lia | exact Hj].
    + replace (idx + Z.of_nat 0) with idx by lia. apply dict_get_set_eq.
  - rewrite (IH _ (idx + 1) i d Hi).
    + f_equal. f_equal. lia.
    + intros j d' Hj Hd'. apply (Hlast (S j) d'); [lia | exact Hd'].
Qed.

Lemma description_output_length (talks : list talk) :
  forall (out : output) (idx : Z),
    (length (description_output out idx talks) <= length out + length talks)%nat.
Proof.
  induction talks as [|d rest IH]; intros out idx; cbn [description_output]; [cbn; lia|].
  specialize (IH (dict_set out (t_youtube_url d) (description_record idx d)) (idx + 1)).
  pose proof (dict_set_length out (t_youtube_url d) (description_record idx d)).
  cbn [length]. lia.
Qed.

(** X14: in the output built from the descriptions, every talk of the
    window whose video link is not the link of a later talk has its record
    under that link: its rank as index, its title, its description as
    summary, its schedule link, and its event type and deck link when they
    are not empty.  The output never has more records than the window has
    talks. *)
Theorem descriptions_are_complete (talks : list talk) (i : nat) (d : talk) :
  talks !! i = Some d ->
  (forall (j : nat) (d' : talk), (i < j)%nat -> talks !! j = Some d' ->
     t_youtube_url d' <> t_youtube_url d) ->
  dict_get (description_output [] 1 talks) (t_youtube_url d)
  = Some {| r_index := Z.of_nat i + 1; r_title := t_title d;
            r_summary := t_description d; r_speakers := None;
            r_sched_link := Some (t_sched_link d);
            r_event_type := keep_truthy (t_event_type d);
            r_deck_url := keep_truthy (t_deck_url d) |} /\
  (length (description_output [] 1 talks) <= length talks)%nat.
Proof.
  intros Hi Hlast. split.
  - rewrite (description_output_get talks [] 1 i d Hi Hlast).
    unfold description_record. f_equal. f_equal. lia.
  - apply (description_output_length talks [] 1).
Qed.

End Schedule.

(** ** The summarizers *)

Lemma span_digits_digits (s : string) :
  forallb is_digit (chars (fst (span_digits s))) = true.
Proof.
  induction s as [|c s IH]; [reflexivity|]. cbn [span_digits].
  destruct (is_digit c) eqn:Hc; [|reflexivity].
  destruct (span_digits s) as [d r]. cbn [fst] in *.
  cbn [chars list_ascii_of_string forallb]. fold (chars d). rewrite Hc, IH. reflexivity.
Qed.

Lemma match_number_numeral (s g : string) :
  match_number s = Some g ->
  exists whole frac,
    whole <> "" /\ forallb is_digit (chars whole) = true /\
    forallb is_digit (chars frac) = true /\
    (g = whole \/ g = whole +:+ "." +:+ frac).
Proof.
  unfold match_number. pose proof (span_digits_digits s) as Hw.
  destruct (span_digits s) as [whole r]. cbn [fst] in Hw.
  destruct (str_truthy whole) eqn:Ht; [|discriminate].
  assert (Hne : whole <> "") by (intros ->; discriminate).
  destruct r as [|c r'].
  - intros [= <-]. exists whole, "". auto.
  - destruct (Ascii.eqb_spec c "."%char) as [->|Hc].
    + intros [= <-]. exists whole, (fst (span_digits r')).
      repeat split; auto using span_digits_digits.
    + intros Hg. exists whole, "".
      assert (g = whole).
      { destruct c as [[] [] [] [] [] [] [] []]; try (injection Hg as <-; reflexivity).
        contradiction Hc. reflexivity. }
      auto.
Qed.

(** X16: the delay that the Gemini variant reads from the text of a
    rate-limit error is a decimal numeral: one or more digits, then
    possibly a dot and digits.  Its conversion to a number cannot fail, so
    a hint that is found is always the delay that is slept. *)
Theorem retry_hint_is_a_numeral (error_str numeral : string) :
  search_retry_in error_str = Some numeral ->
  exists whole frac,
    whole <> "" /\ forallb is_digit (chars whole) = true /\
    forallb is_digit (chars frac) = true /\
    (numeral = whole \/ numeral = whole +:+ "." +:+ frac).
Proof.
  induction error_str as [|c s IH]; cbn [search_retry_in].
  - intros H. vm_compute in H. discriminate.
  - destruct (String.prefix "retry in " (String c s)).
    + destruct (match_number _) as [g|] eqn:Hm.
      * intros [= <-]. exact (match_number_numeral _ _ Hm).
      * exact IH.
    + exact IH.
Qed.

Section Lock.

Context (E : env).

Import EventLoop.

Lemma nothing_in_flight {A} (l : list (task A)) :
  weigh in_flight_weight l = 0%nat ->
  forall i t, l !! i = Some t -> in_flight_weight t = 0%nat.
Proof.
  induction l as [|x rest IH]; intros Hz i t Hi.
  - rewrite lookup_nil in Hi. discriminate.
  - cbn [weigh] in Hz. destruct i as [|i].
    + change ((x :: rest) !! 0%nat) with (Some x) in Hi. injection Hi as <-. lia.
    + change ((x :: rest) !! S i) with (rest !! i) in Hi.
      apply (IH ltac:(lia) i t Hi).
Qed.

Lemma something_in_flight {A} (l : list (task A)) :
  (0 < weigh in_flight_weight l)%nat -> exists i c, l !! i = Some (InFlight c).
Proof.
  induction l as [|x rest IH]; cbn [weigh]; intros Hpos; [lia|].
  destruct x as [c|c|c|r]; cbn [in_flight_weight] in Hpos.
  2: exists 0%nat, c; reflexivity.
  all: destruct (IH ltac:(lia)) as (i & c' & Hi); exists (S i), c'; exact Hi.
Qed.

(** X17: sequential mode cannot deadlock.  On an instance that owns the
    lock, whatever the invocations and the order in which they were resumed
    so far, as long as one invocation is not over there is an invocation
    whose resumption moves it: the one whose request is in flight returns
    and frees the lock or, when none is in flight, the lock is free and an
    invocation that has not sent its request takes the lock and sends
    it. *)
Theorem sequential_calls_make_progress (s : Summarizer) (calls : list (string * string))
    (schedule : list nat) (w : world) (i : nat) (t : task string) :
  _lock s = true ->
  tasks (run schedule (init E s calls w)) !! i = Some t ->
  (forall r, t <> Finished r) ->
  exists j : nat,
    ((exists c r,
        tasks (run schedule (init E s calls w)) !! j = Some (InFlight c) /\
        resume j (run schedule (init E s calls w))
        = State false (world_of (run schedule (init E s calls w)))
            (<[j := Finished (Ok r)]> (tasks (run schedule (init E s calls w))))) \/
     (locked (run schedule (init E s calls w)) = false /\
      exists c0 c p,
        (tasks (run schedule (init E s calls w)) !! j = Some (Ready c0) \/
         tasks (run schedule (init E s calls w)) !! j = Some (Blocked c0)) /\
        resume j (run schedule (init E s calls w))
        = State true (after (world_of (run schedule (init E s calls w))) [EvChat s p])
            (<[j := InFlight c]> (tasks (run schedule (init E s calls w)))))) /\
    resume j (run schedule (init E s calls w)) <> run schedule (init E s calls w).
Proof.
  intros Hlock Hi Hopen.
  destruct (run_invariant E s w schedule Hlock _ (init_invariant E s calls w))
    as (Hok & Hflight & _).
  set (st := run schedule (init E s calls w)) in *.
  assert (Hchange : forall j q q' b w', tasks st !! j = Some q -> q <> q' ->
            State b w' (<[j := q']> (tasks st)) <> st).
  { intros j q q' b w' Hj Hq Heq. apply (f_equal tasks) in Heq. cbn [tasks] in Heq.
    apply (f_equal (fun l => l !! j)) in Heq.
    rewrite list_lookup_insert_eq in Heq by (eapply lookup_lt_Some; exact Hj).
    rewrite Hj in Heq. congruence. }
  destruct (locked st) eqn:Hl.
  - destruct (something_in_flight (tasks st)) as (j & c & Hj);
      [unfold in_flight in Hflight; lia|].
    exists j.
    assert (Hc : finishing c).
    { apply (proj1 (Forall_forall _ _) Hok (InFlight c)).
      eapply list_elem_of_lookup_2. exact Hj. }
    destruct (Hc (locked st) (world_of st)) as [r Hr].
    assert (Hres : resume j st = State false (world_of st)
                                   (<[j := Finished (Ok r)]> (tasks st))).
    { unfold resume. rewrite Hj, Hr. reflexivity. }
    split; [left; exists c, r; split; [exact Hj | exact Hres]|].
    rewrite Hres. apply (Hchange j (InFlight c)); [exact Hj | discriminate].
  - exists i.
    assert (Hti : task_ok E s t).
    { apply (proj1 (Forall_forall _ _) Hok t). eapply list_elem_of_lookup_2. exact Hi. }
    pose proof (nothing_in_flight (tasks st) Hflight i t Hi) as Hnot.
    destruct t as [c|c|c|r]; cbn [in_flight_weight] in Hnot; try discriminate.
    + destruct Hti as (text & title & ->).
      destruct (summarize_starts_reply E s text title (world_of st) Hlock)
        as (c & Hc & _).
      assert (Hres : resume i st
                     = State true (after (world_of st) [EvChat s (build_prompt s text title)])
                         (<[i := InFlight c]> (tasks st))).
      { unfold resume. rewrite Hi, Hl, Hc. reflexivity. }
      split.
      * right. split; [reflexivity|]. eexists _, c, _. split; [left; exact Hi|].
        exact Hres.
      * rewrite Hres. eapply Hchange; [exact Hi | discriminate].
    + destruct (Hti (world_of st)) as (c' & p & Hc & _).
      assert (Hres : resume i st
                     = State true (after (world_of st) [EvChat s p])
                         (<[i := InFlight c']> (tasks st))).
      { unfold resume. rewrite Hi, Hl, Hc. reflexivity. }
      split.
      * right. split; [reflexivity|]. exists c, c', p. split; [right; exact Hi|].
        exact Hres.
      * rewrite Hres. eapply Hchange; [exact Hi | discriminate].
    + exfalso. apply (Hopen r). reflexivity.
Qed.

End Lock.

(** ** The detail page of a talk *)

Section DetailPage.

Context (get_page : nat -> string -> result detail_page).

(** The run of the title loop over the attempts that are left. *)
Lemma title_attempts_run (sched_link : string) (attempts : list Z) :
  forall w : world,
    attempts <> [] ->
    (forall i a, attempts !! i = Some a ->
       (a <? max_attempts) = negb (bool_decide (S i = length attempts))) ->
    exists (found : result (option detail_page)) (evs : list event),
      title_attempts get_page sched_link attempts w = (found, after w evs) /\
      (1 <= length (detail_requests evs) <= length attempts)%nat /\
      Forall (fun l => l = sched_link) (detail_requests evs) /\
      sleeps evs = replicate (length (detail_requests evs) - 1) (FloatOf "1.0") /\
      length evs = (length (detail_requests evs) + length (sleeps evs))%nat /\
      match found with
      | Ok (Some page) =>
          exists t, (now w <= t)%nat /\ get_page t sched_link = Ok page /\
                    dp_name page <> None
      | Ok None => length (detail_requests evs) = length attempts
      | Raise e => exists t, (now w <= t)%nat /\ get_page t sched_link = Raise e
      end /\
      (forall page, get_page (now w) sched_link = Ok page -> dp_name page <> None ->
         found = Ok (Some page) /\ evs = [EvTalkDetail sched_link]).
Proof.
  induction attempts as [|attempt rest IH]; intros w Hne Hlast; [contradiction|].
  cbn [title_attempts]. rewrite bind_run. cbn [interact]. rewrite bind_run.
  unfold lift at 1. fold (now w).
  set (w1 := World (text_files w) (json_files w) (trace w ++ [EvTalkDetail sched_link])).
  destruct (get_page (now w) sched_link) as [page|e] eqn:Hpage.
  - case_bool_decide as Hname.
    + exists (Ok (Some page)), [EvTalkDetail sched_link].
      split; [reflexivity|]. split; [cbn; lia|]. split; [repeat constructor|].
      split; [reflexivity|]. split; [reflexivity|]. split.
      * exists (now w). auto.
      * intros page' [= <-] _. auto.
    + rewrite bind_run.
      destruct rest as [|attempt' rest'].
      * assert (Hno : (attempt <? max_attempts) = false).
        { rewrite (Hlast 0%nat attempt eq_refl). cbn. rewrite bool_decide_eq_true_2; auto. }
        rewrite Hno. cbn [ret title_attempts].
        exists (Ok None), [EvTalkDetail sched_link].
        split; [reflexivity|]. split; [cbn; lia|]. split; [repeat constructor|].
        split; [reflexivity|]. split; [reflexivity|]. split; [reflexivity|].
        intros page' [= <-] Hn. contradiction.
      * assert (Hyes : (attempt <? max_attempts) = true).
        { rewrite (Hlast 0%nat attempt eq_refl). cbn.
          rewrite bool_decide_eq_false_2; [reflexivity | lia]. }
        rewrite Hyes. unfold sleep_for. rewrite bind_run. cbn [interact ret].
        set (w2 := World (text_files w1) (json_files w1)
                     (trace w1 ++ [EvSleep (FloatOf "1.0")])).
        destruct (IH w2) as (found & evs & Hrun & Hn & Hall & Hsl & Hev & Hfound & _).
        { discriminate. }
        { intros i a Hi. rewrite (Hlast (S i) a Hi). cbn [length].
          f_equal. apply bool_decide_ext. lia. }
        exists found, (EvTalkDetail sched_link :: EvSleep (FloatOf "1.0") :: evs).
        split.
        { rewrite Hrun. f_equal. subst w2 w1. unfold after. cbn.
          rewrite <- !app_assoc. reflexivity. }
        split; [cbn [detail_requests length] in *; lia|].
        split; [cbn [detail_requests]; constructor; [reflexivity | exact Hall]|].
        split.
        { cbn [sleeps detail_requests length]. rewrite Hsl.
          destruct (length (detail_requests evs)) as [|n] eqn:Hlen; [lia|].
          cbn. rewrite Nat.sub_0_r. reflexivity. }
        split; [cbn [sleeps detail_requests length]; lia|].
        split.
        { assert (Hnow : (now w <= now w2)%nat).
          { subst w2 w1. unfold now. cbn. rewrite !length_app. cbn. lia. }
          destruct found as [[page'|]|e'].
          - destruct Hfound as (t & Ht & Hx). exists t. split; [lia | exact Hx].
          - cbn [detail_requests length] in *. lia.
          - destruct Hfound as (t & Ht & Hx). exists t. split; [lia | exact Hx]. }
        intros page' [= <-] Hn'. contradiction.
  - exists (Raise e), [EvTalkDetail sched_link].
    split; [reflexivity|]. split; [cbn; lia|]. split; [repeat constructor|].
    split; [reflexivity|]. split; [reflexivity|]. split.
    + exists (now w). auto.
    + intros page' [=].
Qed.

(** The attempts of the loop are numbered so that the last one is not
    followed by a pause. *)
Lemma attempts_numbered :
  forall i a, [1; 2; 3] !! i = Some a ->
    (a <? max_attempts) = negb (bool_decide (S i = length [1; 2; 3])).
Proof.
  intros [|[|[|i]]] a [= <-]; reflexivity.
Qed.

(** X18: [_fetch_talk_detail] never raises and touches no file.  It asks
    for the page of the talk at least once and at most three times, and for
    no other page; it pauses for one second between two requests and never
    after the last one, so a run makes [n] requests and [n - 1] pauses and
    nothing else; when the first page has the title element, that request
    is all it does. *)
Theorem fetch_talk_detail_is_bounded (sched_link : string) (w : world) :
  exists (r : option talk) (evs : list event),
    _fetch_talk_detail get_page sched_link w = (Ok r, after w evs) /\
    (1 <= length (detail_requests evs) <= 3)%nat /\
    Forall (fun l => l = sched_link) (detail_requests evs) /\
    sleeps evs = replicate (length (detail_requests evs) - 1) (FloatOf "1.0") /\
    length evs = (2 * length (detail_requests evs) - 1)%nat /\
    (forall page, get_page (now w) sched_link = Ok page -> dp_name page <> None ->
       evs = [EvTalkDetail sched_link]).
Proof.
  unfold _fetch_talk_detail, try_except. rewrite bind_run.
  destruct (title_attempts_run sched_link [1; 2; 3] w)
    as (found & evs & -> & Hn & Hall & Hsl & Hev & _ & Hfirst);
    [discriminate | exact attempts_numbered |].
  assert (Hlen : length evs = (2 * length (detail_requests evs) - 1)%nat).
  { rewrite Hev, Hsl, length_replicate. lia. }
  assert (Hone : forall page, get_page (now w) sched_link = Ok page ->
                   dp_name page <> None -> evs = [EvTalkDetail sched_link]).
  { intros page Hp Hname. apply (Hfirst page Hp Hname). }
  cbn [length] in Hn.
  destruct found as [[page|]|e].
  - destruct (opt_truthy (page_youtube_url page)); eexists _, evs; repeat split; auto; lia.
  - eexists _, evs; repeat split; auto; lia.
  - eexists _, evs; repeat split; auto; lia.
Qed.

Lemma span_id_chars (s : string) : forallb is_id_char (chars (span_id s)) = true.
Proof.
  induction s as [|c s IH]; [reflexivity|]. cbn [span_id].
  destruct (is_id_char c) eqn:Hc; [|reflexivity].
  cbn [chars list_ascii_of_string forallb]. fold (chars (span_id s)).
  rewrite Hc, IH. reflexivity.
Qed.

Lemma str_truthy_nonempty (s : string) : str_truthy s = true -> s <> "".
Proof. intros H ->. discriminate. Qed.

Lemma search_embed_id_some (s id : string) :
  search_embed_id s = Some id ->
  id <> "" /\ forallb is_id_char (chars id) = true.
Proof.
  induction s as [|c s IH]; cbn [search_embed_id].
  - intros H. vm_compute in H. discriminate.
  - destruct (String.prefix "youtube.com/embed/" (String c s)).
    + destruct (str_truthy _) eqn:Ht.
      * intros [= <-]. split; [|apply span_id_chars].
        apply str_truthy_nonempty. exact Ht.
      * exact IH.
    + exact IH.
Qed.

(** X19: a talk that [_fetch_talk_detail] returns carries the link it was
    asked for and a video link that is not empty; it was read from a page
    that the site served during the call and that has the title element:
    its title and description are those of the page, and its video link is
    the first direct link of the page, when that is not empty, and
    otherwise the watch link built from the id of the first embedded frame,
    an id that is not empty and holds no question mark, ampersand or
    slash. *)
Theorem fetched_talk_has_a_video (sched_link : string) (d : talk) (w w' : world) :
  _fetch_talk_detail get_page sched_link w = (Ok (Some d), w') ->
  t_sched_link d = sched_link /\
  t_youtube_url d <> "" /\
  exists (t : nat) (page : detail_page),
    (now w <= t)%nat /\ get_page t sched_link = Ok page /\
    dp_name page = Some (t_title d) /\
    t_description d = default "" (dp_tip_description page) /\
    match dp_youtube_links page with
    | href :: _ =>
        href <> "" -> t_youtube_url d = href
    | [] =>
        exists iframe_src rest video_id,
          dp_youtube_iframes page = iframe_src :: rest /\
          search_embed_id iframe_src = Some video_id /\
          t_youtube_url d = "https://www.youtube.com/watch?v=" +:+ video_id /\
          video_id <> "" /\ forallb is_id_char (chars video_id) = true
    end.
Proof.
  unfold _fetch_talk_detail, try_except. rewrite bind_run.
  destruct (title_attempts_run sched_link [1; 2; 3] w)
    as (found & evs & -> & _ & _ & _ & _ & Hfound & _);
    [discriminate | exact attempts_numbered |].
  destruct found as [[page|]|e]; [|discriminate|discriminate].
  destruct Hfound as (t & Ht & Hpage & Hname).
  destruct (opt_truthy (page_youtube_url page)) eqn:Hurl; [|discriminate].
  unfold ret. intros [= <- <-]. cbn [t_sched_link t_youtube_url t_title t_description].
  split; [reflexivity|]. split.
  { destruct (page_youtube_url page) as [u|]; [|discriminate]. cbn in *.
    unfold str_truthy in Hurl. intros ->. discriminate. }
  exists t, page. split; [exact Ht|]. split; [exact Hpage|]. split.
  { destruct (dp_name page); [reflexivity | contradiction]. }
  split; [reflexivity|].
  revert Hurl. unfold page_youtube_url.
  destruct (dp_youtube_links page) as [|href links].
  - cbn [opt_truthy negb].
    destruct (dp_youtube_iframes page) as [|iframe_src rest]; [discriminate|].
    destruct (search_embed_id iframe_src) as [video_id|] eqn:Hid; [|discriminate].
    intros _. exists iframe_src, rest, video_id.
    destruct (search_embed_id_some _ _ Hid). auto 10.
  - intros _ Hne. cbn [opt_truthy]. unfold str_truthy.
    destruct (String.eqb_spec href ""); [contradiction|]. reflexivity.
Qed.

Lemma split_char_nonempty (sep : ascii) (s : string) : split_char sep s <> [].
Proof.
  destruct s as [|c s]; cbn [split_char]; [discriminate|].
  destruct (Ascii.eqb c sep); [discriminate|].
  destruct (split_char sep s); discriminate.
Qed.

Lemma string_prefix_cons (c : ascii) (a b : string) :
  String.prefix (String c a) (String c b) = String.prefix a b.
Proof. cbn [String.prefix]. destruct (ascii_dec c c); [reflexivity | contradiction]. Qed.

Lemma split_join_prefix (s : string) :
  forall n : nat,
    String.prefix (str_join "/" (firstn n (split_char "/"%char s))) s = true.
Proof.
  unfold str_join. induction s as [|c s IH]; intros n.
  - destruct n as [|[|n]]; reflexivity.
  - destruct n as [|n]; [reflexivity|]. cbn [split_char].
    destruct (Ascii.eqb_spec c "/"%char) as [->|Hc].
    + cbn [firstn]. specialize (IH n).
      destruct (firstn n (split_char "/" s)) as [|x l] eqn:Hl; [reflexivity|].
      change (String.concat "/" ("" :: x :: l))
        with (String "/" (String.concat "/" (x :: l))).
      rewrite string_prefix_cons. exact IH.
    + specialize (IH (S n)).
      destruct (split_char "/" s) as [|first others] eqn:Hs;
        [exfalso; exact (split_char_nonempty _ _ Hs)|].
      cbn [firstn] in *.
      destruct (firstn n others) as [|x l].
      * cbn [String.concat] in *. rewrite string_prefix_cons. exact IH.
      * change (String.concat "/" (String c first :: x :: l))
          with (String c (first +:+ "/" +:+ String.concat "/" (x :: l))).
        rewrite string_prefix_cons. exact IH.
Qed.

Lemma split_join_slashes (s : string) :
  forall n : nat,
    (slashes (str_join "/" (firstn n (split_char "/"%char s))) <= n - 1)%nat.
Proof.
  unfold str_join. induction s as [|c s IH]; intros n.
  - destruct n as [|[|n]]; cbn; lia.
  - destruct n as [|n]; [rewrite take_0; cbn; lia|]. cbn [split_char].
    destruct (Ascii.eqb_spec c "/"%char) as [->|Hc].
    + cbn [firstn]. specialize (IH n).
      destruct (firstn n (split_char "/" s)) as [|x l] eqn:Hl; [cbn; lia|].
      change (String.concat "/" ("" :: x :: l))
        with (String "/" (String.concat "/" (x :: l))).
      cbn [slashes]. change (Ascii.eqb "/" "/") with true.
      destruct n as [|n]; [discriminate Hl|]. lia.
    + specialize (IH (S n)).
      destruct (split_char "/" s) as [|first others] eqn:Hs;
        [exfalso; exact (split_char_nonempty _ _ Hs)|].
      cbn [firstn] in *.
      assert (Hno : Ascii.eqb c "/" = false) by (apply Ascii.eqb_neq; exact Hc).
      destruct (firstn n others) as [|x l].
      * cbn [String.concat] in *. cbn [slashes]. rewrite Hno. exact IH.
      * change (String.concat "/" (String c first :: x :: l))
          with (String c (first +:+ "/" +:+ String.concat "/" (x :: l))).
        cbn [slashes]. rewrite Hno. exact IH.
Qed.

(** X20: the deck link of a talk is the link found in the page when that
    is empty or starts with [http]; otherwise it is that link appended to
    the base of the talk's own link, and that base is a prefix of the
    talk's link with at most two slashes: its scheme and host. *)
Theorem deck_link_is_resolved (sched_link : string) (page : detail_page) (deck : string) :
  page_deck_url sched_link page = Some deck ->
  exists href,
    dp_deck_href page = Some href /\
    ((deck = href /\ (href = "" \/ String.prefix "http" href = true)) \/
     (deck = base_url sched_link +:+ href /\ href <> "" /\
      String.prefix "http" href = false)) /\
    String.prefix (base_url sched_link) sched_link = true /\
    (slashes (base_url sched_link) <= 2)%nat.
Proof.
  unfold page_deck_url, startswith, base_url.
  destruct (dp_deck_href page) as [href|]; [|discriminate].
  intros [= <-]. exists href. split; [reflexivity|]. split.
  - unfold str_truthy. destruct (String.eqb_spec href "") as [->|Hne]; cbn [negb andb].
    + left. auto.
    + destruct (String.prefix "http" href); cbn [negb]; [left | right]; auto.
  - split; [apply (split_join_prefix sched_link 3)|].
    apply (split_join_slashes sched_link 3).
Qed.

End DetailPage.

(** ** The renderers *)

Lemma insert_item_perm (x : string * talk_record) (l : output) :
  insert_item x l ≡ₚ x :: l.
Proof.
  induction l as [|y l IH]; cbn [insert_item]; [reflexivity|].
  destruct (r_index (snd x) <=? r_index (snd y)); [reflexivity|].
  rewrite IH. apply Permutation_swap.
Qed.

Lemma sorted_items_perm (data : output) : sorted_items data ≡ₚ data.
Proof.
  induction data as [|x data IH]; cbn [sorted_items]; [reflexivity|].
  rewrite insert_item_perm, IH. reflexivity.
Qed.

Lemma insert_item_sorted (x : string * talk_record) (l : output) :
  StronglySorted (fun a b => item_index a <= item_index b) l ->
  StronglySorted (fun a b => item_index a <= item_index b) (insert_item x l).
Proof.
  induction 1 as [|y l Hl IH Hy]; cbn [insert_item].
  - repeat constructor.
  - destruct (r_index (snd x) <=? r_index (snd y)) eqn:Hxy.
    + apply Z.leb_le in Hxy. constructor; [constructor; assumption|].
      constructor; [exact Hxy|].
      eapply Forall_impl; [exact Hy|]. unfold item_index in *. intros; cbn in *; lia.
    + apply Z.leb_gt in Hxy. constructor; [exact IH|].
      rewrite insert_item_perm. constructor; [unfold item_index; lia | exact Hy].
Qed.

Lemma sorted_items_sorted (data : output) :
  StronglySorted (fun a b => item_index a <= item_index b) (sorted_items data).
Proof.
  induction data as [|x data IH]; cbn [sorted_items]; [constructor|].
  apply insert_item_sorted, IH.
Qed.

Lemma index_determines_item (l : output) (a b : string * talk_record) :
  NoDup (map item_index l) -> In a l -> In b l -> item_index a = item_index b -> a = b.
Proof.
  induction l as [|x l IH]; intros Hnd Ha Hb Hab; [destruct Ha|].
  cbn in Hnd. apply NoDup_cons in Hnd as [Hx Hnd].
  destruct Ha as [->|Ha], Hb as [->|Hb]; auto.
  - exfalso. apply Hx. rewrite Hab. apply list_elem_of_In, in_map, Hb.
  - exfalso. apply Hx. rewrite <- Hab. apply list_elem_of_In, in_map, Ha.
Qed.

Lemma sorted_by_index_unique (l1 : output) :
  forall l2 : output,
    StronglySorted (fun a b => item_index a <= item_index b) l1 ->
    StronglySorted (fun a b => item_index a <= item_index b) l2 ->
    l1 ≡ₚ l2 -> NoDup (map item_index l1) -> l1 = l2.
Proof.
  induction l1 as [|a l1 IH]; intros l2 H1 H2 Hp Hnd.
  - apply Permutation_nil_l in Hp. congruence.
  - destruct l2 as [|b l2]; [apply Permutation_nil_r in Hp; discriminate|].
    apply StronglySorted_inv in H1 as [H1 Ha]. apply StronglySorted_inv in H2 as [H2 Hb].
    assert (Hab : a = b).
    { assert (Hain : In a (b :: l2)).
      { apply list_elem_of_In. rewrite <- Hp. left. }
      assert (Hbin : In b (a :: l1)).
      { apply list_elem_of_In. rewrite Hp. left. }
      destruct Hain as [->|Hain]; [reflexivity|].
      destruct Hbin as [->|Hbin]; [reflexivity|].
      apply (index_determines_item (a :: l1)); auto; [left; reflexivity | right; exact Hbin|].
      rewrite Forall_forall in Ha, Hb.
      apply list_elem_of_In in Hain, Hbin.
      specialize (Ha _ Hbin). specialize (Hb _ Hain). lia. }
    subst b. f_equal. apply Permutation_cons_inv in Hp.
    apply IH; auto. cbn in Hnd. apply NoDup_cons in Hnd as [_ Hnd]. exact Hnd.
Qed.

Lemma sorted_items_of_permutation (data data' : output) :
  data ≡ₚ data' -> NoDup (map item_index data) ->
  sorted_items data = sorted_items data'.
Proof.
  intros Hp Hnd. apply sorted_by_index_unique.
  - apply sorted_items_sorted.
  - apply sorted_items_sorted.
  - rewrite !sorted_items_perm. exact Hp.
  - assert (Hm : map item_index (sorted_items data) ≡ₚ map item_index data)
      by apply Permutation_map, sorted_items_perm.
    rewrite Hm. exact Hnd.
Qed.

(** X21: both renderers show the records in the order of their indexes,
    whatever the order in which the mapping holds them: two mappings with
    the same records, whose indexes are all different, give the same
    markdown document and the same deck. *)
Theorem rendering_ignores_insertion_order (data data' : output) (title : string) :
  data ≡ₚ data' ->
  NoDup (map (fun item => r_index (snd item)) data) ->
  render_markdown data title = render_markdown data' title /\
  render_marp_deck data title = render_marp_deck data' title.
Proof.
  intros Hp Hnd. unfold render_markdown, render_marp_deck, marp_slides.
  rewrite (sorted_items_of_permutation data data' Hp Hnd). split; reflexivity.
Qed.

Lemma total_len_app (a b : list string) : total_len (a ++ b) = total_len a + total_len b.
Proof. induction a as [|p a IH]; cbn [total_len app]; lia. Qed.

Lemma greedy_grow (groups : list (list string)) (current : list string) (para : string) :
  (current = [] -> groups = []) ->
  greedy (groups ++ [current])%list -> greedy (groups ++ [current ++ [para]])%list.
Proof.
  intros Hc. induction groups as [|g groups IH]; [cbn; auto|].
  assert (Hne : current <> []) by (intros ->; specialize (Hc eq_refl); discriminate).
  cbn [app greedy]. intros [Hhead Hrest]. split.
  - destruct groups as [|g' groups]; cbn [app] in *.
    + destruct current as [|p0 current]; [contradiction | exact Hhead].
    + exact Hhead.
  - destruct groups as [|g' groups]; [cbn; auto|].
    apply IH; [intros ->; contradiction | exact Hrest].
Qed.

Lemma greedy_close (groups : list (list string)) (current : list string) (para : string) :
  max_len < total_len current + str_len para ->
  greedy (groups ++ [current])%list -> greedy ((groups ++ [current]) ++ [[para]])%list.
Proof.
  intros Hfull. induction groups as [|g groups IH]; [cbn; auto|].
  cbn [app greedy]. intros [Hhead Hrest]. split.
  - destruct groups as [|g' groups]; cbn [app] in *; exact Hhead.
  - apply IH, Hrest.
Qed.

(** The loop keeps the paragraphs in groups. *)
Lemma chunk_loop_groups (paragraphs : list string) :
  forall (groups : list (list string)) (current : list string),
    Forall group_ok groups ->
    (current = [] \/ group_ok current) ->
    (current = [] -> groups = []) ->
    greedy (groups ++ [current])%list ->
    exists (groups' : list (list string)) (current' : list string),
      chunk_loop paragraphs (map (str_join (LF +:+ LF)) groups) current (total_len current)
      = (map (str_join (LF +:+ LF)) groups', current') /\
      Forall group_ok groups' /\
      (current' = [] \/ group_ok current') /\
      (current' = [] -> groups' = []) /\
      greedy (groups' ++ [current'])%list /\
      (concat groups' ++ current')%list
      = (concat groups ++ current ++ List.filter str_truthy (map strip paragraphs))%list.
Proof.
  induction paragraphs as [|para rest IH]; intros groups current Hg Hc He Hgr;
    cbn [chunk_loop map List.filter].
  - exists groups, current. rewrite app_nil_r. auto 10.
  - destruct (str_truthy (strip para)) eqn:Hp; cbn [negb].
    + destruct ((max_len <? total_len current + str_len (strip para))
                && negb (bool_decide (current = []))) eqn:Hfull.
      * apply andb_true_iff in Hfull as [Hlt Hne]. apply Z.ltb_lt in Hlt.
        apply negb_true_iff, bool_decide_eq_false in Hne.
        destruct Hc as [?|Hc]; [contradiction|].
        destruct (IH (groups ++ [current])%list [strip para])
          as (g' & c' & Hrun & Hg' & Hc' & He' & Hgr' & Hcat).
        { apply Forall_app. split; [exact Hg|]. constructor; [exact Hc|constructor]. }
        { right. split; [discriminate|]. left. reflexivity. }
        { discriminate. }
        { apply greedy_close; assumption. }
        exists g', c'. split; [|auto 10].
        -- rewrite map_app in Hrun. cbn [map] in Hrun.
           replace (total_len [strip para]) with (str_len (strip para)) in Hrun
             by (cbn; lia).
           exact Hrun.
        -- repeat (split; [assumption|]).
           rewrite Hcat, concat_app. cbn [concat]. rewrite app_nil_r, <- !app_assoc.
           reflexivity.
      * destruct (IH groups (current ++ [strip para])%list)
          as (g' & c' & Hrun & Hg' & Hc' & He' & Hgr' & Hcat).
        { exact Hg. }
        { right. split; [destruct current; discriminate|].
          apply andb_false_iff in Hfull as [Hfit|Hemp].
          - right. apply Z.ltb_ge in Hfit. rewrite total_len_app. cbn. lia.
          - apply negb_false_iff, bool_decide_eq_true in Hemp. subst current.
            left. reflexivity. }
        { destruct current; discriminate. }
        { apply greedy_grow; assumption. }
        exists g', c'. split; [|].
        -- rewrite total_len_app in Hrun.
           replace (total_len [strip para]) with (str_len (strip para)) in Hrun
             by (cbn; lia).
           exact Hrun.
        -- repeat (split; [assumption|]). rewrite Hcat, <- !app_assoc. reflexivity.
    + apply IH; assumption.
Qed.

(** X22: the chunks of a summary of ASCII characters are its paragraphs in
    groups: the paragraphs are stripped, the blank ones are dropped, and the
    others are kept in their order, each in one chunk, joined by a blank
    line; no chunk is empty; a chunk of more than one paragraph holds at
    most 1000 characters of paragraphs; and a chunk is closed only when the
    next paragraph would take it over 1000. *)
Theorem marp_chunks_partition (summary : string) :
  is_ascii summary ->
  exists groups : list (list string),
    marp_chunks summary = map (str_join (LF +:+ LF)) groups /\
    concat groups = shown_paragraphs summary /\
    Forall (fun g => g <> [] /\ (length g = 1%nat \/ total_len g <= 1000)) groups /\
    greedy groups.
Proof.
  intros _. unfold marp_chunks, shown_paragraphs.
  set (paragraphs := if str_truthy summary then split_paragraphs summary else [""]).
  destruct (chunk_loop_groups paragraphs [] [])
    as (groups & current & Hrun & Hg & Hc & He & Hgr & Hcat);
    [constructor | left; reflexivity | reflexivity | cbn; auto |].
  cbn [map total_len concat app] in Hrun, Hcat. rewrite Hrun.
  case_bool_decide as Hcur; cbn [negb].
  - subst current. rewrite (He eq_refl) in *. exists []. cbn in *. auto.
  - destruct Hc as [?|Hc]; [contradiction|].
    exists (groups ++ [current])%list. split; [|split; [|split]].
    + rewrite map_app. reflexivity.
    + rewrite concat_app. cbn [concat]. rewrite app_nil_r. exact Hcat.
    + apply Forall_app. split; [exact Hg|]. constructor; [exact Hc|constructor].
    + exact Hgr.
Qed.

Lemma contains_app (marker x s : string) :
  String.prefix marker s = true -> contains marker (x +:+ s) = true.
Proof.
  intros Hp. unfold contains. induction x as [|c x IH].
  - change ("" +:+ s) with s. destruct s as [|c s].
    + destruct marker; [reflexivity | discriminate].
    + cbn [String.index]. rewrite Hp. reflexivity.
  - change (String c x +:+ s) with (String c (x +:+ s)). cbn [String.index].
    destruct (String.prefix marker (String c (x +:+ s))); [reflexivity|].
    destruct (String.index 0 marker (x +:+ s)); [reflexivity | discriminate].
Qed.

Lemma before_last_slide_end (x : string) :
  before_last (LF +:+ "---") (x +:+ slide_end) = Some x.
Proof.
  induction x as [|c x IH]; [reflexivity|].
  change (String c x +:+ slide_end) with (String c (x +:+ slide_end)).
  cbn [before_last]. rewrite IH. reflexivity.
Qed.

Lemma str_join_empty_cons (x : string) (parts : list string) :
  str_join "" (x :: parts) = x +:+ str_join "" parts.
Proof.
  unfold str_join. destruct parts as [|y parts]; [|reflexivity].
  cbn [String.concat]. symmetry. apply append_nil_r.
Qed.

Lemma str_join_empty_app (a b : list string) :
  str_join "" (a ++ b) = str_join "" a +:+ str_join "" b.
Proof.
  induction a as [|x a IH]; [reflexivity|].
  cbn [app]. rewrite !str_join_empty_cons, IH, append_assoc. reflexivity.
Qed.

Lemma title_block_ends (title : string) : ends_slide (title_block title).
Proof.
  exists ("# " +:+ title +:+ LF). unfold title_block, slide_end.
  rewrite !append_assoc. reflexivity.
Qed.

Lemma talk_slides_end (url : string) (info : talk_record) :
  Forall ends_slide (talk_slides url info) /\ talk_slides url info <> [].
Proof.
  unfold talk_slides. split; [|discriminate]. constructor.
  - eexists. reflexivity.
  - apply Forall_forall. intros slide [chunk [<- _]]%list_elem_of_In%in_map_iff.
    exists (chunk +:+ LF). rewrite !str_join_empty_cons.
    change (str_join "" []) with "". rewrite append_nil_r, append_assoc. reflexivity.
Qed.

Lemma slides_after_header (data : output) (title : string) :
  exists rest,
    marp_slides data title = marp_header :: rest /\ Forall ends_slide rest /\
    (str_truthy title || negb (bool_decide (data = [])) = true -> rest <> []) /\
    (str_truthy title || negb (bool_decide (data = [])) = false -> rest = []).
Proof.
  unfold marp_slides.
  assert (Htalks : Forall ends_slide
            (concat (map (fun item => talk_slides (fst item) (snd item))
                       (sorted_items data)))).
  { induction (sorted_items data) as [|item l IH]; [constructor|].
    cbn [map concat]. apply Forall_app. split; [apply talk_slides_end | exact IH]. }
  assert (Hne : data <> [] ->
            concat (map (fun item => talk_slides (fst item) (snd item))
                      (sorted_items data)) <> []).
  { intros Hd. destruct (sorted_items data) as [|item l] eqn:Hs.
    - exfalso. apply Hd. pose proof (sorted_items_perm data) as Hp.
      rewrite Hs in Hp. symmetry. apply Permutation_nil_l. exact Hp.
    - cbn [map concat]. unfold talk_slides. discriminate. }
  destruct (str_truthy title) eqn:Ht; cbn [orb app].
  - eexists. split; [reflexivity|]. split; [|split; [discriminate|discriminate]].
    constructor; [apply title_block_ends | exact Htalks].
  - eexists. split; [reflexivity|]. split; [exact Htalks|]. split.
    + intros Hd. apply Hne. apply negb_true_iff, bool_decide_eq_false in Hd. exact Hd.
    + intros Hd. apply negb_false_iff, bool_decide_eq_true in Hd. subst data. reflexivity.
Qed.

(** X23: a deck with a title or with a talk is its slides put together
    with the separator that ends the last slide taken away: where the
    slides end with a blank-line-framed rule, the deck ends with one line
    feed.  A deck without title and without talk is the header alone. *)
Theorem marp_deck_has_no_trailing_separator (data : output) (title : string) :
  if str_truthy title || negb (bool_decide (data = []))
  then exists body,
         str_join "" (marp_slides data title) = body +:+ LF +:+ "---" +:+ LF +:+ LF /\
         render_marp_deck data title = body +:+ LF
  else render_marp_deck data title = marp_header.
Proof.
  unfold render_marp_deck.
  destruct (slides_after_header data title) as (rest & -> & Hends & Hne & Hnil).
  destruct (str_truthy title || negb (bool_decide (data = []))).
  - specialize (Hne eq_refl).
    destruct (exists_last Hne) as (front & slide & ->).
    apply Forall_app in Hends as [_ Hlast]. apply Forall_inv in Hlast as [x ->].
    exists (str_join "" (marp_header :: front) +:+ x). split.
    + change (marp_header :: front ++ [x +:+ slide_end])
        with ((marp_header :: front) ++ [x +:+ slide_end])%list.
      rewrite str_join_empty_app, (str_join_empty_cons (x +:+ slide_end)).
      change (str_join "" []) with "". rewrite append_nil_r. unfold slide_end.
      rewrite !append_assoc. reflexivity.
    + unfold strip_trailing_separator.
      assert (Hlen : (1 <? len (marp_header :: front ++ [x +:+ slide_end])) = true).
      { apply Z.ltb_lt. unfold len. cbn [length]. rewrite length_app. cbn. lia. }
      rewrite Hlen.
      change (marp_header :: front ++ [x +:+ slide_end])
        with ((marp_header :: front) ++ [x +:+ slide_end])%list.
      cbv zeta. rewrite last_snoc. cbn [default]. unfold id.
      rewrite contains_app by reflexivity.
      rewrite removelast_last.
      unfold rsplit_head. rewrite before_last_slide_end. cbn [default]. unfold id.
      rewrite str_join_empty_app, (str_join_empty_cons (x +:+ LF)).
      change (str_join "" []) with "". rewrite append_nil_r, !append_assoc. reflexivity.
  - rewrite (Hnil eq_refl). reflexivity.
Qed.

(** ** The command line *)

Section CommandLine.

Context (E : env).

(** X24: a run of the command line that cannot build its summarizer, or
    that asks for none on a playlist, ends before anything is fetched or
    written: a missing key and an unknown summarizer name (the message
    then starts with [Unknown strategy: ] and the name in lower case) raise
    a [ValueError] in the world the run started in, and the disabled
    summarizer on a URL that is not a schedule exits with status 1 in that
    world. *)
Theorem main_fails_before_fetching (a : args) (w : world) :
  (forall e, main_summarizer E a = Raise e ->
             main E a w = (Raise e, w) /\ exn_cls e = ValueError /\
             lower (a_summarizer a) <> "disabled") /\
  (lower (a_summarizer a) = "disabled" ->
   contains "sched.com" (a_playlist_url a) = false ->
   main E a w = (Ok (SysExit 1), w)) /\
  (lower (a_summarizer a) <> "openai" -> lower (a_summarizer a) <> "gemini" ->
   lower (a_summarizer a) <> "anthropic" -> lower (a_summarizer a) <> "ollama" ->
   lower (a_summarizer a) <> "disabled" ->
   exists e, main E a w = (Raise e, w) /\
             String.prefix ("Unknown strategy: " +:+ lower (a_summarizer a)) (exn_str e)
             = true).
Proof.
  split; [|split].
  - intros e He. unfold main. rewrite bind_run, He. cbn [lift].
    split; [reflexivity|]. revert He. unfold main_summarizer.
    destruct (String.eqb_spec (lower (a_summarizer a)) "disabled"); [discriminate|].
    cbv zeta. destruct (get_summarizer E _ _) as [s|e0] eqn:Hg; [discriminate|].
    intros [= <-]. split; [|assumption].
    exact (get_summarizer_value_error E _ _ _ Hg).
  - intros Hd Hs. unfold main, main_summarizer. rewrite bind_run, Hd, Hs. reflexivity.
  - intros H1 H2 H3 H4 H5. unfold main, main_summarizer. rewrite bind_run.
    destruct (String.eqb_spec (lower (a_summarizer a)) "disabled"); [contradiction|].
    cbv zeta. unfold get_summarizer.
    destruct (String.eqb_spec (lower (a_summarizer a)) "openai"); [contradiction|].
    destruct (String.eqb_spec (lower (a_summarizer a)) "gemini"); [contradiction|].
    destruct (String.eqb_spec (lower (a_summarizer a)) "anthropic"); [contradiction|].
    destruct (String.eqb_spec (lower (a_summarizer a)) "ollama"); [contradiction|].
    cbn [lift]. eexists. split; [reflexivity|].
    cbn [exn_str]. apply string_prefix_app_app.
Qed.

(** The run of [main] with the summarizer disabled. *)
Lemma main_disabled_run (a : args) (w : world) :
  lower (a_summarizer a) = "disabled" ->
  exists (o : outcome) (evs : list event) (w' : world),
    main E a w = (Ok o, w') /\
    text_files w' = text_files w /\
    trace w' = (trace w ++ evs)%list /\
    forallb schedule_event evs = true /\
    (contains "sched.com" (a_playlist_url a) = false -> o = SysExit 1 /\ evs = []) /\
    (o = SysExit 1 \/
     exists data, o = Render data /\ data <> [] /\
       fst (process_sched_talks E (a_playlist_url a) None (a_limit a)
              (a_cache_bust_sched a) false (a_offset a) (a_sleep a)
              (negb (a_cache_bust_summary a)) (a_proxy a) w) = Ok data).
Proof.
  intros Hd. unfold main, main_summarizer. rewrite Hd.
  change (String.eqb "disabled" "disabled") with true. cbv iota. rewrite bind_run.
  unfold lift at 1. cbv iota beta.
  destruct (contains "sched.com" (a_playlist_url a)) eqn:Hs.
  - rewrite bind_run. unfold process_sched_talks. rewrite bind_run.
    cbn [sched_summarizer lift]. rewrite bind_run.
    destruct (discover_sched_run E (a_playlist_url a) (a_limit a) (a_cache_bust_sched a)
                (a_offset a) (a_sleep a) w) as (talks & used & evs & w1 & -> & Ht & Htr & Hev).
    cbn [build_sched_output negb].
    destruct (bool_decide (talks = [])) eqn:Hnil.
    + exists (SysExit 1), evs, w1. cbn [ret]. unfold exit_if_empty. cbn.
      repeat split; auto. discriminate.
    + exists (exit_if_empty (description_output [] 1
                (sched_window (a_limit a) (a_offset a) used talks))), evs, w1.
      cbn [ret]. split; [reflexivity|]. repeat (split; [assumption|]).
      split; [discriminate|].
      unfold exit_if_empty.
      destruct (bool_decide (description_output [] 1
                  (sched_window (a_limit a) (a_offset a) used talks) = [])) eqn:Hout;
        [left; reflexivity|].
      apply bool_decide_eq_false in Hout.
      right. eexists. split; [reflexivity|]. split; [exact Hout | reflexivity].
  - exists (SysExit 1), [], w. rewrite app_nil_r. cbn [ret]. repeat split; auto.
Qed.

(** X25: a run of the command line with the summarizer disabled (in any
    letter case) builds no summarizer and needs no key: on a URL that is
    not a schedule it exits with status 1 at once, and otherwise it is the
    schedule run without summarizer and without summarization, followed by
    the exit with status 1 when that run gives no record.  When the run
    returns, it has only talked to the schedule site and paused, it has
    left every text record as it was, and it exits with status 1 or goes
    on to render the mapping of the schedule run, which is not empty. *)
Theorem main_without_summarizer (a : args) (w : world) :
  lower (a_summarizer a) = "disabled" ->
  main E a w
  = (if contains "sched.com" (a_playlist_url a)
     then (match fst (process_sched_talks E (a_playlist_url a) None (a_limit a)
                        (a_cache_bust_sched a) false (a_offset a) (a_sleep a)
                        (negb (a_cache_bust_summary a)) (a_proxy a) w) with
           | Ok data => Ok (exit_if_empty data)
           | Raise e => Raise e
           end,
           snd (process_sched_talks E (a_playlist_url a) None (a_limit a)
                  (a_cache_bust_sched a) false (a_offset a) (a_sleep a)
                  (negb (a_cache_bust_summary a)) (a_proxy a) w))
     else (Ok (SysExit 1), w)) /\
  forall (o : outcome) (w' : world),
    main E a w = (Ok o, w') ->
    exists evs : list event,
      text_files w' = text_files w /\
      trace w' = (trace w ++ evs)%list /\
      forallb schedule_event evs = true /\
      (contains "sched.com" (a_playlist_url a) = false -> o = SysExit 1 /\ evs = []) /\
      (o = SysExit 1 \/
       exists data, o = Render data /\ data <> [] /\
         fst (process_sched_talks E (a_playlist_url a) None (a_limit a)
                (a_cache_bust_sched a) false (a_offset a) (a_sleep a)
                (negb (a_cache_bust_summary a)) (a_proxy a) w) = Ok data).
Proof.
  intros Hd. split.
  - unfold main, main_summarizer. rewrite Hd.
    change (String.eqb "disabled" "disabled") with true. cbv iota. rewrite bind_run.
    unfold lift at 1. cbv iota beta.
    destruct (contains "sched.com" (a_playlist_url a)); [|reflexivity].
    rewrite bind_run.
    destruct (process_sched_talks E (a_playlist_url a) None (a_limit a)
                (a_cache_bust_sched a) false (a_offset a) (a_sleep a)
                (negb (a_cache_bust_summary a)) (a_proxy a) w) as [[data|e] w1];
      reflexivity.
  - intros o w' Hrun.
    destruct (main_disabled_run a w Hd) as (o0 & evs & w0 & Hrun0 & Hrest).
    rewrite Hrun in Hrun0. injection Hrun0 as -> ->.
    exists evs. exact Hrest.
Qed.

End CommandLine.

(** ** The further properties on concrete runs *)

Import Cases.

(** X3 on a run: the two segments downloaded for a video are served from
    the transcript cache when the video is asked for again, through the
    proxy this time. *)
Lemma download_subtitles_idempotent_witness :
  _download_subtitles_sync captioned "aaa" false empty_world
  = (Ok (Some "hello world"),
     World (<[get_subtitle_cache_path captioned "aaa" := "hello world"]> ∅) ∅
       [EvTranscript "aaa"])
  /\ no_carriage_return "hello world"
  /\ _download_subtitles_sync captioned "aaa" true
       (World (<[get_subtitle_cache_path captioned "aaa" := "hello world"]> ∅) ∅
          [EvTranscript "aaa"])
     = (Ok (Some "hello world"),
        World (<[get_subtitle_cache_path captioned "aaa" := "hello world"]> ∅) ∅
          [EvTranscript "aaa"]).
Proof.
  assert (H : _download_subtitles_sync captioned "aaa" false empty_world
              = (Ok (Some "hello world"),
                 World (<[get_subtitle_cache_path captioned "aaa" := "hello world"]> ∅) ∅
                   [EvTranscript "aaa"]))
    by (vm_compute; reflexivity).
  assert (Hcr : no_carriage_return "hello world") by reflexivity.
  split; [exact H|]. split; [exact Hcr|].
  exact (proj2 (download_subtitles_idempotent captioned "aaa" false true "hello world"
                  _ _ H Hcr)).
Defined.

(** X4 on a run: the sentinel of a failed backend call is cached, and the
    next summary step for that talk returns it, even without transcript. *)
Lemma summary_reused_witness :
  obtain_summary offline (anthropic "claude" 800) false "aaa" "Talk A"
    (Some "a transcript") empty_world
  = (Ok "Summary unavailable due to an error.", failed_once)
  /\ opt_truthy (Some "a transcript") = true
  /\ no_carriage_return "Summary unavailable due to an error."
  /\ text_files failed_once !! get_summary_cache_path offline "aaa" (anthropic "claude" 800)
     = Some "Summary unavailable due to an error."
  /\ obtain_summary offline (anthropic "claude" 800) true "aaa" "Talk A" None failed_once
     = (Ok "Summary unavailable due to an error.", failed_once).
Proof.
  assert (H1 : obtain_summary offline (anthropic "claude" 800) false "aaa" "Talk A"
                 (Some "a transcript") empty_world
               = (Ok "Summary unavailable due to an error.", failed_once))
    by (vm_compute; reflexivity).
  assert (H2 : opt_truthy (Some "a transcript") = true) by reflexivity.
  assert (H3 : no_carriage_return "Summary unavailable due to an error.")
    by reflexivity.
  split; [exact H1|]. split; [exact H2|]. split; [exact H3|]. split.
  - exact (proj1 (summary_reused offline _ _ _ _ _ _ _ _ H1 (or_introl H2) H3)).
  - exact (proj2 (summary_reused offline _ _ _ _ _ _ _ _ H1 (or_introl H2) H3)
             "Talk A" None).
Defined.

(** X5 on a run: the playlist listed with a refresh is what a run without
    refresh then finds, with no request. *)
Lemma discover_playlist_idempotent_witness :
  discover_playlist listing playlist_url true playlist_cached
  = (Ok (Some (videos_of_entries two_entries)), listed_once)
  /\ discover_playlist listing playlist_url false listed_once
     = (Ok (Some (videos_of_entries two_entries)), listed_once).
Proof.
  assert (H : discover_playlist listing playlist_url true playlist_cached
              = (Ok (Some (videos_of_entries two_entries)), listed_once))
    by (vm_compute; reflexivity).
  split; [exact H|].
  exact (proj2 (discover_playlist_idempotent listing playlist_url true _ _ _ H)).
Defined.

(** X6 on a run: with the playlist service down and no record, the run
    returns the empty mapping. *)
Lemma playlist_unavailable_is_empty_witness :
  (false = true \/
   forall data, json_files empty_world !! get_playlist_cache_path offline playlist_url
                <> Some (JVideos data))
  /\ (forall entries, extract_info offline (now empty_world) playlist_url
                      <> Ok (Some entries))
  /\ process_playlist offline playlist_url (Some (anthropic "claude" 800)) None false
       true false 0 empty_world
     = (Ok [], after empty_world [EvExtractInfo playlist_url]).
Proof.
  assert (H1 : false = true \/
               forall data, json_files empty_world
                              !! get_playlist_cache_path offline playlist_url
                            <> Some (JVideos data))
    by (right; intros data H; vm_compute in H; discriminate H).
  assert (H2 : forall entries, extract_info offline (now empty_world) playlist_url
                               <> Ok (Some entries))
    by (intros entries H; discriminate H).
  split; [exact H1|]. split; [exact H2|].
  exact (playlist_unavailable_is_empty offline playlist_url (anthropic "claude" 800)
           None false true false 0 empty_world H1 H2).
Defined.

(** X8 on a run: the ten-minute video at position 2 of the cached playlist
    has the record of index 3 under its indexed URL. *)
Lemma playlist_records_are_complete_witness :
  discover_playlist offline playlist_url false playlist_cached
  = (Ok (Some [video_a; video_s; video_b]), playlist_cached)
  /\ process_playlist offline playlist_url (Some (anthropic "claude" 800)) None false
       true false 0 playlist_cached
     = (Ok [("https://www.youtube.com/watch?v=aaa&list=PL1&index=1",
             blank_record 1 "Talk A");
            ("https://www.youtube.com/watch?v=bbb&list=PL1&index=3",
             blank_record 3 "Talk B")],
        after playlist_cached [EvTranscript "aaa"; EvTranscript "bbb"])
  /\ playlist_id_of offline playlist_url = Ok (Some "PL1")
  /\ exists r,
       dict_get [("https://www.youtube.com/watch?v=aaa&list=PL1&index=1",
                  blank_record 1 "Talk A");
                 ("https://www.youtube.com/watch?v=bbb&list=PL1&index=3",
                  blank_record 3 "Talk B")]
         (indexed_url_of (Some "PL1") (Z.of_nat 2 + 1) (v_url video_b)) = Some r /\
       r_index r = Z.of_nat 2 + 1 /\ r_title r = v_title video_b.
Proof.
  assert (H1 : discover_playlist offline playlist_url false playlist_cached
               = (Ok (Some [video_a; video_s; video_b]), playlist_cached))
    by (vm_compute; reflexivity).
  assert (H2 : process_playlist offline playlist_url (Some (anthropic "claude" 800)) None
                 false true false 0 playlist_cached
               = (Ok [("https://www.youtube.com/watch?v=aaa&list=PL1&index=1",
                       blank_record 1 "Talk A");
                      ("https://www.youtube.com/watch?v=bbb&list=PL1&index=3",
                       blank_record 3 "Talk B")],
                  after playlist_cached [EvTranscript "aaa"; EvTranscript "bbb"]))
    by (vm_compute; reflexivity).
  assert (H3 : playlist_id_of offline playlist_url = Ok (Some "PL1"))
    by (vm_compute; reflexivity).
  assert (H4 : opt_truthy (Some "PL1") = true) by reflexivity.
  assert (H5 : apply_limit None [video_a; video_s; video_b] !! 2%nat = Some video_b)
    by reflexivity.
  assert (H6 : too_short (v_duration video_b) = false) by reflexivity.
  assert (H7 : extract_video_id offline (v_url video_b) = Ok "bbb")
    by (vm_compute; reflexivity).
  split; [exact H1|]. split; [exact H2|]. split; [exact H3|].
  exact (playlist_records_are_complete offline playlist_url
           (Some (anthropic "claude" 800)) None false true false 0
           [video_a; video_s; video_b] _ playlist_cached playlist_cached _
           (Some "PL1") 2%nat video_b "bbb" H1 H2 H3 H4 H5 H6 H7).
Defined.

(** X10 on a run: with the transcript source down, the talk has a record
    with an empty summary, and the request for the transcript is all that
    happened. *)
Lemma talk_without_transcript_witness :
  too_short 0 = false
  /\ extract_video_id offline "https://www.youtube.com/watch?v=aaa" = Ok "aaa"
  /\ download_subtitles offline "aaa" false empty_world
     = (Ok None, after empty_world [EvTranscript "aaa"])
  /\ process_video offline "https://www.youtube.com/watch?v=aaa" 1 "Talk A"
       (anthropic "claude" 800) 0 None (Some "https://kccnc.sched.com/event/1") false
       false 0 empty_world
     = (Ok (Some {| r_index := 1; r_title := "Talk A"; r_summary := "";
                    r_speakers := keep_truthy None;
                    r_sched_link := keep_truthy (Some "https://kccnc.sched.com/event/1");
                    r_event_type := None; r_deck_url := None |}),
        after empty_world [EvTranscript "aaa"]).
Proof.
  assert (H1 : too_short 0 = false) by reflexivity.
  assert (H2 : extract_video_id offline "https://www.youtube.com/watch?v=aaa" = Ok "aaa")
    by (vm_compute; reflexivity).
  assert (H3 : courtesy_sleep 0 empty_world = (Ok tt, empty_world)) by reflexivity.
  assert (H4 : download_subtitles offline "aaa" false empty_world
               = (Ok None, after empty_world [EvTranscript "aaa"]))
    by (vm_compute; reflexivity).
  assert (H5 : opt_truthy None = false) by reflexivity.
  split; [exact H1|]. split; [exact H2|]. split; [exact H4|].
  exact (talk_without_transcript offline "https://www.youtube.com/watch?v=aaa" 1 "Talk A"
           (anthropic "claude" 800) 0 None (Some "https://kccnc.sched.com/event/1")
           false false 0 "aaa" None empty_world empty_world _ H1 H2 H3 H4 H5).
Defined.

(** X12 on a run: a run with a limit of one talk caches the one talk it
    scraped, and a run without limit is then served that talk. *)
Lemma sched_cache_holds_the_scraped_talks_witness :
  discover_sched one_event sched_url (Some 1) false 0 0 empty_world
  = (Ok ([talk2], false), scraped_once)
  /\ json_files scraped_once !! get_sched_cache_path one_event sched_url
     = Some (JTalks [talk2])
  /\ discover_sched one_event sched_url None false 0 0 scraped_once
     = (Ok ([talk2], true), scraped_once).
Proof.
  assert (H1 : discover_sched one_event sched_url (Some 1) false 0 0 empty_world
               = (Ok ([talk2], false), scraped_once))
    by (vm_compute; reflexivity).
  assert (H2 : [talk2] <> []) by discriminate.
  split; [exact H1|]. split.
  - exact (proj1 (proj2 (sched_cache_holds_the_scraped_talks one_event sched_url (Some 1)
                           0 [talk2] empty_world scraped_once H1 H2))).
  - exact (proj2 (proj2 (sched_cache_holds_the_scraped_talks one_event sched_url (Some 1)
                           0 [talk2] empty_world scraped_once H1 H2)) None 0 0).
Defined.

(** X14 on a run: the first of the two talks has the record of index 1. *)
Lemma descriptions_are_complete_witness :
  [talk1; talk2] !! 0%nat = Some talk1
  /\ dict_get (description_output [] 1 [talk1; talk2]) (t_youtube_url talk1)
     = Some {| r_index := Z.of_nat 0 + 1; r_title := t_title talk1;
               r_summary := t_description talk1; r_speakers := None;
               r_sched_link := Some (t_sched_link talk1);
               r_event_type := keep_truthy (t_event_type talk1);
               r_deck_url := keep_truthy (t_deck_url talk1) |}.
Proof.
  assert (H1 : [talk1; talk2] !! 0%nat = Some talk1) by reflexivity.
  assert (H2 : forall (j : nat) (d' : talk), (0 < j)%nat ->
                 [talk1; talk2] !! j = Some d' ->
                 t_youtube_url d' <> t_youtube_url talk1).
  { intros [|[|j]] d' Hj Hd'; [lia | | destruct j; discriminate Hd'].
    injection Hd' as <-. discriminate. }
  split; [exact H1|].
  exact (proj1 (descriptions_are_complete [talk1; talk2] 0 talk1 H1 H2)).
Defined.

(** X16 on a run: the hint of a quota error. *)
Lemma retry_hint_is_a_numeral_witness :
  search_retry_in "429 quota exceeded, please retry in 12.5s." = Some "12.5"
  /\ exists whole frac,
       whole <> "" /\ forallb is_digit (chars whole) = true /\
       forallb is_digit (chars frac) = true /\
       ("12.5" = whole \/ "12.5" = whole +:+ "." +:+ frac).
Proof.
  assert (H : search_retry_in "429 quota exceeded, please retry in 12.5s." = Some "12.5")
    by (vm_compute; reflexivity).
  split; [exact H|].
  exact (retry_hint_is_a_numeral "429 quota exceeded, please retry in 12.5s." "12.5" H).
Defined.

(** X17 on a run: after two invocations were started, the second one is
    suspended in [acquire], and an invocation can move. *)
Lemma sequential_calls_make_progress_witness :
  _lock (ollama "granite3.3:2b" 800) = true
  /\ (exists c,
        EventLoop.tasks
          (EventLoop.run [0; 1]%nat
             (EventLoop.init offline (ollama "granite3.3:2b" 800)
                [("first transcript", "Talk A"); ("second transcript", "Talk B")]
                empty_world))
        !! 1%nat = Some (EventLoop.Blocked c))
  /\ exists j : nat,
       EventLoop.resume j
         (EventLoop.run [0; 1]%nat
            (EventLoop.init offline (ollama "granite3.3:2b" 800)
               [("first transcript", "Talk A"); ("second transcript", "Talk B")]
               empty_world))
       <> EventLoop.run [0; 1]%nat
            (EventLoop.init offline (ollama "granite3.3:2b" 800)
               [("first transcript", "Talk A"); ("second transcript", "Talk B")]
               empty_world).
Proof.
  assert (H1 : _lock (ollama "granite3.3:2b" 800) = true) by reflexivity.
  assert (H2 : EventLoop.tasks
                 (EventLoop.run [0; 1]%nat
                    (EventLoop.init offline (ollama "granite3.3:2b" 800)
                       [("first transcript", "Talk A"); ("second transcript", "Talk B")]
                       empty_world))
               !! 1%nat
               = Some (EventLoop.Blocked
                         (co_then
                            (ollama_summarize_once offline (ollama "granite3.3:2b" 800)
                               "second transcript" "Talk B")
                            (fun r => CoRelease (CoDone r))))) by reflexivity.
  assert (H3 : forall r,
            EventLoop.Blocked
              (co_then
                 (ollama_summarize_once offline (ollama "granite3.3:2b" 800)
                    "second transcript" "Talk B")
                 (fun r => CoRelease (CoDone r)))
            <> EventLoop.Finished r) by discriminate.
  split; [exact H1|]. split; [eexists; exact H2|].
  destruct (sequential_calls_make_progress offline (ollama "granite3.3:2b" 800)
              [("first transcript", "Talk A"); ("second transcript", "Talk B")]
              [0; 1]%nat empty_world 1%nat _ H1 H2 H3) as (j & _ & Hmove).
  exists j. exact Hmove.
Defined.

(** X19 on a run: the talk read from a page that embeds its video. *)
Lemma fetched_talk_has_a_video_witness :
  _fetch_talk_detail (serve embedded_page) "https://kccnc.sched.com/event/1" empty_world
  = (Ok (Some fetched_talk), after empty_world [EvTalkDetail "https://kccnc.sched.com/event/1"])
  /\ t_sched_link fetched_talk = "https://kccnc.sched.com/event/1"
  /\ t_youtube_url fetched_talk <> "".
Proof.
  assert (H : _fetch_talk_detail (serve embedded_page) "https://kccnc.sched.com/event/1"
                empty_world
              = (Ok (Some fetched_talk),
                 after empty_world [EvTalkDetail "https://kccnc.sched.com/event/1"]))
    by (vm_compute; reflexivity).
  split; [exact H|]. split.
  - exact (proj1 (fetched_talk_has_a_video (serve embedded_page) _ _ _ _ H)).
  - exact (proj1 (proj2 (fetched_talk_has_a_video (serve embedded_page) _ _ _ _ H))).
Defined.

(** X20 on a run: the relative deck link of the page is resolved against
    the site of the talk. *)
Lemma deck_link_is_resolved_witness :
  page_deck_url "https://kccnc.sched.com/event/1" embedded_page
  = Some "https://kccnc.sched.com/hosted_files/deck.pdf"
  /\ base_url "https://kccnc.sched.com/event/1" = "https://kccnc.sched.com"
  /\ String.prefix (base_url "https://kccnc.sched.com/event/1")
       "https://kccnc.sched.com/event/1" = true.
Proof.
  assert (H : page_deck_url "https://kccnc.sched.com/event/1" embedded_page
              = Some "https://kccnc.sched.com/hosted_files/deck.pdf")
    by (vm_compute; reflexivity).
  split; [exact H|]. split; [vm_compute; reflexivity|].
  destruct (deck_link_is_resolved "https://kccnc.sched.com/event/1" embedded_page _ H)
    as (href & _ & _ & Hprefix & _).
  exact Hprefix.
Defined.

(** X21 on a run: two records render alike in either order. *)
Lemma rendering_ignores_insertion_order_witness :
  [record_a; record_b] ≡ₚ [record_b; record_a]
  /\ render_markdown [record_a; record_b] "Conference Summary"
     = render_markdown [record_b; record_a] "Conference Summary"
  /\ render_marp_deck [record_a; record_b] "Conference Summary"
     = render_marp_deck [record_b; record_a] "Conference Summary".
Proof.
  assert (H1 : [record_a; record_b] ≡ₚ [record_b; record_a]) by apply Permutation_swap.
  assert (H2 : NoDup (map (fun item : string * talk_record => r_index (snd item))
                        [record_a; record_b])).
  { cbn. apply NoDup_cons_2; [|apply NoDup_singleton].
    intros Hin. apply list_elem_of_In in Hin. destruct Hin as [Hin|[]]. discriminate Hin. }
  split; [exact H1|].
  exact (rendering_ignores_insertion_order [record_a; record_b] [record_b; record_a]
           "Conference Summary" H1 H2).
Defined.

(** X11 on a run: the listing links one event; its page is the one page
    asked for. *)
Lemma scrape_requests_witness :
  scrape_sched_talks_async one_event sched_url None 0 0 empty_world
  = (Ok [talk2],
     after empty_world [EvSchedIndex sched_url;
                        EvTalkDetail "https://kccnc.sched.com/event/2"])
  /\ exists (listing : string) (evs : list event),
       after empty_world [EvSchedIndex sched_url;
                          EvTalkDetail "https://kccnc.sched.com/event/2"]
       = after empty_world (EvSchedIndex listing :: evs) /\
       listing = sched_url /\
       detail_requests evs `prefix_of` ["https://kccnc.sched.com/event/2"] /\
       (length [talk2] <= length (detail_requests evs))%nat.
Proof.
  assert (H : scrape_sched_talks_async one_event sched_url None 0 0 empty_world
              = (Ok [talk2],
                 after empty_world [EvSchedIndex sched_url;
                                    EvTalkDetail "https://kccnc.sched.com/event/2"]))
    by (vm_compute; reflexivity).
  split; [exact H|].
  destruct (scrape_requests one_event sched_url None 0 0 [talk2] empty_world _ H)
    as (listing & evs & Hw & Hlisting & Hrest).
  assert (Hl : listing = sched_url) by (rewrite Hlisting; reflexivity).
  rewrite Hl in Hrest. cbn in Hrest. destruct Hrest as (Hp & _ & Hlen & _).
  exists listing, evs. split; [exact Hw|]. split; [exact Hl|].
  split; [exact Hp | exact Hlen].
Defined.

(** X13 on a run: the descriptions of the two cached talks, without
    summarizer and without key. *)
Lemma sched_descriptions_only_witness :
  process_sched_talks offline sched_url None None false false 0 0 true false
    (sched_cached [talk1; talk2])
  = (Ok [(t_youtube_url talk1, description_record 1 talk1);
         (t_youtube_url talk2, description_record 2 talk2)],
     sched_cached [talk1; talk2])
  /\ exists evs : list event,
       text_files (sched_cached [talk1; talk2]) = text_files (sched_cached [talk1; talk2]) /\
       trace (sched_cached [talk1; talk2])
       = (trace (sched_cached [talk1; talk2]) ++ evs)%list /\
       forallb schedule_event evs = true.
Proof.
  assert (H : process_sched_talks offline sched_url None None false false 0 0 true false
                (sched_cached [talk1; talk2])
              = (Ok [(t_youtube_url talk1, description_record 1 talk1);
                     (t_youtube_url talk2, description_record 2 talk2)],
                 sched_cached [talk1; talk2]))
    by (vm_compute; reflexivity).
  split; [exact H|].
  destruct (proj2 (sched_descriptions_only offline sched_url None None false 0 0 true
                     false (sched_cached [talk1; talk2])) _ _ H)
    as (evs & Ht & Htr & Hev & _).
  exists evs. split; [exact Ht|]. split; [exact Htr | exact Hev].
Defined.

(** X22 on a run: a summary of two short paragraphs makes one chunk. *)
Lemma marp_chunks_partition_witness :
  is_ascii ("First point." +:+ LF +:+ LF +:+ "Second point.")
  /\ exists groups : list (list string),
       marp_chunks ("First point." +:+ LF +:+ LF +:+ "Second point.")
       = map (str_join (LF +:+ LF)) groups /\
       concat groups = ["First point."; "Second point."].
Proof.
  assert (H : is_ascii ("First point." +:+ LF +:+ LF +:+ "Second point."))
    by (vm_compute; reflexivity).
  split; [exact H|].
  destruct (marp_chunks_partition _ H) as (groups & Hchunks & Hcat & _).
  exists groups. split; [exact Hchunks|]. rewrite Hcat. vm_compute. reflexivity.
Defined.

(** X25 on a run: the disabled summarizer, spelled with a capital, on the
    cached schedule of two talks: the run renders their descriptions and
    asks the site for nothing. *)
Lemma main_without_summarizer_witness :
  lower (a_summarizer disabled_run) = "disabled"
  /\ main offline disabled_run (sched_cached [talk1; talk2])
     = (Ok (Render [(t_youtube_url talk1, description_record 1 talk1);
                    (t_youtube_url talk2, description_record 2 talk2)]),
        sched_cached [talk1; talk2])
  /\ exists evs : list event,
       trace (sched_cached [talk1; talk2])
       = (trace (sched_cached [talk1; talk2]) ++ evs)%list /\
       forallb schedule_event evs = true.
Proof.
  assert (H : lower (a_summarizer disabled_run) = "disabled") by reflexivity.
  assert (Hrun : main offline disabled_run (sched_cached [talk1; talk2])
                 = (Ok (Render [(t_youtube_url talk1, description_record 1 talk1);
                                (t_youtube_url talk2, description_record 2 talk2)]),
                    sched_cached [talk1; talk2]))
    by (vm_compute; reflexivity).
  split; [exact H|]. split; [exact Hrun|].
  destruct (proj2 (main_without_summarizer offline disabled_run
                     (sched_cached [talk1; talk2]) H) _ _ Hrun)
    as (evs & _ & Htr & Hev & _).
  exists evs. split; [exact Htr | exact Hev].
Defined.
